(** * workFlow: the graph store (flowSlice) and its persistence gateway

    A shallow embedding of the Redux slice [flowSlice] (the reducers
    [setNodes], [setEdges], [setSelectedNode], [addNode], [updateNodeLabel]
    and [deleteNode]) and of the mock [apiService] of the [FlowChart]
    component, which saves the graph to [localStorage] as JSON text.

    The store holds JavaScript values: a reducer stores whatever payload it
    is given. Values are therefore modelled as they are at run time, and a
    reducer that reads a property of [null] or [undefined] raises a
    [TypeError], modelled by [None].

    The reducers do no arithmetic and look at strings only to compare
    them, so the store is modelled on values whose numbers are integers and
    whose strings are byte strings. What a saved workflow holds depends on
    the text of numbers and strings; the module [Full] models the
    persistence path on doubles and UTF-16 strings. *)

From Stdlib Require Import ZArith Ascii String List Bool Lia.
From Stdlib Require Import Decimal DecimalString DecimalPos DecimalZ.
From stdpp Require Import base option list strings gmap.

Local Open Scope Z_scope.
Set Warnings "-register-all".

(** ** JavaScript values *)

Module JS.

(** Numbers are modelled by integers (the coordinates of the seed graph are
    integers); strings by [string], one character per code unit; objects by
    the list of their own properties in the order in which they are
    enumerated. *)
Inductive value : Type :=
| VUndefined
| VNull
| VBool (b : bool)
| VNum (n : Z)
| VStr (s : string)
| VArr (elems : list value)
| VObj (props : list (string * value)).

Definition props := list (string * value).

(** [ps[k]] on the own properties of an object. *)
Fixpoint lookup_prop (k : string) (ps : props) : option value :=
  match ps with
  | [] => None
  | (k', v) :: rest => if String.eqb k k' then Some v else lookup_prop k rest
  end.

(** Defining property [k]: an existing property keeps its place and takes
    the new value, a new one goes last. *)
Fixpoint set_prop (k : string) (v : value) (ps : props) : props :=
  match ps with
  | [] => [(k, v)]
  | (k', v') :: rest =>
      if String.eqb k k' then (k, v) :: rest else (k', v') :: set_prop k v rest
  end.

Definition nullish (v : value) : bool :=
  match v with
  | VUndefined | VNull => true
  | _ => false
  end.

Definition is_object (v : value) : bool :=
  match v with
  | VObj _ => true
  | _ => false
  end.

(** [v.k] for the property names this program reads ([id], [data],
    [label], [source], [target], [nodeId], [newLabel], [nodes], [edges],
    [success], [message]): a [TypeError] on [null] and [undefined], the own
    property of an object, and [undefined] on primitives and arrays, whose
    prototypes have no property of these names. *)
Definition get_prop (v : value) (k : string) : option value :=
  match v with
  | VUndefined | VNull => None
  | VObj ps => Some (default VUndefined (lookup_prop k ps))
  | _ => Some VUndefined
  end.

(** [a === b]. Primitives compare by value. Objects and arrays compare by
    reference; in a reducer one side is read from the store's draft and the
    other from the action, so they are never the same reference. *)
Definition strict_eq (a b : value) : bool :=
  match a, b with
  | VUndefined, VUndefined => true
  | VNull, VNull => true
  | VBool x, VBool y => Bool.eqb x y
  | VNum x, VNum y => Z.eqb x y
  | VStr x, VStr y => String.eqb x y
  | _, _ => false
  end.

(** Truthiness, as tested by [if (v)], [v && e] and [v ? a : b]. *)
Definition truthy (v : value) : bool :=
  match v with
  | VUndefined | VNull => false
  | VBool b => b
  | VNum n => negb (Z.eqb n 0)
  | VStr s => negb (String.eqb s "")
  | VArr _ | VObj _ => true
  end.

Definition isArray (v : value) : bool :=
  match v with
  | VArr _ => true
  | _ => false
  end.

Definition is_digit (c : ascii) : bool :=
  (48 <=? Z.of_nat (nat_of_ascii c)) && (Z.of_nat (nat_of_ascii c) <=? 57).

(** The name of the [i]-th indexed property. *)
Definition index_key (i : nat) : string :=
  NilEmpty.string_of_uint (Nat.to_uint i).

Fixpoint chars (s : string) : list value :=
  match s with
  | EmptyString => []
  | String c rest => VStr (String c EmptyString) :: chars rest
  end.

Fixpoint indexed_from (i : nat) (l : list value) : props :=
  match l with
  | [] => []
  | v :: rest => (index_key i, v) :: indexed_from (S i) rest
  end.

Definition indexed (l : list value) : props := indexed_from 0 l.

(** The properties copied by [{...v}]: the own enumerable properties of an
    object, the indexed elements of an array or a string, nothing for the
    other values ([null] and [undefined] included). *)
Definition spread (v : value) : props :=
  match v with
  | VObj ps => ps
  | VArr l => indexed l
  | VStr s => indexed (chars s)
  | _ => []
  end.

(** [Array.prototype.map], [filter] and [find] with a callback that may
    throw. *)
Fixpoint array_map (f : value -> option value) (l : list value)
  : option (list value) :=
  match l with
  | [] => Some []
  | v :: rest =>
      match f v with
      | Some w =>
          match array_map f rest with
          | Some ws => Some (w :: ws)
          | None => None
          end
      | None => None
      end
  end.

Fixpoint array_filter (p : value -> option bool) (l : list value)
  : option (list value) :=
  match l with
  | [] => Some []
  | v :: rest =>
      match p v with
      | Some b =>
          match array_filter p rest with
          | Some vs => Some (if b then v :: vs else vs)
          | None => None
          end
      | None => None
      end
  end.

Fixpoint array_find (p : value -> option bool) (l : list value)
  : option value :=
  match l with
  | [] => Some VUndefined
  | v :: rest =>
      match p v with
      | Some true => Some v
      | Some false => array_find p rest
      | None => None
      end
  end.

End JS.

Import JS.

(** ** The slice: src/redux/flowSlice *)

Module flowSlice.

(** The object literals of [initialNodes] and [initialEdges]. *)
Definition node (id type label : string) (x y : Z) : value :=
  VObj [("id", VStr id); ("type", VStr type);
        ("data", VObj [("label", VStr label)]);
        ("position", VObj [("x", VNum x); ("y", VNum y)])].

Definition edge (id source target type : string) : value :=
  VObj [("id", VStr id); ("source", VStr source); ("target", VStr target);
        ("type", VStr type)].

Definition initialNodes : list value :=
  [ node "1" "payment" "Payment of $300" 250 50;
    node "2" "location" "America" 250 150;
    node "3" "gateway" "RazorPay" 250 250 ].

Definition initialEdges : list value :=
  [ edge "e1-2" "1" "2" "custom";
    edge "e2-3" "2" "3" "custom" ].

Record state : Type := State {
  nodes : list value;
  edges : list value;
  selectedNode : value
}.

Definition initialState : state :=
  {| nodes := initialNodes; edges := initialEdges; selectedNode := VNull |}.

(** [Array.isArray(action.payload) ? action.payload : []] *)
Definition stored (payload : value) : list value :=
  match payload with
  | VArr l => l
  | _ => []
  end.

(** [state.nodes = Array.isArray(action.payload) ? action.payload : []] *)
Definition setNodes (st : state) (payload : value) : state :=
  {| nodes := stored payload;
     edges := edges st;
     selectedNode := selectedNode st |}.

(** [state.edges = Array.isArray(action.payload) ? action.payload : []] *)
Definition setEdges (st : state) (payload : value) : state :=
  {| nodes := nodes st;
     edges := stored payload;
     selectedNode := selectedNode st |}.

Definition setSelectedNode (st : state) (payload : value) : state :=
  {| nodes := nodes st; edges := edges st; selectedNode := payload |}.

(** [state.nodes = [...state.nodes, action.payload]] *)
Definition addNode (st : state) (payload : value) : state :=
  {| nodes := nodes st ++ [payload];
     edges := edges st;
     selectedNode := selectedNode st |}.

(** [node.id === nodeId], the test of the [map] and [find] callbacks. *)
Definition id_is (nodeId : value) (n : value) : option bool :=
  match get_prop n "id" with
  | Some i => Some (strict_eq i nodeId)
  | None => None
  end.

(** The callback of [state.nodes.map] in [updateNodeLabel]. *)
Definition relabel (nodeId newLabel : value) (n : value) : option value :=
  match id_is nodeId n with
  | Some true =>
      match get_prop n "data" with
      | Some d =>
          Some (VObj (set_prop "data"
                        (VObj (set_prop "label" newLabel (spread d)))
                        (spread n)))
      | None => None
      end
  | Some false => Some n
  | None => None
  end.

Definition updateNodeLabel (st : state) (payload : value) : option state :=
  match get_prop payload "nodeId", get_prop payload "newLabel" with
  | Some nodeId, Some newLabel =>
      match array_map (relabel nodeId newLabel) (nodes st) with
      | Some nodes' =>
          let sel := selectedNode st in
          if truthy sel then
            match get_prop sel "id" with
            | Some i =>
                if strict_eq i nodeId then
                  match array_find (id_is nodeId) nodes' with
                  | Some found =>
                      Some {| nodes := nodes'; edges := edges st;
                              selectedNode := found |}
                  | None => None
                  end
                else Some {| nodes := nodes'; edges := edges st;
                             selectedNode := sel |}
            | None => None
            end
          else Some {| nodes := nodes'; edges := edges st;
                       selectedNode := sel |}
      | None => None
      end
  | _, _ => None
  end.

(** [node.id !== action.payload] *)
Definition keeps_node (payload : value) (n : value) : option bool :=
  match get_prop n "id" with
  | Some i => Some (negb (strict_eq i payload))
  | None => None
  end.

(** [edge.source !== action.payload && edge.target !== action.payload] *)
Definition keeps_edge (payload : value) (e : value) : option bool :=
  match get_prop e "source" with
  | Some s =>
      if negb (strict_eq s payload) then
        match get_prop e "target" with
        | Some t => Some (negb (strict_eq t payload))
        | None => None
        end
      else Some false
  | None => None
  end.

Definition deleteNode (st : state) (payload : value) : option state :=
  match array_filter (keeps_node payload) (nodes st) with
  | Some nodes' =>
      match array_filter (keeps_edge payload) (edges st) with
      | Some edges' =>
          Some {| nodes := nodes'; edges := edges'; selectedNode := VNull |}
      | None => None
      end
  | None => None
  end.

(** The actions of the slice and its reducer; [None] is a reducer that
    threw, in which case the store keeps its state. *)
Inductive action : Type :=
| SetNodes (payload : value)
| SetEdges (payload : value)
| SetSelectedNode (payload : value)
| AddNode (payload : value)
| UpdateNodeLabel (payload : value)
| DeleteNode (payload : value).

Definition reducer (st : state) (a : action) : option state :=
  match a with
  | SetNodes p => Some (setNodes st p)
  | SetEdges p => Some (setEdges st p)
  | SetSelectedNode p => Some (setSelectedNode st p)
  | AddNode p => Some (addNode st p)
  | UpdateNodeLabel p => updateNodeLabel st p
  | DeleteNode p => deleteNode st p
  end.

(** [updateNodeLabel({ nodeId, newLabel })] *)
Definition label_payload (nodeId newLabel : value) : value :=
  VObj [("nodeId", nodeId); ("newLabel", newLabel)].

(** States reachable from the initial state by dispatching actions. *)
Inductive reachable : state -> Prop :=
| reachable_init : reachable initialState
| reachable_step st a st' :
    reachable st -> reducer st a = Some st' -> reachable st'.

End flowSlice.

Import flowSlice.

(** ** Vocabulary of the store's contract *)

Module Graph.

(** The node [n] has identifier [x]. *)
Definition has_id (x : value) (n : value) : bool :=
  match get_prop n "id" with
  | Some i => strict_eq i x
  | None => false
  end.

(** The property [k] of [e] ([source] or [target]) is the identifier [x]. *)
Definition end_is (k : string) (x : value) (e : value) : bool :=
  match get_prop e k with
  | Some i => strict_eq i x
  | None => false
  end.

(** The edge [e] has [x] as its source or as its target. *)
Definition touches (x : value) (e : value) : bool :=
  end_is "source" x e || end_is "target" x e.

(** Some node of [ns] has the identifier held by property [k] of [v]. *)
Definition refers (ns : list value) (k : string) (v : value) : bool :=
  match get_prop v k with
  | Some i => existsb (has_id i) ns
  | None => false
  end.

(** Nothing is selected, or a node with the selected identifier exists. *)
Definition selection_ok (st : state) : bool :=
  negb (truthy (selectedNode st)) || refers (nodes st) "id" (selectedNode st).

(** Every edge's source and target are identifiers of present nodes. *)
Definition edges_ok (st : state) : bool :=
  forallb (fun e => refers (nodes st) "source" e && refers (nodes st) "target" e)
          (edges st).

(** The records of a sequence: property reads on them do not throw. *)
Definition records (l : list value) : Prop :=
  Forall (fun v => is_object v = true) l.

(** [n.data.label] *)
Definition label_of (n : value) : option value :=
  match get_prop n "data" with
  | Some d => get_prop d "label"
  | None => None
  end.

(** An action that keeps the selection on a present node: [setSelectedNode]
    of nothing or of a node whose identifier is in the sequence, and
    [setNodes] while nothing is selected or of a sequence that still has
    the selected identifier. *)
Definition keeps_selection (st : state) (a : action) : bool :=
  match a with
  | SetSelectedNode p => negb (truthy p) || refers (nodes st) "id" p
  | SetNodes p =>
      negb (truthy (selectedNode st)) ||
      refers (stored p) "id" (selectedNode st)
  | _ => true
  end.

(** An action that keeps the edges on present nodes: [setNodes] of a
    sequence that has both ends of every edge, and [setEdges] of edges
    whose ends are present nodes. *)
Definition keeps_edges (st : state) (a : action) : bool :=
  match a with
  | SetNodes p =>
      forallb (fun e => refers (stored p) "source" e &&
                        refers (stored p) "target" e) (edges st)
  | SetEdges p =>
      forallb (fun e => refers (nodes st) "source" e &&
                        refers (nodes st) "target" e) (stored p)
  | _ => true
  end.

(** What [relabel] returns when it does not throw. *)
Definition relabelled (x l : value) (n : value) : value :=
  if has_id x n then
    VObj (set_prop "data"
            (VObj (set_prop "label" l
                     (spread (default VUndefined (get_prop n "data")))))
            (spread n))
  else n.

(** The selection after [updateNodeLabel]: looked up again in the new
    sequence when the selected identifier is the one relabelled. *)
Definition refreshed (x l : value) (st : state) : value :=
  if truthy (selectedNode st) && has_id x (selectedNode st) then
    default VUndefined
      (List.find (has_id x) (List.map (relabelled x l) (nodes st)))
  else selectedNode st.

(** Scenarios: the first seed node selected and then dropped by a bulk
    replacement of the nodes, and the seed graph with its nodes emptied. *)
Definition first_selected : state :=
  setSelectedNode initialState (node "1" "payment" "Payment of $300" 250 50).

Definition first_dropped : state :=
  setNodes first_selected
    (VArr [node "2" "location" "America" 250 150;
           node "3" "gateway" "RazorPay" 250 250]).

Definition nodes_emptied : state := setNodes initialState (VArr []).

(** A selected node that is not in the node sequence. *)
Definition absent_selected : state :=
  setSelectedNode initialState (node "9" "payment" "Payment of $400" 0 0).

(** The dispatches of a successful load: [setNodes], [setEdges],
    [setSelectedNode(null)]. *)
Definition loaded (st : state) (ns es : value) : state :=
  setSelectedNode (setEdges (setNodes st ns) es) VNull.

(** States reachable from the initial state by actions allowed by [ok]. *)
Inductive reachable_by (ok : state -> action -> bool) : state -> Prop :=
| reachable_by_init : reachable_by ok initialState
| reachable_by_step st a st' :
    reachable_by ok st -> ok st a = true -> reducer st a = Some st' ->
    reachable_by ok st'.

End Graph.

Import Graph.

(** ** JSON text of the values above

    [JSON.stringify] and [JSON.parse] on the values above: compact text
    without indentation, strings with their escapes, numbers as decimal
    integers. This is the fragment of JSON that these values have a text
    in; [Full.JSON] is the whole of it. *)

Module JSON.

Definition dquote : ascii := "034"%char.
Definition bslash : ascii := "092"%char.

Definition hex_char (n : nat) : ascii :=
  nth n ["0"; "1"; "2"; "3"; "4"; "5"; "6"; "7"; "8"; "9";
         "a"; "b"; "c"; "d"; "e"; "f"]%char "0"%char.

(** The text of one character inside a string literal: the quote and the
    backslash are escaped, the control characters have their short escape
    or a [u00XX] escape. *)
Definition escape (c : ascii) : string :=
  let n := nat_of_ascii c in
  if Ascii.eqb c dquote then String bslash (String dquote "")
  else if Ascii.eqb c bslash then String bslash (String bslash "")
  else if Nat.eqb n 8 then String bslash "b"
  else if Nat.eqb n 9 then String bslash "t"
  else if Nat.eqb n 10 then String bslash "n"
  else if Nat.eqb n 12 then String bslash "f"
  else if Nat.eqb n 13 then String bslash "r"
  else if Nat.ltb n 32 then
    String bslash
      (String "u" (String "0" (String "0"
         (String (hex_char (Nat.div n 16))
            (String (hex_char (Nat.modulo n 16)) "")))))
  else String c "".

(** The printers put their text in front of the text [k] that follows. *)
Fixpoint put_escaped (s : string) (k : string) : string :=
  match s with
  | EmptyString => k
  | String c rest => escape c +:+ put_escaped rest k
  end.

Definition put_string (s : string) (k : string) : string :=
  String dquote (put_escaped s (String dquote k)).

Fixpoint put_uint (u : Decimal.uint) (k : string) : string :=
  match u with
  | Nil => k
  | D0 d => String "0" (put_uint d k)
  | D1 d => String "1" (put_uint d k)
  | D2 d => String "2" (put_uint d k)
  | D3 d => String "3" (put_uint d k)
  | D4 d => String "4" (put_uint d k)
  | D5 d => String "5" (put_uint d k)
  | D6 d => String "6" (put_uint d k)
  | D7 d => String "7" (put_uint d k)
  | D8 d => String "8" (put_uint d k)
  | D9 d => String "9" (put_uint d k)
  end.

Definition put_number (n : Z) (k : string) : string :=
  match Z.to_int n with
  | Pos u => put_uint u k
  | Neg u => String "-" (put_uint u k)
  end.

Section Sequences.

Variable put : value -> string -> string.

(** The elements of an array, separated by commas. *)
Fixpoint put_list (l : list value) (k : string) : string :=
  match l with
  | [] => k
  | v :: rest =>
      put v (match rest with
             | [] => k
             | _ :: _ => String "," (put_list rest k)
             end)
  end.

(** The properties of an object; a property whose value is [undefined] is
    left out. *)
Fixpoint put_members (ps : props) (first : bool) (k : string) : string :=
  match ps with
  | [] => k
  | (key, v) :: rest =>
      match v with
      | VUndefined => put_members rest first k
      | _ =>
          let text :=
            put_string key (String ":" (put v (put_members rest false k)))
          in if first then text else String "," text
      end
  end.

End Sequences.

(** The text of a value inside an array or an object; [undefined] as an
    array element is written [null]. *)
Fixpoint put (v : value) (k : string) : string :=
  match v with
  | VUndefined => "null" +:+ k
  | VNull => "null" +:+ k
  | VBool true => "true" +:+ k
  | VBool false => "false" +:+ k
  | VNum n => put_number n k
  | VStr s => put_string s k
  | VArr l => String "[" (put_list put l (String "]" k))
  | VObj ps => String "{" (put_members put ps true (String "}" k))
  end.

(** [JSON.stringify(v)]: [undefined] for [undefined], a string otherwise. *)
Definition stringify (v : value) : option string :=
  match v with
  | VUndefined => None
  | _ => Some (put v "")
  end.

Definition is_ws (c : ascii) : bool :=
  let n := nat_of_ascii c in
  Nat.eqb n 32 || Nat.eqb n 9 || Nat.eqb n 10 || Nat.eqb n 13.

Fixpoint skip_ws (s : string) : string :=
  match s with
  | EmptyString => EmptyString
  | String c rest => if is_ws c then skip_ws rest else s
  end.

Definition hex_val (c : ascii) : option nat :=
  let n := nat_of_ascii c in
  if Nat.leb 48 n && Nat.leb n 57 then Some (n - 48)%nat
  else if Nat.leb 97 n && Nat.leb n 102 then Some (n - 87)%nat
  else if Nat.leb 65 n && Nat.leb n 70 then Some (n - 55)%nat
  else None.

Definition hex4 (a b c d : ascii) : option nat :=
  match hex_val a, hex_val b, hex_val c, hex_val d with
  | Some x, Some y, Some z, Some w =>
      Some (((x * 16 + y) * 16 + z) * 16 + w)%nat
  | _, _, _, _ => None
  end.

(** The character written by a one-letter escape. *)
Definition unescape (e : ascii) : option ascii :=
  if Ascii.eqb e dquote then Some dquote
  else if Ascii.eqb e bslash then Some bslash
  else if Ascii.eqb e "/" then Some "/"%char
  else if Ascii.eqb e "b" then Some (ascii_of_nat 8)
  else if Ascii.eqb e "t" then Some (ascii_of_nat 9)
  else if Ascii.eqb e "n" then Some (ascii_of_nat 10)
  else if Ascii.eqb e "f" then Some (ascii_of_nat 12)
  else if Ascii.eqb e "r" then Some (ascii_of_nat 13)
  else None.

Definition prepend (c : ascii) (r : option (string * string))
  : option (string * string) :=
  match r with
  | Some (s, rest) => Some (String c s, rest)
  | None => None
  end.

(** A string literal after its opening quote: the string and the text
    after the closing quote. A raw control character, an unknown escape and
    an escape of a code unit above 255 (outside the model of strings) are
    errors. *)
Fixpoint parse_string_body (s : string) : option (string * string) :=
  match s with
  | EmptyString => None
  | String c r =>
      if Ascii.eqb c dquote then Some (EmptyString, r)
      else if Ascii.eqb c bslash then
        match r with
        | EmptyString => None
        | String e r1 =>
            if Ascii.eqb e "u" then
              match r1 with
              | String h1 (String h2 (String h3 (String h4 r2))) =>
                  match hex4 h1 h2 h3 h4 with
                  | Some n =>
                      if Nat.ltb n 256
                      then prepend (ascii_of_nat n) (parse_string_body r2)
                      else None
                  | None => None
                  end
              | _ => None
              end
            else
              match unescape e with
              | Some c' => prepend c' (parse_string_body r1)
              | None => None
              end
        end
      else if Nat.ltb (nat_of_ascii c) 32 then None
      else prepend c (parse_string_body r)
  end.

Definition to_digit (c : ascii) : option (Decimal.uint -> Decimal.uint) :=
  match nat_of_ascii c with
  | 48 => Some D0 | 49 => Some D1 | 50 => Some D2 | 51 => Some D3
  | 52 => Some D4 | 53 => Some D5 | 54 => Some D6 | 55 => Some D7
  | 56 => Some D8 | 57 => Some D9
  | _ => None
  end%nat.

(** The longest run of digits and the text after it. *)
Fixpoint parse_digits (s : string) : Decimal.uint * string :=
  match s with
  | EmptyString => (Nil, EmptyString)
  | String c r =>
      match to_digit c with
      | Some d => let (u, rest) := parse_digits r in (d u, rest)
      | None => (Nil, s)
      end
  end.

(** The text goes on with a fraction or an exponent. *)
Definition fractional (s : string) : bool :=
  match s with
  | EmptyString => false
  | String c _ => Ascii.eqb c "." || Ascii.eqb c "e" || Ascii.eqb c "E"
  end.

(** A number: an optional minus sign and digits without a leading zero.
    Numbers with a fraction or an exponent are outside the integer model
    and are rejected. *)
Definition parse_number (s : string) : option (value * string) :=
  let (negative, digits) :=
    match s with
    | EmptyString => (false, s)
    | String c r => if Ascii.eqb c "-" then (true, r) else (false, s)
    end in
  let (u, rest) := parse_digits digits in
  match u with
  | Nil => None
  | D0 (D0 _ | D1 _ | D2 _ | D3 _ | D4 _ | D5 _ | D6 _ | D7 _ | D8 _ | D9 _)
      => None
  | _ =>
      if fractional rest then None
      else Some (VNum (Z.of_int (if negative then Neg u else Pos u)), rest)
  end.

(** [s] without the prefix [p], when it starts with it. *)
Fixpoint after (p s : string) : option string :=
  match p with
  | EmptyString => Some s
  | String c p' =>
      match s with
      | EmptyString => None
      | String d s' => if Ascii.eqb c d then after p' s' else None
      end
  end.

(** The object with the parsed properties: a repeated name keeps its first
    place and takes its last value. *)
Definition object_of (ps : props) : value :=
  VObj (fold_left (fun acc kv => set_prop (fst kv) (snd kv) acc) ps []).

(** The parser. [fuel] bounds the nesting of calls; [parse] gives it the
    length of the text, which the text of a value does not exhaust. *)
Fixpoint parse_value (fuel : nat) (s : string) : option (value * string) :=
  match fuel with
  | O => None
  | S n =>
      match skip_ws s with
      | EmptyString => None
      | String c r =>
          if Ascii.eqb c "[" then
            match skip_ws r with
            | EmptyString => None
            | String c' r' =>
                if Ascii.eqb c' "]" then Some (VArr [], r')
                else
                  match parse_elements n r with
                  | Some (l, rest) => Some (VArr l, rest)
                  | None => None
                  end
            end
          else if Ascii.eqb c "{" then
            match skip_ws r with
            | EmptyString => None
            | String c' r' =>
                if Ascii.eqb c' "}" then Some (VObj [], r')
                else
                  match parse_members n r with
                  | Some (ps, rest) => Some (object_of ps, rest)
                  | None => None
                  end
            end
          else if Ascii.eqb c dquote then
            match parse_string_body r with
            | Some (str, rest) => Some (VStr str, rest)
            | None => None
            end
          else if Ascii.eqb c "t" then
            match after "rue" r with
            | Some rest => Some (VBool true, rest)
            | None => None
            end
          else if Ascii.eqb c "f" then
            match after "alse" r with
            | Some rest => Some (VBool false, rest)
            | None => None
            end
          else if Ascii.eqb c "n" then
            match after "ull" r with
            | Some rest => Some (VNull, rest)
            | None => None
            end
          else parse_number (String c r)
      end
  end
with parse_elements (fuel : nat) (s : string)
  : option (list value * string) :=
  match fuel with
  | O => None
  | S n =>
      match parse_value n s with
      | Some (v, rest) =>
          match skip_ws rest with
          | EmptyString => None
          | String c r =>
              if Ascii.eqb c "," then
                match parse_elements n r with
                | Some (vs, rest') => Some (v :: vs, rest')
                | None => None
                end
              else if Ascii.eqb c "]" then Some ([v], r)
              else None
          end
      | None => None
      end
  end
with parse_members (fuel : nat) (s : string) : option (props * string) :=
  match fuel with
  | O => None
  | S n =>
      match skip_ws s with
      | EmptyString => None
      | String q r =>
          if Ascii.eqb q dquote then
            match parse_string_body r with
            | Some (key, rest) =>
                match skip_ws rest with
                | EmptyString => None
                | String c r1 =>
                    if Ascii.eqb c ":" then
                      match parse_value n r1 with
                      | Some (v, rest1) =>
                          match skip_ws rest1 with
                          | EmptyString => None
                          | String c' r2 =>
                              if Ascii.eqb c' "," then
                                match parse_members n r2 with
                                | Some (ps, rest2) =>
                                    Some ((key, v) :: ps, rest2)
                                | None => None
                                end
                              else if Ascii.eqb c' "}"
                              then Some ([(key, v)], r2)
                              else None
                          end
                      | None => None
                      end
                    else None
                end
            | None => None
            end
          else None
      end
  end.

(** [JSON.parse(text)]: the value of a text that is one JSON value and
    nothing else, [None] for the [SyntaxError] of any other text. *)
Definition parse (text : string) : option value :=
  match parse_value (S (String.length text)) text with
  | Some (v, rest) =>
      match skip_ws rest with
      | EmptyString => Some v
      | String _ _ => None
      end
  | None => None
  end.

(** The text after a number: not a digit, a fraction or an exponent. *)
Definition delimited (k : string) : bool :=
  match k with
  | EmptyString => true
  | String c _ =>
      match to_digit c with
      | Some _ => false
      | None => negb (fractional k)
      end
  end.

(** The digits start with a digit from 1 to 9. *)
Definition leading (u : Decimal.uint) : bool :=
  match u with
  | Nil | D0 _ => false
  | _ => true
  end.

End JSON.

(** ** The component: src/components/workFlow.jsx *)

Module workFlow.

(** A promise once its timer has fired: resolved, rejected, or left
    unsettled by an exception in the timer's callback. *)
Inductive promise : Type :=
| Resolved (response : value)
| Rejected (reason : value)
| Unsettled.

(** [localStorage]: a map from keys to strings. *)
Definition setItem (key text : string) (ls : gmap string string)
  : gmap string string := <[key := text]> ls.

Definition getItem (key : string) (ls : gmap string string) : value :=
  match ls !! key with
  | Some text => VStr text
  | None => VNull
  end.

(** [JSON.parse(v)] of a value read from the storage. *)
Definition parse_item (v : value) : option value :=
  match v with
  | VStr text => JSON.parse text
  | _ => None
  end.

Module apiService.

(** [localStorage.setItem('savedWorkflow', JSON.stringify(data))], then
    [resolve]. *)
Definition saveWorkflow (data : value) (ls : gmap string string)
  : gmap string string * promise :=
  (setItem "savedWorkflow" (default "undefined" (JSON.stringify data)) ls,
   Resolved (VObj [("success", VBool true);
                   ("message", VStr "Workflow saved successfully")])).

Definition loadWorkflow (ls : gmap string string) : promise :=
  let savedData := getItem "savedWorkflow" ls in
  if truthy savedData then
    match parse_item savedData with
    | Some data => Resolved (VObj [("success", VBool true); ("data", data)])
    | None => Unsettled
    end
  else Rejected (VObj [("success", VBool false);
                       ("message", VStr "No saved workflow found")]).

End apiService.

(** What the component holds: the store's slice and its own two pieces of
    state. The timers that clear the status message later are left out. *)
Record view : Type := View {
  flow : state;
  isLoading : bool;
  statusMessage : value
}.

(** The [loadWorkflow] handler, up to the end of its [finally] block. A
    rejection and an exception in the [try] block both end in the [catch]
    block. *)
Definition loadWorkflow (ls : gmap string string) (c : view) : view :=
  let caught := {| flow := flow c; isLoading := false;
                   statusMessage := VStr "No saved workflow found." |} in
  match apiService.loadWorkflow ls with
  | Resolved response =>
      match get_prop response "success", get_prop response "data" with
      | Some ok, Some data =>
          if truthy ok && truthy data then
            match get_prop data "nodes", get_prop data "edges" with
            | Some ns, Some es =>
                {| flow := loaded (flow c) ns es;
                   isLoading := false;
                   statusMessage := VStr "Workflow loaded successfully." |}
            | _, _ => caught
            end
          else {| flow := flow c; isLoading := false;
                  statusMessage := VStr "Loading workflow..." |}
      | _, _ => caught
      end
  | Rejected _ => caught
  | Unsettled => {| flow := flow c; isLoading := true;
                    statusMessage := VStr "Loading workflow..." |}
  end.

End workFlow.

(** ** The component's event handlers: src/components/workFlow.jsx *)

Module Handlers.

(** Some entry of the sequence is [null] or [undefined]. *)
Definition has_nullish (l : list value) : Prop :=
  exists v, In v l /\ nullish v = true.

(** [dispatch(setSelectedNode(node))] *)
Definition onNodeClick (n : value) (st : state) : state :=
  setSelectedNode st n.

(** [if (!selectedNode) return;
     dispatch(updateNodeLabel({ nodeId: selectedNode.id, newLabel }))].
    [None] is the reducer's exception, which leaves the store as it is. *)
Definition handleUpdateNodeLabel (newLabel : value) (st : state)
  : option state :=
  if truthy (selectedNode st) then
    match get_prop (selectedNode st) "id" with
    | Some i => updateNodeLabel st (label_payload i newLabel)
    | None => None
    end
  else Some st.

(** [if (!selectedNode) return; dispatch(deleteNode(selectedNode.id))] *)
Definition deleteSelectedNode (st : state) : option state :=
  if truthy (selectedNode st) then
    match get_prop (selectedNode st) "id" with
    | Some i => deleteNode st i
    | None => None
    end
  else Some st.

(** The text of an integer in a template literal, as in [`${Date.now()}`]. *)
Definition number_text (n : Z) : string := JSON.put_number n "".

(** The [newNode] literal of [onDrop] and [onTouchEnd]. *)
Definition newNode (now : Z) (nodeType nodeLabel : string) (position : value)
  : value :=
  VObj [("id", VStr (number_text now)); ("type", VStr nodeType);
        ("position", position);
        ("data", VObj [("label", VStr nodeLabel)])].

(** [onDrop] (and [onTouchEnd], which has the same body): [ready] is
    whether [reactFlowInstance] is set, [nodeType] and [nodeLabel] are the
    strings read from the event, [position] is what
    [reactFlowInstance.project] returns and [now] is [Date.now()]. *)
Definition onDrop (ready : bool) (nodeType nodeLabel : string)
    (position : value) (now : Z) (st : state) : state :=
  if negb ready then st
  else if negb (truthy (VStr nodeType)) || negb (truthy (VStr nodeLabel))
  then st
  else addNode st (newNode now nodeType nodeLabel position).

(** [sidebarNodeTypes]: the type, the title and the items of each
    category. *)
Definition sidebarNodeTypes : list (string * string * list string) :=
  [ ("payment", "Payment Amount",
     ["Payment of $300"; "Payment of $400"; "Payment of $500"]);
    ("location", "Transaction Location", ["America"; "Europe"; "UK"]);
    ("gateway", "Payment Gateway", ["Google Pay"; "RazorPay"; "PayPal"]) ].

(** [event.dataTransfer]: [setData] and [getData], which gives the empty
    string for a format that holds no data. *)
Definition setData (format data : string) (dt : gmap string string)
  : gmap string string := <[format := data]> dt.

Definition getData (format : string) (dt : gmap string string) : string :=
  default "" (dt !! format).

(** [onDragStart]: the two [setData] calls. *)
Definition onDragStart (nodeType nodeLabel : string)
    (dt : gmap string string) : gmap string string :=
  setData "nodeLabel" nodeLabel (setData "nodeType" nodeType dt).

(** [onDrop] on the event's [dataTransfer]. *)
Definition onDropEvent (dt : gmap string string) (ready : bool)
    (position : value) (now : Z) (st : state) : state :=
  onDrop ready (getData "nodeType" dt) (getData "nodeLabel" dt)
    position now st.

(** An action whose payload has the shape the reducers read: sequences
    without [null] or [undefined] entries, a node or a label payload that is
    not [null] or [undefined]. *)
Definition well_formed (a : action) : bool :=
  match a with
  | SetNodes p | SetEdges p => forallb (fun v => negb (nullish v)) (stored p)
  | AddNode p | UpdateNodeLabel p => negb (nullish p)
  | SetSelectedNode _ | DeleteNode _ => true
  end.

(** No entry of the store's sequences is [null] or [undefined]. *)
Definition clean (st : state) : bool :=
  forallb (fun v => negb (nullish v)) (nodes st) &&
  forallb (fun v => negb (nullish v)) (edges st).

End Handlers.

(** ** The sidebars of the responsive component: src/unnamed/part_001 *)

Module Responsive.

Record layout : Type := Layout {
  windowWidth : Z;
  leftSidebarOpen : bool;
  rightSidebarOpen : bool;
  isMobile : bool
}.

(** [handleResize] with the values of [leftSidebarOpen] and
    [rightSidebarOpen] that its closure holds. *)
Definition handleResize_closure (capturedLeft capturedRight : bool)
    (innerWidth : Z) (s : layout) : layout :=
  let s1 := {| windowWidth := innerWidth;
               leftSidebarOpen := leftSidebarOpen s;
               rightSidebarOpen := rightSidebarOpen s;
               isMobile := innerWidth <? 768 |} in
  if innerWidth <? 768 then
    {| windowWidth := windowWidth s1; leftSidebarOpen := false;
       rightSidebarOpen := false; isMobile := isMobile s1 |}
  else if innerWidth <? 1024 then
    if capturedLeft && capturedRight then
      {| windowWidth := windowWidth s1; leftSidebarOpen := leftSidebarOpen s1;
         rightSidebarOpen := false; isMobile := isMobile s1 |}
    else s1
  else
    {| windowWidth := windowWidth s1; leftSidebarOpen := true;
       rightSidebarOpen := true; isMobile := isMobile s1 |}.

(** The effect that defines [handleResize] has no dependencies: it runs
    once, after the first render, so the closure holds the initial values
    of the two states, [true] and [true]. *)
Definition handleResize : Z -> layout -> layout :=
  handleResize_closure true true.

Definition toggleLeftSidebar (s : layout) : layout :=
  {| windowWidth := windowWidth s;
     leftSidebarOpen := negb (leftSidebarOpen s);
     rightSidebarOpen :=
       if negb (leftSidebarOpen s) && (windowWidth s <? 1024) then false
       else rightSidebarOpen s;
     isMobile := isMobile s |}.

Definition toggleRightSidebar (s : layout) : layout :=
  {| windowWidth := windowWidth s;
     leftSidebarOpen :=
       if negb (rightSidebarOpen s) && (windowWidth s <? 1024) then false
       else leftSidebarOpen s;
     rightSidebarOpen := negb (rightSidebarOpen s);
     isMobile := isMobile s |}.

(** The effect on [selectedNode] and [isMobile]: on a phone a selected
    node opens the right sidebar and closes the left one. *)
Definition onSelection (selectedNode : value) (s : layout) : layout :=
  if truthy selectedNode && isMobile s then
    {| windowWidth := windowWidth s; leftSidebarOpen := false;
       rightSidebarOpen := true; isMobile := isMobile s |}
  else s.

(** The end of [onDrop], once a node has been added:
    [if (isMobile) setLeftSidebarOpen(false)]. *)
Definition afterDrop (s : layout) : layout :=
  if isMobile s then
    {| windowWidth := windowWidth s; leftSidebarOpen := false;
       rightSidebarOpen := rightSidebarOpen s; isMobile := isMobile s |}
  else s.

(** The end of [deleteSelectedNode], once the node has been deleted:
    [if (isMobile) setRightSidebarOpen(false)]. *)
Definition afterDelete (s : layout) : layout :=
  if isMobile s then
    {| windowWidth := windowWidth s; leftSidebarOpen := leftSidebarOpen s;
       rightSidebarOpen := false; isMobile := isMobile s |}
  else s.

(** The first render, with [window.innerWidth], followed by the initial
    call of [handleResize]. *)
Definition mounted (innerWidth : Z) : layout :=
  handleResize innerWidth
    {| windowWidth := innerWidth; leftSidebarOpen := true;
       rightSidebarOpen := true; isMobile := false |}.

Inductive event : Type :=
| Resize (innerWidth : Z)
| ToggleLeft
| ToggleRight
| Selection (selectedNode : value)
| Dropped
| Deleted.

Definition handle (e : event) (s : layout) : layout :=
  match e with
  | Resize w => handleResize w s
  | ToggleLeft => toggleLeftSidebar s
  | ToggleRight => toggleRightSidebar s
  | Selection v => onSelection v s
  | Dropped => afterDrop s
  | Deleted => afterDelete s
  end.

(** The layout after a sequence of events, the first one first. *)
Definition run (es : list event) (s : layout) : layout :=
  fold_left (fun acc e => handle e acc) es s.

(** On a window narrower than 1024 the two sidebars are not both open, and
    [isMobile] says whether the window is narrower than 768. *)
Definition fits_window (s : layout) : bool :=
  Bool.eqb (isMobile s) (windowWidth s <? 768) &&
  ((1024 <=? windowWidth s) ||
   negb (leftSidebarOpen s && rightSidebarOpen s)).

End Responsive.

(** * Persistence at full width

    What a saved workflow holds depends on the text that [JSON.stringify]
    writes for a number and for a string, so the persistence path is also
    modelled on JavaScript values as the engine has them: numbers are
    IEEE 754 doubles, strings are sequences of UTF-16 code units, and the
    properties of an object are enumerated with the integer-like names
    first. *)

(** ** Strings: sequences of UTF-16 code units *)

Module Unicode.

(** A code unit, as its high and its low byte. *)
Definition code : Type := (ascii * ascii)%type.

Definition jstring : Type := list code.

(** The code unit of a character below 256. *)
Definition ch (c : ascii) : code := (Ascii.zero, c).

(** The string of a literal of the source. *)
Definition text (s : string) : jstring := List.map ch (list_ascii_of_string s).

Definition is_ch (u : code) (c : ascii) : bool :=
  Ascii.eqb (fst u) Ascii.zero && Ascii.eqb (snd u) c.

Definition code_eqb (a b : code) : bool :=
  Ascii.eqb (fst a) (fst b) && Ascii.eqb (snd a) (snd b).

Fixpoint jstring_eqb (a b : jstring) : bool :=
  match a, b with
  | [], [] => true
  | x :: a', y :: b' => code_eqb x y && jstring_eqb a' b'
  | _, _ => false
  end.

(** The surrogates: D800 to DBFF lead a pair, DC00 to DFFF end one. *)
Definition is_high (u : code) : bool :=
  let h := nat_of_ascii (fst u) in Nat.leb 216 h && Nat.leb h 219.

Definition is_low (u : code) : bool :=
  let h := nat_of_ascii (fst u) in Nat.leb 220 h && Nat.leb h 223.

(** The decimal digit a code unit stands for. *)
Definition to_digit (u : code) : option Z :=
  let n := Z.of_nat (nat_of_ascii (snd u)) in
  if Ascii.eqb (fst u) Ascii.zero && (48 <=? n) && (n <=? 57)
  then Some (n - 48) else None.

Definition digit_char (d : Z) : code := ch (ascii_of_nat (Z.to_nat (48 + d))).

(** The longest run of digits and the text after it. *)
Fixpoint read_digits (s : jstring) : list Z * jstring :=
  match s with
  | [] => ([], [])
  | c :: r =>
      match to_digit c with
      | Some d => let (ds, rest) := read_digits r in (d :: ds, rest)
      | None => ([], s)
      end
  end.

(** The number that a sequence of decimal digits writes. *)
Definition value_of (ds : list Z) : Z :=
  fold_left (fun a d => 10 * a + d) ds 0.

Fixpoint digits_acc (fuel : nat) (n : Z) (acc : list Z) : list Z :=
  match fuel with
  | O => acc
  | S fuel' =>
      let acc' := n mod 10 :: acc in
      if n / 10 =? 0 then acc' else digits_acc fuel' (n / 10) acc'
  end.

(** The decimal digits of a natural number, without leading zeros. *)
Definition digits (n : Z) : list Z :=
  digits_acc (S (Z.to_nat (Z.log2 n))) n [].

Definition put_digits (ds : list Z) (k : jstring) : jstring :=
  List.map digit_char ds ++ k.

End Unicode.

(** ** Numbers: IEEE 754 doubles *)

Module Number.

Import Unicode.

(** A double: not a number, an infinity, a zero with its sign, or
    [m * 2^e] with its sign. The doubles proper have [m] and [e]
    [canonical]: 53 significant bits, or fewer at the least exponent. *)
Inductive number : Type :=
| NaN
| Infinity (negative : bool)
| Zero (negative : bool)
| Finite (negative : bool) (m : positive) (e : Z).

Definition canonical (m : positive) (e : Z) : bool :=
  ((2^52 <=? Zpos m) && (Zpos m <? 2^53) && (-1074 <=? e) && (e <=? 971))
  || ((Zpos m <? 2^52) && (e =? -1074)).

Definition is_double (x : number) : bool :=
  match x with
  | Finite _ m e => canonical m e
  | _ => true
  end.

Definition is_finite (x : number) : bool :=
  match x with
  | Zero _ | Finite _ _ _ => true
  | NaN | Infinity _ => false
  end.

(** Identity of two numbers. *)
Definition same (x y : number) : bool :=
  match x, y with
  | NaN, NaN => true
  | Infinity a, Infinity b => Bool.eqb a b
  | Zero a, Zero b => Bool.eqb a b
  | Finite a m e, Finite b m' e' =>
      Bool.eqb a b && Pos.eqb m m' && Z.eqb e e'
  | _, _ => false
  end.

(** [x === y] on numbers: [NaN] differs from itself, the two zeros are
    equal. *)
Definition equal (x y : number) : bool :=
  match x, y with
  | NaN, _ | _, NaN => false
  | Zero _, Zero _ => true
  | _, _ => same x y
  end.

(** [n / d] with both scaled so that their quotient is [n / (d * 2^e)]. *)
Definition scale (n d e : Z) : Z * Z :=
  (n * 2 ^ Z.max (- e) 0, d * 2 ^ Z.max e 0).

(** The integer nearest to [a / b], the even one of two equally near. *)
Definition nearest_even (a b : Z) : Z :=
  let q := a / b in
  let r := a mod b in
  if 2 * r <? b then q
  else if b <? 2 * r then q + 1
  else if Z.even q then q else q + 1.

(** The double nearest to the positive rational [n / d] (round to nearest,
    ties to even), with the given sign. *)
Definition round_ratio (negative : bool) (n d : Z) : number :=
  let e1 := Z.max (-1074) (Z.log2 n - Z.log2 d - 53) in
  let (a1, b1) := scale n d e1 in
  let e := if a1 / b1 <? 2^53 then e1 else e1 + 1 in
  let (a, b) := scale n d e in
  let m := nearest_even a b in
  if m =? 0 then Zero negative
  else
    let (m', e') := if m =? 2^53 then (2^52, e + 1) else (m, e) in
    if 971 <? e' then Infinity negative
    else Finite negative (Z.to_pos m') e'.

(** The Number value of the decimal [s * 10^p], [s] a natural number.
    With [n] the number of digits of [s], the decimal is at least
    [10^(p + n - 1)] and below [10^(p + n)]: from [10^309] on it is beyond
    every double, and below [10^-324] it is nearer to zero than to any
    other double. *)
Definition round_decimal (negative : bool) (s p : Z) : number :=
  if s =? 0 then Zero negative
  else
    let top := p + Z.of_nat (length (digits s)) in
    if 310 <=? top then Infinity negative
    else if top <=? -324 then Zero negative
    else round_ratio negative (s * 10 ^ Z.max p 0) (10 ^ Z.max (- p) 0).

(** The double of an integer. *)
Definition of_Z (z : Z) : number := round_decimal (z <? 0) (Z.abs z) 0.

(** [m * 2^e / 10^p] as a ratio of two positive integers. *)
Definition ratio (m : positive) (e p : Z) : Z * Z :=
  (Zpos m * 2 ^ Z.max e 0 * 10 ^ Z.max (- p) 0,
   2 ^ Z.max (- e) 0 * 10 ^ Z.max p 0).

(** [m * 2^e < 10^j]. *)
Definition below (m : positive) (e j : Z) : bool :=
  let (a, b) := ratio m e j in a <? b.

(** The least [n] from [j] on with [m * 2^e < 10^n]. *)
Fixpoint magnitude (fuel : nat) (m : positive) (e j : Z) : Z :=
  match fuel with
  | O => j
  | S fuel' => if below m e j then j else magnitude fuel' m e (j + 1)
  end.

(** The decimal [s * 10^p] has [m * 2^e] for its Number value. *)
Definition reads_as (m : positive) (e : Z) (s p : Z) : bool :=
  (0 <? s) && same (round_decimal false s p) (Finite false m e).

(** A decimal of [k] digits whose Number value is [m * 2^e], the nearest
    one if there are two and the even one if they are equally near. *)
Definition candidate (m : positive) (e : Z) (n k : Z) : option (Z * Z) :=
  let p := n - k in
  let (a, b) := ratio m e p in
  let lo := a / b in
  let hi := lo + 1 in
  let r := a mod b in
  let lo_ok := reads_as m e lo p in
  let hi_ok := reads_as m e hi p in
  if lo_ok && hi_ok then
    if 2 * r <? b then Some (lo, p)
    else if b <? 2 * r then Some (hi, p)
    else if Z.even lo then Some (lo, p) else Some (hi, p)
  else if lo_ok then Some (lo, p)
  else if hi_ok then Some (hi, p)
  else None.

(** The first number of digits, from [k] on, that has a candidate. *)
Fixpoint shortest (fuel : nat) (m : positive) (e : Z) (n k : Z)
  : option (Z * Z) :=
  match fuel with
  | O => None
  | S fuel' =>
      match candidate m e n k with
      | Some c => Some c
      | None => shortest fuel' m e n (k + 1)
      end
  end.

(** [m * 2^e] written out in full. *)
Definition expansion (m : positive) (e : Z) : Z * Z :=
  if 0 <=? e then (Zpos m * 2 ^ e, 0) else (Zpos m * 5 ^ (- e), e).

(** A candidate of one digit that was rounded up to ten is the digit 1 one
    place higher. *)
Definition reduced (c : Z * Z) : Z * Z :=
  let (s, p) := c in if s =? 10 then (1, p + 1) else c.

(** The digits [s] and the exponent [p] that [Number::toString] chooses
    for [m * 2^e]: a decimal [s * 10^p] whose Number value is [m * 2^e],
    with as few digits as possible. Seventeen digits are enough for every
    double; the expansion in full, which always reads back, closes the
    search. *)
Definition decimal (m : positive) (e : Z) : Z * Z :=
  let estimate := (Z.log2 (Zpos m) + e) * 30103 / 100000 in
  let n := magnitude 8 m e (estimate - 1) in
  match shortest 17 m e n 1 with
  | Some c =>
      let c' := reduced c in
      if reads_as m e (fst c') (snd c') then c' else expansion m e
  | None => expansion m e
  end.

Definition zeros (n : Z) : list Z := repeat 0 (Z.to_nat n).

(** The text of the exponent part: [e+21], [e-7]. *)
Definition put_exponent (x : Z) (k : jstring) : jstring :=
  ch "e" :: (if x <? 0 then ch "-" else ch "+")
    :: put_digits (digits (Z.abs x)) k.

(** The text of [s * 10^p], as [Number::toString] lays it out: digits with
    the point in its place while the number is below 10^21 and at least
    10^-6, otherwise one digit before the point and an exponent. *)
Definition put_decimal (s p : Z) (k : jstring) : jstring :=
  let ds := digits s in
  let len := Z.of_nat (length ds) in
  let n := p + len in
  if (len <=? n) && (n <=? 21) then
    put_digits ds (put_digits (zeros (n - len)) k)
  else if (0 <? n) && (n <=? 21) then
    put_digits (firstn (Z.to_nat n) ds)
      (ch "." :: put_digits (skipn (Z.to_nat n) ds) k)
  else if (-6 <? n) && (n <=? 0) then
    ch "0" :: ch "." :: put_digits (zeros (- n)) (put_digits ds k)
  else
    match ds with
    | [] => k
    | [d] => digit_char d :: put_exponent (n - 1) k
    | d :: rest =>
        digit_char d :: ch "." :: put_digits rest (put_exponent (n - 1) k)
    end.

(** [Number::toString(x)], in front of [k]. *)
Definition toString (x : number) (k : jstring) : jstring :=
  match x with
  | NaN => text "NaN" ++ k
  | Infinity false => text "Infinity" ++ k
  | Infinity true => text "-Infinity" ++ k
  | Zero _ => ch "0" :: k
  | Finite negative m e =>
      let (s, p) := decimal m e in
      if negative then ch "-" :: put_decimal s p k else put_decimal s p k
  end.

(** The fraction of a JSON number: nothing, or a point and digits. *)
Definition read_fraction (s : jstring) : option (list Z * jstring) :=
  match s with
  | c :: r =>
      if is_ch c "." then
        match read_digits r with
        | ([], _) => None
        | (ds, rest) => Some (ds, rest)
        end
      else Some ([], s)
  | [] => Some ([], s)
  end.

(** The exponent of a JSON number: nothing, or [e] or [E], an optional
    sign and digits. *)
Definition read_exponent (s : jstring) : option (Z * jstring) :=
  match s with
  | c :: r =>
      if is_ch c "e" || is_ch c "E" then
        let (negative, r1) :=
          match r with
          | c' :: r' =>
              if is_ch c' "-" then (true, r')
              else if is_ch c' "+" then (false, r')
              else (false, r)
          | [] => (false, r)
          end in
        match read_digits r1 with
        | ([], _) => None
        | (ds, rest) =>
            Some (if negative then - value_of ds else value_of ds, rest)
        end
      else Some (0, s)
  | [] => Some (0, s)
  end.

(** A JSON number after its sign: digits without a leading zero, an
    optional fraction and an optional exponent; its value is the double
    nearest to the decimal written. *)
Definition number_body (negative : bool) (s1 : jstring)
  : option (number * jstring) :=
  let (int, s2) := read_digits s1 in
  match int with
  | [] => None
  | 0 :: _ :: _ => None
  | _ =>
      match read_fraction s2 with
      | Some (frac, s3) =>
          match read_exponent s3 with
          | Some (x, rest) =>
              Some (round_decimal negative (value_of (int ++ frac))
                      (x - Z.of_nat (length frac)), rest)
          | None => None
          end
      | None => None
      end
  end.

(** A JSON number and the text after it. *)
Definition parse_number (s : jstring) : option (number * jstring) :=
  match s with
  | c :: r => if is_ch c "-" then number_body true r else number_body false s
  | [] => None
  end.

(** The text after digits does not go on with a digit. *)
Definition stops (k : jstring) : bool :=
  match k with
  | [] => true
  | c :: _ => match to_digit c with Some _ => false | None => true end
  end.

(** The text after a number: not a digit, a fraction or an exponent. *)
Definition delimited (k : jstring) : bool :=
  match k with
  | [] => true
  | c :: _ =>
      stops k && negb (is_ch c "." || is_ch c "e" || is_ch c "E")
  end.

(** What a number is after [JSON.stringify] and [JSON.parse], when it is
    finite: itself, the negative zero as the positive one. *)
Definition settled (x : number) : number :=
  match x with
  | Zero _ => Zero false
  | _ => x
  end.

(** Decimal digits. *)
Definition numeral (ds : list Z) : Prop := Forall (fun d => 0 <= d <= 9) ds.

(** The integer part of a number is not empty and has no leading zero. *)
Definition headed (int : list Z) : Prop :=
  match int with
  | [] => False
  | 0 :: _ :: _ => False
  | _ => True
  end.

(** [x] with the given sign. *)
Definition with_sign (negative : bool) (x : number) : number :=
  match x with
  | NaN => NaN
  | Infinity _ => Infinity negative
  | Zero _ => Zero negative
  | Finite _ m e => Finite negative m e
  end.

End Number.


(** ** Values, JSON text and the component *)

Module Full.

Import Unicode Number.

Inductive value : Type :=
| VUndefined
| VNull
| VBool (b : bool)
| VNum (x : number)
| VStr (s : jstring)
| VArr (elems : list value)
| VObj (props : list (jstring * value)).

Definition props : Type := list (jstring * value).

Fixpoint lookup_prop (k : jstring) (ps : props) : option value :=
  match ps with
  | [] => None
  | (k', v) :: rest => if jstring_eqb k k' then Some v else lookup_prop k rest
  end.

(** [v.k] for the property names that the component reads ([success],
    [data], [message], [nodes], [edges]): a [TypeError] on [null] and
    [undefined], the own property of an object, and [undefined] on
    primitives and arrays, whose prototypes have no property of these
    names. *)
Definition get_prop (v : value) (k : jstring) : option value :=
  match v with
  | VUndefined | VNull => None
  | VObj ps => Some (default VUndefined (lookup_prop k ps))
  | _ => Some VUndefined
  end.

(** Truthiness: [NaN], both zeros and the empty string are falsy. *)
Definition truthy (v : value) : bool :=
  match v with
  | VUndefined | VNull => false
  | VBool b => b
  | VNum NaN | VNum (Zero _) => false
  | VNum _ => true
  | VStr [] => false
  | VStr _ => true
  | VArr _ | VObj _ => true
  end.

Definition isArray (v : value) : bool :=
  match v with
  | VArr _ => true
  | _ => false
  end.

(** The index that a property name stands for when it is an array index:
    the decimal text, without a leading zero, of an integer below
    [2^32 - 1]. *)
Definition array_index (k : jstring) : option Z :=
  match read_digits k with
  | (ds, []) =>
      match ds with
      | [] => None
      | 0 :: _ :: _ => None
      | _ => if value_of ds <? 2 ^ 32 - 1 then Some (value_of ds) else None
      end
  | _ => None
  end.

Fixpoint update_prop (k : jstring) (v : value) (ps : props) : props :=
  match ps with
  | [] => []
  | (k', v') :: rest =>
      if jstring_eqb k k' then (k, v) :: rest
      else (k', v') :: update_prop k v rest
  end.

Fixpoint insert_index (i : Z) (k : jstring) (v : value) (ps : props)
  : props :=
  match ps with
  | [] => [(k, v)]
  | (k', v') :: rest =>
      match array_index k' with
      | Some j =>
          if j <? i then (k', v') :: insert_index i k v rest
          else (k, v) :: ps
      | None => (k, v) :: ps
      end
  end.

(** [CreateDataProperty(O, k, v)] on the own properties in the order in
    which they are enumerated: an existing property keeps its place and
    takes the new value; a new array index goes among the array indices,
    which come first in ascending order; any other new name goes last. *)
Definition define_prop (k : jstring) (v : value) (ps : props) : props :=
  match lookup_prop k ps with
  | Some _ => update_prop k v ps
  | None =>
      match array_index k with
      | Some i => insert_index i k v ps
      | None => ps ++ [(k, v)]
      end
  end.

(** *** [JSON.stringify] and [JSON.parse] *)

Module JSON.

Definition dquote : ascii := "034"%char.
Definition bslash : ascii := "092"%char.

Definition hex_char (n : nat) : ascii :=
  nth n ["0"; "1"; "2"; "3"; "4"; "5"; "6"; "7"; "8"; "9";
         "a"; "b"; "c"; "d"; "e"; "f"]%char "0"%char.

(** The two hexadecimal digits of a byte. *)
Definition hex2 (b : ascii) : jstring :=
  let n := nat_of_ascii b in
  [ch (hex_char (Nat.div n 16)); ch (hex_char (Nat.modulo n 16))].

(** The escape [uXXXX] of a code unit. *)
Definition unicode_escape (u : code) : jstring :=
  ch bslash :: ch "u" :: hex2 (fst u) ++ hex2 (snd u).

(** The text of a code unit that is not a surrogate: the quote and the
    backslash are escaped, the control characters have their short escape
    or a [u00XX] escape, any other code unit stands for itself. *)
Definition escape (u : code) : jstring :=
  let n := nat_of_ascii (snd u) in
  if negb (Ascii.eqb (fst u) Ascii.zero) then [u]
  else if Ascii.eqb (snd u) dquote then [ch bslash; ch dquote]
  else if Ascii.eqb (snd u) bslash then [ch bslash; ch bslash]
  else if Nat.eqb n 8 then [ch bslash; ch "b"]
  else if Nat.eqb n 9 then [ch bslash; ch "t"]
  else if Nat.eqb n 10 then [ch bslash; ch "n"]
  else if Nat.eqb n 12 then [ch bslash; ch "f"]
  else if Nat.eqb n 13 then [ch bslash; ch "r"]
  else if Nat.ltb n 32 then unicode_escape u
  else [u].

(** [QuoteJSONString] without the quotes, in front of [k]: a leading
    surrogate followed by a trailing one is a pair and is written as it
    is, any other surrogate is written as its escape. *)
Fixpoint put_escaped (s : jstring) (k : jstring) : jstring :=
  match s with
  | [] => k
  | u :: rest =>
      if is_high u then
        match rest with
        | u' :: rest' =>
            if is_low u' then u :: u' :: put_escaped rest' k
            else unicode_escape u ++ put_escaped rest k
        | [] => unicode_escape u ++ k
        end
      else if is_low u then unicode_escape u ++ put_escaped rest k
      else escape u ++ put_escaped rest k
  end.

Definition put_string (s : jstring) (k : jstring) : jstring :=
  ch dquote :: put_escaped s (ch dquote :: k).

(** A finite number is written by [Number::toString], any other as
    [null]. *)
Definition put_number (x : number) (k : jstring) : jstring :=
  if is_finite x then toString x k else text "null" ++ k.

Section Sequences.

Variable put : value -> jstring -> jstring.

(** The elements of an array, separated by commas. *)
Fixpoint put_list (l : list value) (k : jstring) : jstring :=
  match l with
  | [] => k
  | v :: rest =>
      put v (match rest with
             | [] => k
             | _ :: _ => ch "," :: put_list rest k
             end)
  end.

(** The properties of an object; a property whose value is [undefined] is
    left out. *)
Fixpoint put_members (ps : props) (first : bool) (k : jstring) : jstring :=
  match ps with
  | [] => k
  | (key, v) :: rest =>
      match v with
      | VUndefined => put_members rest first k
      | _ =>
          let member :=
            put_string key (ch ":" :: put v (put_members rest false k))
          in if first then member else ch "," :: member
      end
  end.

End Sequences.

(** The text of a value inside an array or an object; [undefined] as an
    array element is written [null]. *)
Fixpoint put (v : value) (k : jstring) : jstring :=
  match v with
  | VUndefined => text "null" ++ k
  | VNull => text "null" ++ k
  | VBool true => text "true" ++ k
  | VBool false => text "false" ++ k
  | VNum x => put_number x k
  | VStr s => put_string s k
  | VArr l => ch "[" :: put_list put l (ch "]" :: k)
  | VObj ps => ch "{" :: put_members put ps true (ch "}" :: k)
  end.

(** [JSON.stringify(v)]: [undefined] for [undefined], a string otherwise. *)
Definition stringify (v : value) : option jstring :=
  match v with
  | VUndefined => None
  | _ => Some (put v [])
  end.

Definition is_ws (c : code) : bool :=
  is_ch c " " || is_ch c "009" || is_ch c "010" || is_ch c "013".

Fixpoint skip_ws (s : jstring) : jstring :=
  match s with
  | [] => []
  | c :: rest => if is_ws c then skip_ws rest else s
  end.

Definition hex_val (c : code) : option nat :=
  let n := nat_of_ascii (snd c) in
  if negb (Ascii.eqb (fst c) Ascii.zero) then None
  else if Nat.leb 48 n && Nat.leb n 57 then Some (n - 48)%nat
  else if Nat.leb 97 n && Nat.leb n 102 then Some (n - 87)%nat
  else if Nat.leb 65 n && Nat.leb n 70 then Some (n - 55)%nat
  else None.

(** The byte written by two hexadecimal digits. *)
Definition hex_byte (a b : code) : option ascii :=
  match hex_val a, hex_val b with
  | Some x, Some y => Some (ascii_of_nat (x * 16 + y))
  | _, _ => None
  end.

(** The code unit written by a one-letter escape. *)
Definition unescape (e : code) : option code :=
  if is_ch e dquote then Some (ch dquote)
  else if is_ch e bslash then Some (ch bslash)
  else if is_ch e "/" then Some (ch "/")
  else if is_ch e "b" then Some (ch "008")
  else if is_ch e "t" then Some (ch "009")
  else if is_ch e "n" then Some (ch "010")
  else if is_ch e "f" then Some (ch "012")
  else if is_ch e "r" then Some (ch "013")
  else None.

Definition prepend (c : code) (r : option (jstring * jstring))
  : option (jstring * jstring) :=
  match r with
  | Some (s, rest) => Some (c :: s, rest)
  | None => None
  end.

Definition is_control (c : code) : bool :=
  Ascii.eqb (fst c) Ascii.zero && Nat.ltb (nat_of_ascii (snd c)) 32.

(** A string literal after its opening quote: the string and the text
    after the closing quote. A raw control character and an unknown escape
    are errors. *)
Fixpoint parse_string_body (s : jstring) : option (jstring * jstring) :=
  match s with
  | [] => None
  | c :: r =>
      if is_ch c dquote then Some ([], r)
      else if is_ch c bslash then
        match r with
        | [] => None
        | e :: r1 =>
            if is_ch e "u" then
              match r1 with
              | h1 :: h2 :: h3 :: h4 :: r2 =>
                  match hex_byte h1 h2, hex_byte h3 h4 with
                  | Some hi, Some lo =>
                      prepend (hi, lo) (parse_string_body r2)
                  | _, _ => None
                  end
              | _ => None
              end
            else
              match unescape e with
              | Some c' => prepend c' (parse_string_body r1)
              | None => None
              end
        end
      else if is_control c then None
      else prepend c (parse_string_body r)
  end.

(** [s] without the prefix [p], when it starts with it. *)
Fixpoint after (p s : jstring) : option jstring :=
  match p with
  | [] => Some s
  | c :: p' =>
      match s with
      | [] => None
      | d :: s' => if code_eqb c d then after p' s' else None
      end
  end.

(** The object with the parsed properties, defined one after the other. *)
Definition object_of (ps : props) : value :=
  VObj (fold_left (fun acc kv => define_prop (fst kv) (snd kv) acc) ps []).

(** The parser. [fuel] bounds the nesting of calls; [parse] gives it the
    length of the text, which the text of a value does not exhaust. *)
Fixpoint parse_value (fuel : nat) (s : jstring) : option (value * jstring) :=
  match fuel with
  | O => None
  | S n =>
      match skip_ws s with
      | [] => None
      | c :: r =>
          if is_ch c "[" then
            match skip_ws r with
            | [] => None
            | c' :: r' =>
                if is_ch c' "]" then Some (VArr [], r')
                else
                  match parse_elements n r with
                  | Some (l, rest) => Some (VArr l, rest)
                  | None => None
                  end
            end
          else if is_ch c "{" then
            match skip_ws r with
            | [] => None
            | c' :: r' =>
                if is_ch c' "}" then Some (VObj [], r')
                else
                  match parse_members n r with
                  | Some (ps, rest) => Some (object_of ps, rest)
                  | None => None
                  end
            end
          else if is_ch c dquote then
            match parse_string_body r with
            | Some (str, rest) => Some (VStr str, rest)
            | None => None
            end
          else if is_ch c "t" then
            match after (text "rue") r with
            | Some rest => Some (VBool true, rest)
            | None => None
            end
          else if is_ch c "f" then
            match after (text "alse") r with
            | Some rest => Some (VBool false, rest)
            | None => None
            end
          else if is_ch c "n" then
            match after (text "ull") r with
            | Some rest => Some (VNull, rest)
            | None => None
            end
          else
            match parse_number (c :: r) with
            | Some (x, rest) => Some (VNum x, rest)
            | None => None
            end
      end
  end
with parse_elements (fuel : nat) (s : jstring)
  : option (list value * jstring) :=
  match fuel with
  | O => None
  | S n =>
      match parse_value n s with
      | Some (v, rest) =>
          match skip_ws rest with
          | [] => None
          | c :: r =>
              if is_ch c "," then
                match parse_elements n r with
                | Some (vs, rest') => Some (v :: vs, rest')
                | None => None
                end
              else if is_ch c "]" then Some ([v], r)
              else None
          end
      | None => None
      end
  end
with parse_members (fuel : nat) (s : jstring) : option (props * jstring) :=
  match fuel with
  | O => None
  | S n =>
      match skip_ws s with
      | [] => None
      | q :: r =>
          if is_ch q dquote then
            match parse_string_body r with
            | Some (key, rest) =>
                match skip_ws rest with
                | [] => None
                | c :: r1 =>
                    if is_ch c ":" then
                      match parse_value n r1 with
                      | Some (v, rest1) =>
                          match skip_ws rest1 with
                          | [] => None
                          | c' :: r2 =>
                              if is_ch c' "," then
                                match parse_members n r2 with
                                | Some (ps, rest2) =>
                                    Some ((key, v) :: ps, rest2)
                                | None => None
                                end
                              else if is_ch c' "}"
                              then Some ([(key, v)], r2)
                              else None
                          end
                      | None => None
                      end
                    else None
                end
            | None => None
            end
          else None
      end
  end.

(** [JSON.parse(text)]: the value of a text that is one JSON value and
    nothing else, [None] for the [SyntaxError] of any other text. *)
Definition parse (t : jstring) : option value :=
  match parse_value (S (length t)) t with
  | Some (v, rest) =>
      match skip_ws rest with
      | [] => Some v
      | _ :: _ => None
      end
  | None => None
  end.

End JSON.

(** *** What JSON text keeps of a value *)

Definition distinct_keys (ps : props) : bool :=
  bool_decide (NoDup (List.map fst ps)).

Definition named (kv : jstring * value) : bool :=
  match array_index (fst kv) with
  | Some _ => false
  | None => true
  end.

(** The order in which an object's own properties are enumerated: the
    array indices above [bound] in ascending order, then the other names. *)
Fixpoint enumerated (bound : Z) (ps : props) : bool :=
  match ps with
  | [] => true
  | (k, v) :: rest =>
      match array_index k with
      | Some i => (bound <? i) && enumerated i rest
      | None => forallb named ((k, v) :: rest)
      end
  end.

(** The own properties of an object as the engine has them: no name
    twice, in the order of enumeration. *)
Definition own_keys (ps : props) : bool :=
  distinct_keys ps && enumerated (-1) ps.

(** The values as the engine has them: every number is a double and every
    object holds its properties as [own_keys] says. *)
Fixpoint proper (v : value) : bool :=
  match v with
  | VNum x => is_double x
  | VArr l => forallb proper l
  | VObj ps => own_keys ps && forallb (fun kv => proper (snd kv)) ps
  | _ => true
  end.

(** A number that JSON text holds as it is: finite and not the negative
    zero. *)
Definition plain (x : number) : bool :=
  match x with
  | Zero negative => negb negative
  | Finite _ _ _ => true
  | NaN | Infinity _ => false
  end.

(** The values that JSON text holds as they are: [proper], no
    [undefined] anywhere, every number [plain]. *)
Fixpoint json_ok (v : value) : bool :=
  match v with
  | VUndefined => false
  | VNum x => is_double x && plain x
  | VArr l => forallb json_ok l
  | VObj ps => own_keys ps && forallb (fun kv => json_ok (snd kv)) ps
  | _ => true
  end.

Section Members.

Variable strip : value -> value.

Fixpoint strip_members (ps : props) : props :=
  match ps with
  | [] => []
  | (key, v) :: rest =>
      match v with
      | VUndefined => strip_members rest
      | _ => (key, strip v) :: strip_members rest
      end
  end.

End Members.

(** The value that the text of [v] stands for: a property whose value is
    [undefined] is gone, an [undefined] array element is [null], a number
    that is not finite is [null], the negative zero is the positive one. *)
Fixpoint strip (v : value) : value :=
  match v with
  | VUndefined => VNull
  | VNum x => if is_finite x then VNum (settled x) else VNull
  | VArr l => VArr (List.map strip l)
  | VObj ps => VObj (strip_members strip ps)
  | _ => v
  end.

(** The nesting of parser calls that the text of [v] needs. *)
Fixpoint size (v : value) : nat :=
  match v with
  | VArr l => S (list_sum (List.map (fun w => S (size w)) l))
  | VObj ps => S (list_sum (List.map (fun kv => S (size (snd kv))) ps))
  | _ => 1
  end.

(** The code units a number starts with. *)
Definition number_start (c : code) : bool :=
  match to_digit c with
  | Some _ => true
  | None => is_ch c "-"
  end.

(** Every property of [acc] is an array index below [i]. *)
Definition indices_below (i : Z) (acc : props) : Prop :=
  Forall (fun kv => exists j, array_index (fst kv) = Some j /\ j < i) acc.

(** The code units a value's text can start with. *)
Definition value_start (c : code) : bool :=
  match to_digit c with
  | Some _ => true
  | None =>
      is_ch c "-" || is_ch c "[" || is_ch c "{" ||
      is_ch c JSON.dquote || is_ch c "t" || is_ch c "f" || is_ch c "n"
  end.

(** With enough fuel, the text of [v] followed by [k] parses to [v] and
    leaves [k]. *)
Definition roundtrips (v : value) : Prop :=
  forall fuel k,
    (size v <= fuel)%nat -> json_ok v = true -> delimited k = true ->
    JSON.parse_value fuel (JSON.put v k) = Some (v, k).

(** The text of [v] is at least as long as the fuel it needs. *)
Definition fits (v : value) : Prop :=
  forall k, json_ok v = true ->
    (size v + length k <= length (JSON.put v k))%nat.

Section ValueInduction.

Variable P : value -> Prop.
Hypothesis P_undefined : P VUndefined.
Hypothesis P_null : P VNull.
Hypothesis P_bool : forall b, P (VBool b).
Hypothesis P_num : forall x, P (VNum x).
Hypothesis P_str : forall s, P (VStr s).
Hypothesis P_arr : forall l, Forall P l -> P (VArr l).
Hypothesis P_obj : forall ps, Forall (fun kv => P (snd kv)) ps -> P (VObj ps).

Fixpoint value_nested_ind (v : value) : P v :=
  match v with
  | VUndefined => P_undefined
  | VNull => P_null
  | VBool b => P_bool b
  | VNum x => P_num x
  | VStr s => P_str s
  | VArr l =>
      P_arr l
        ((fix elems (l : list value) : Forall P l :=
            match l with
            | [] => List.Forall_nil P
            | w :: rest =>
                List.Forall_cons P w rest (value_nested_ind w) (elems rest)
            end) l)
  | VObj ps =>
      P_obj ps
        ((fix members (ps : props) : Forall (fun kv => P (snd kv)) ps :=
            match ps with
            | [] => List.Forall_nil _
            | kv :: rest =>
                List.Forall_cons _ kv rest (value_nested_ind (snd kv))
                  (members rest)
            end) ps)
  end.

End ValueInduction.

(** *** The gateway and the handlers: src/components/workFlow.jsx *)

(** A promise once its timer has fired: resolved, rejected, or left
    unsettled by an exception in the timer's callback. *)
Inductive promise : Type :=
| Resolved (response : value)
| Rejected (reason : value)
| Unsettled.

(** [localStorage]: a map from keys to strings, with room for the text
    that is stored. *)
Definition setItem (key : string) (t : jstring) (ls : gmap string jstring)
  : gmap string jstring := <[key := t]> ls.

Definition getItem (key : string) (ls : gmap string jstring) : value :=
  match ls !! key with
  | Some t => VStr t
  | None => VNull
  end.

(** [JSON.parse(v)] of a value read from the storage. *)
Definition parse_item (v : value) : option value :=
  match v with
  | VStr t => JSON.parse t
  | _ => None
  end.

Module apiService.

(** [localStorage.setItem('savedWorkflow', JSON.stringify(data))], then
    [resolve]. *)
Definition saveWorkflow (data : value) (ls : gmap string jstring)
  : gmap string jstring * promise :=
  (setItem "savedWorkflow"
     (default (text "undefined") (JSON.stringify data)) ls,
   Resolved (VObj [(text "success", VBool true);
                   (text "message",
                    VStr (text "Workflow saved successfully"))])).

Definition loadWorkflow (ls : gmap string jstring) : promise :=
  let savedData := getItem "savedWorkflow" ls in
  if truthy savedData then
    match parse_item savedData with
    | Some data =>
        Resolved (VObj [(text "success", VBool true); (text "data", data)])
    | None => Unsettled
    end
  else Rejected (VObj [(text "success", VBool false);
                       (text "message",
                        VStr (text "No saved workflow found"))]).

End apiService.

(** The part of the slice that a load writes: src/redux/flowSlice,
    [setNodes], [setEdges] and [setSelectedNode]. *)
Record state : Type := State {
  nodes : list value;
  edges : list value;
  selectedNode : value
}.

(** [Array.isArray(payload) ? payload : []]. *)
Definition stored (payload : value) : list value :=
  match payload with
  | VArr l => l
  | _ => []
  end.

Definition setNodes (st : state) (payload : value) : state :=
  {| nodes := stored payload; edges := edges st;
     selectedNode := selectedNode st |}.

Definition setEdges (st : state) (payload : value) : state :=
  {| nodes := nodes st; edges := stored payload;
     selectedNode := selectedNode st |}.

Definition setSelectedNode (st : state) (payload : value) : state :=
  {| nodes := nodes st; edges := edges st; selectedNode := payload |}.

(** What the component holds: the store's slice and its own two pieces of
    state. The timers that clear the status message later are left out. *)
Record view : Type := View {
  flow : state;
  isLoading : bool;
  statusMessage : value
}.

(** The snapshot handed to [apiService.saveWorkflow]: [{ nodes, edges }]. *)
Definition workflowData (ns es : list value) : value :=
  VObj [(text "nodes", VArr ns); (text "edges", VArr es)].

(** The [saveWorkflow] handler, up to the end of its [finally] block. *)
Definition saveWorkflow (ls : gmap string jstring) (c : view)
  : gmap string jstring * view :=
  let (ls', result) :=
    apiService.saveWorkflow
      (workflowData (nodes (flow c)) (edges (flow c))) ls in
  (ls',
   match result with
   | Resolved response =>
       match get_prop response (text "message") with
       | Some m => {| flow := flow c; isLoading := false; statusMessage := m |}
       | None => {| flow := flow c; isLoading := false;
                    statusMessage := VStr (text "Error saving workflow.") |}
       end
   | Rejected _ => {| flow := flow c; isLoading := false;
                      statusMessage := VStr (text "Error saving workflow.") |}
   | Unsettled => {| flow := flow c; isLoading := true;
                     statusMessage := VStr (text "Saving workflow...") |}
   end).

(** The [loadWorkflow] handler, up to the end of its [finally] block. A
    rejection and an exception in the [try] block both end in the [catch]
    block. *)
Definition loadWorkflow (ls : gmap string jstring) (c : view) : view :=
  let caught := {| flow := flow c; isLoading := false;
                   statusMessage :=
                     VStr (text "No saved workflow found.") |} in
  match apiService.loadWorkflow ls with
  | Resolved response =>
      match get_prop response (text "success"),
            get_prop response (text "data") with
      | Some ok, Some data =>
          if truthy ok && truthy data then
            match get_prop data (text "nodes"),
                  get_prop data (text "edges") with
            | Some ns, Some es =>
                {| flow := setSelectedNode
                             (setEdges (setNodes (flow c) ns) es) VNull;
                   isLoading := false;
                   statusMessage :=
                     VStr (text "Workflow loaded successfully.") |}
            | _, _ => caught
            end
          else {| flow := flow c; isLoading := false;
                  statusMessage := VStr (text "Loading workflow...") |}
      | _, _ => caught
      end
  | Rejected _ => caught
  | Unsettled => {| flow := flow c; isLoading := true;
                    statusMessage := VStr (text "Loading workflow...") |}
  end.

(** The records of the data model and the values that hold them: a node
    is [{ id, type, data: { label }, position: { x, y } }], an edge is
    [{ id, source, target, type }]. *)
Record Node : Type := {
  node_id : jstring;
  node_type : jstring;
  node_label : jstring;
  node_x : number;
  node_y : number
}.

Record Edge : Type := {
  edge_id : jstring;
  edge_source : jstring;
  edge_target : jstring;
  edge_type : jstring
}.

Definition node_value (n : Node) : value :=
  VObj [(text "id", VStr (node_id n));
        (text "type", VStr (node_type n));
        (text "data", VObj [(text "label", VStr (node_label n))]);
        (text "position", VObj [(text "x", VNum (node_x n));
                                (text "y", VNum (node_y n))])].

Definition edge_value (e : Edge) : value :=
  VObj [(text "id", VStr (edge_id e));
        (text "source", VStr (edge_source e));
        (text "target", VStr (edge_target e));
        (text "type", VStr (edge_type e))].

Definition snapshot (ns : list Node) (es : list Edge) : value :=
  workflowData (List.map node_value ns) (List.map edge_value es).

(** A position is a real number: a finite double. *)
Definition real (x : number) : bool := is_finite x && is_double x.

Definition positioned (n : Node) : bool := real (node_x n) && real (node_y n).

(** A node as it is after a save and a load: a coordinate that was the
    negative zero is the positive zero. *)
Definition reloaded (n : Node) : Node :=
  {| node_id := node_id n; node_type := node_type n;
     node_label := node_label n;
     node_x := settled (node_x n); node_y := settled (node_y n) |}.

(** Two nodes are equal by value: the same strings, and coordinates that
    [===] holds equal. *)
Definition same_node (a b : Node) : bool :=
  jstring_eqb (node_id a) (node_id b) &&
  jstring_eqb (node_type a) (node_type b) &&
  jstring_eqb (node_label a) (node_label b) &&
  equal (node_x a) (node_x b) && equal (node_y a) (node_y b).

(** The seed graph of the slice, and a node dropped at a position that is
    not an integer, with a label outside Latin-1. *)
Definition seed_nodes : list Node :=
  [ {| node_id := text "1"; node_type := text "payment";
       node_label := text "Payment of $300";
       node_x := of_Z 250; node_y := of_Z 50 |};
    {| node_id := text "2"; node_type := text "location";
       node_label := text "America";
       node_x := of_Z 250; node_y := of_Z 150 |};
    {| node_id := text "3"; node_type := text "gateway";
       node_label := text "RazorPay";
       node_x := of_Z 250; node_y := of_Z 250 |} ].

Definition seed_edges : list Edge :=
  [ {| edge_id := text "e1-2"; edge_source := text "1";
       edge_target := text "2"; edge_type := text "custom" |};
    {| edge_id := text "e2-3"; edge_source := text "2";
       edge_target := text "3"; edge_type := text "custom" |} ].

(** A node dropped at (10.5, -0.1) whose label is two code units outside
    Latin-1 followed by a lone surrogate. *)
Definition dropped_node : Node :=
  {| node_id := text "node-1700000000000"; node_type := text "payment";
     node_label := [("078", "045"); ("216", "061"); ("222", "000");
                    ("216", "061")]%char;
     node_x := round_decimal false 105 (-1);
     node_y := round_decimal true 1 (-1) |}.

(** A store whose fourth node has a position that is not an integer, a
    coordinate that is not a number and a property that is [undefined]. *)
Definition odd_store : state :=
  {| nodes := List.map node_value seed_nodes ++
              [VObj [(text "id", VStr (text "4"));
                     (text "data", VUndefined);
                     (text "position",
                      VObj [(text "x", VNum (round_decimal false 105 (-1)));
                            (text "y", VNum NaN)])]];
     edges := List.map edge_value seed_edges;
     selectedNode := VNull |}.

(** A text with a property the component does not know and a number with
    a fraction. *)
Definition zoomed : jstring :=
  text "{" ++ [ch JSON.dquote] ++ text "nodes" ++ [ch JSON.dquote] ++
  text ":[]," ++ [ch JSON.dquote] ++ text "edges" ++ [ch JSON.dquote] ++
  text ":[]," ++ [ch JSON.dquote] ++ text "zoom" ++ [ch JSON.dquote] ++
  text ":1.5}".

End Full.


(** * Properties of the store *)

Module JSFacts.

Lemma strict_eq_true a b : strict_eq a b = true -> a = b.
Proof.
  destruct a, b; simpl; try discriminate; try reflexivity.
  - intros H. apply Bool.eqb_prop in H. congruence.
  - intros H. apply Z.eqb_eq in H. congruence.
  - intros H. apply String.eqb_eq in H. congruence.
Qed.

Lemma strict_eq_sym a b : strict_eq a b = strict_eq b a.
Proof.
  destruct a, b; simpl; try reflexivity.
  - destruct b, b0; reflexivity.
  - apply Z.eqb_sym.
  - apply String.eqb_sym.
Qed.

(** Two values identical to a third are identical to each other. *)
Lemma strict_eq_join a b c :
  strict_eq a c = true -> strict_eq b c = true -> strict_eq a b = true.
Proof.
  intros Ha Hb. pose proof (strict_eq_true _ _ Ha) as ->.
  pose proof (strict_eq_true _ _ Hb) as ->. exact Ha.
Qed.

Lemma strict_eq_transfer a b c :
  strict_eq a b = true -> strict_eq a c = strict_eq b c.
Proof. intros H. apply strict_eq_true in H. now subst. Qed.

Lemma lookup_set_prop_eq k v ps : lookup_prop k (set_prop k v ps) = Some v.
Proof.
  induction ps as [|[k' v'] ps IH]; simpl.
  - now rewrite String.eqb_refl.
  - destruct (String.eqb k k') eqn:E; simpl.
    + now rewrite String.eqb_refl.
    + now rewrite E.
Qed.

Lemma lookup_set_prop_ne k k' v ps :
  k <> k' -> lookup_prop k (set_prop k' v ps) = lookup_prop k ps.
Proof.
  intros Hne. induction ps as [|[k'' v''] ps IH]; simpl.
  - apply String.eqb_neq in Hne. now rewrite Hne.
  - destruct (String.eqb k' k'') eqn:E; simpl.
    + apply String.eqb_eq in E. subst k''.
      apply String.eqb_neq in Hne. now rewrite Hne.
    + now rewrite IH.
Qed.

Lemma get_prop_not_nullish v k :
  nullish v = false -> exists w, get_prop v k = Some w.
Proof. destruct v; simpl; try discriminate; eauto. Qed.

Lemma is_object_not_nullish v : is_object v = true -> nullish v = false.
Proof. now destruct v. Qed.

Lemma string_of_uint_head d c s :
  NilEmpty.string_of_uint d = String c s -> is_digit c = true.
Proof. destruct d; simpl; intros [= <- _]; reflexivity. Qed.

(** An indexed property is never one of the named properties read here. *)
Lemma lookup_indexed_named k l c s :
  k = String c s -> is_digit c = false -> lookup_prop k (indexed l) = None.
Proof.
  intros -> Hc. unfold indexed. generalize 0%nat.
  induction l as [|v l IH]; intros i; cbn [indexed_from lookup_prop];
    [reflexivity|].
  destruct (String.eqb (String c s) (index_key i)) eqn:E; [|apply IH].
  apply String.eqb_eq in E. symmetry in E.
  apply string_of_uint_head in E. congruence.
Qed.

Lemma array_filter_total (p : value -> option bool) (q : value -> bool) l :
  Forall (fun v => p v = Some (q v)) l ->
  array_filter p l = Some (List.filter q l).
Proof.
  induction 1 as [|v l Hv _ IH]; simpl; [reflexivity|].
  rewrite Hv, IH. now destruct (q v).
Qed.

Lemma array_map_total (f : value -> option value) (g : value -> value) l :
  Forall (fun v => f v = Some (g v)) l ->
  array_map f l = Some (List.map g l).
Proof.
  induction 1 as [|v l Hv _ IH]; simpl; [reflexivity|].
  now rewrite Hv, IH.
Qed.

Lemma array_find_total (p : value -> option bool) (q : value -> bool) l :
  Forall (fun v => p v = Some (q v)) l ->
  array_find p l = Some (default VUndefined (List.find q l)).
Proof.
  induction 1 as [|v l Hv _ IH]; simpl; [reflexivity|].
  rewrite Hv. now destruct (q v).
Qed.

End JSFacts.

Module StoreFacts.

Import JSFacts.

Lemma keeps_node_total x n :
  nullish n = false -> keeps_node x n = Some (negb (has_id x n)).
Proof.
  intros Hn. unfold keeps_node, has_id.
  destruct (get_prop_not_nullish n "id" Hn) as [i ->]. reflexivity.
Qed.

Lemma keeps_edge_total x e :
  nullish e = false -> keeps_edge x e = Some (negb (touches x e)).
Proof.
  intros He. unfold keeps_edge, touches, end_is.
  destruct (get_prop_not_nullish e "source" He) as [s ->].
  destruct (get_prop_not_nullish e "target" He) as [t ->].
  destruct (strict_eq s x); reflexivity.
Qed.

Lemma id_is_total x n :
  nullish n = false -> id_is x n = Some (has_id x n).
Proof.
  intros Hn. unfold id_is, has_id.
  destruct (get_prop_not_nullish n "id" Hn) as [i ->]. reflexivity.
Qed.

Lemma relabel_total x l n :
  nullish n = false -> relabel x l n = Some (relabelled x l n).
Proof.
  intros Hn. unfold relabel, relabelled. rewrite (id_is_total _ _ Hn).
  destruct (has_id x n); [|reflexivity].
  destruct (get_prop_not_nullish n "data" Hn) as [d ->]. reflexivity.
Qed.

Lemma records_not_nullish l :
  records l -> Forall (fun v => nullish v = false) l.
Proof.
  intros H. eapply Forall_impl; [exact H|].
  intros v. apply is_object_not_nullish.
Qed.

Lemma In_filter_negb (f : value -> bool) l v :
  In v (List.filter (fun w => negb (f w)) l) <-> In v l /\ f v = false.
Proof. rewrite filter_In, negb_true_iff. reflexivity. Qed.

(** [deleteNode] on a store whose entries are not [null] or [undefined]. *)
Lemma deleteNode_total st x :
  Forall (fun v => nullish v = false) (nodes st) ->
  Forall (fun v => nullish v = false) (edges st) ->
  deleteNode st x =
    Some {| nodes := List.filter (fun n => negb (has_id x n)) (nodes st);
            edges := List.filter (fun e => negb (touches x e)) (edges st);
            selectedNode := VNull |}.
Proof.
  intros Hn He. unfold deleteNode.
  rewrite (array_filter_total _ (fun n => negb (has_id x n))).
  - rewrite (array_filter_total _ (fun e => negb (touches x e))); [reflexivity|].
    eapply Forall_impl; [exact He|]. intros e. apply keeps_edge_total.
  - eapply Forall_impl; [exact Hn|]. intros n. apply keeps_node_total.
Qed.

(** C8: [setNodes] and [setEdges] never throw, whatever the payload: an
    array payload is stored as it is, any other payload stores the empty
    sequence; the rest of the state is left as it was. *)
Theorem replace_total_and_defensive (st : state) (p : value) :
  reducer st (SetNodes p) = Some (setNodes st p) /\
  reducer st (SetEdges p) = Some (setEdges st p) /\
  (forall l, p = VArr l ->
     nodes (setNodes st p) = l /\ edges (setEdges st p) = l) /\
  (isArray p = false ->
     nodes (setNodes st p) = [] /\ edges (setEdges st p) = []) /\
  edges (setNodes st p) = edges st /\
  selectedNode (setNodes st p) = selectedNode st /\
  nodes (setEdges st p) = nodes st /\
  selectedNode (setEdges st p) = selectedNode st.
Proof.
  repeat split; try reflexivity.
  - now subst p.
  - now subst p.
  - destruct p; simpl in *; congruence.
  - destruct p; simpl in *; congruence.
Qed.

Lemma replace_total_and_defensive_witness :
  nodes (setNodes initialState (VArr initialEdges)) = initialEdges /\
  edges (setEdges initialState (VArr initialEdges)) = initialEdges /\
  isArray (VStr "nodes") = false /\
  nodes (setNodes initialState (VStr "nodes")) = [] /\
  edges (setEdges initialState (VStr "nodes")) = [].
Proof.
  pose proof (replace_total_and_defensive initialState (VArr initialEdges))
    as (_ & _ & Harr & _).
  pose proof (replace_total_and_defensive initialState (VStr "nodes"))
    as (_ & _ & _ & Hother & _).
  destruct (Harr initialEdges eq_refl) as [Hn He].
  destruct (Hother eq_refl) as [Hn' He'].
  split; [exact Hn|]. split; [exact He|]. split; [reflexivity|].
  split; [exact Hn'|exact He'].
Defined.

(** C1: [deleteNode(x)] removes every node whose identifier is [x] and
    every edge whose source or target is [x], keeps all the other nodes and
    edges in their order, and leaves nothing selected, whatever was
    selected before. *)
Theorem deleteNode_removes_node_and_edges (st : state) (x : value) :
  records (nodes st) -> records (edges st) ->
  exists st',
    deleteNode st x = Some st' /\
    nodes st' = List.filter (fun n => negb (has_id x n)) (nodes st) /\
    edges st' = List.filter (fun e => negb (touches x e)) (edges st) /\
    (forall n, In n (nodes st') <-> In n (nodes st) /\ has_id x n = false) /\
    (forall e, In e (edges st') <-> In e (edges st) /\ touches x e = false) /\
    selectedNode st' = VNull.
Proof.
  intros Hn He. eexists. split.
  - apply deleteNode_total; now apply records_not_nullish.
  - simpl. split; [reflexivity|]. split; [reflexivity|].
    split; [intros n; apply In_filter_negb|].
    split; [intros e; apply In_filter_negb|]. reflexivity.
Qed.

Lemma deleteNode_removes_node_and_edges_witness :
  records (nodes initialState) /\ records (edges initialState) /\
  exists st',
    deleteNode initialState (VStr "2") = Some st' /\
    nodes st' = [node "1" "payment" "Payment of $300" 250 50;
                 node "3" "gateway" "RazorPay" 250 250] /\
    edges st' = [] /\ selectedNode st' = VNull.
Proof.
  assert (Hn : records (nodes initialState)) by (repeat constructor).
  assert (He : records (edges initialState)) by (repeat constructor).
  split; [exact Hn|]. split; [exact He|].
  destruct (deleteNode_removes_node_and_edges initialState (VStr "2") Hn He)
    as (st' & Hrun & Hnodes & Hedges & _ & _ & Hsel).
  exists st'. repeat split; assumption.
Defined.

(** *** [updateNodeLabel] *)

Lemma relabelled_prop x l n c r :
  String c r <> "data" -> is_digit c = false ->
  get_prop (relabelled x l n) (String c r) = get_prop n (String c r).
Proof.
  intros Hk Hd. unfold relabelled.
  destruct (has_id x n) eqn:E; [|reflexivity].
  destruct n; try discriminate E; cbn [get_prop spread];
    rewrite lookup_set_prop_ne by assumption; try reflexivity.
  - now rewrite (lookup_indexed_named _ _ c r eq_refl Hd).
  - now rewrite (lookup_indexed_named _ _ c r eq_refl Hd).
Qed.

(** On a record every property but [data] is copied. *)
Lemma relabelled_prop_record x l ps k :
  k <> "data" -> get_prop (relabelled x l (VObj ps)) k = get_prop (VObj ps) k.
Proof.
  intros Hk. unfold relabelled.
  destruct (has_id x (VObj ps)); [|reflexivity].
  cbn [get_prop spread]. now rewrite lookup_set_prop_ne by assumption.
Qed.

(** Inside [data] every property but [label] is copied. *)
Lemma relabelled_data x l ps k :
  has_id x (VObj ps) = true -> k <> "label" ->
  exists d',
    get_prop (relabelled x l (VObj ps)) "data" = Some (VObj d') /\
    lookup_prop k d' =
      lookup_prop k (spread (default VUndefined (lookup_prop "data" ps))).
Proof.
  intros H Hk. unfold relabelled. rewrite H. cbv iota.
  cbn [get_prop spread]. rewrite lookup_set_prop_eq. eexists. split; [reflexivity|].
  now rewrite lookup_set_prop_ne by assumption.
Qed.

Lemma relabelled_id x l n y : has_id y (relabelled x l n) = has_id y n.
Proof.
  unfold has_id. now rewrite relabelled_prop.
Qed.

Lemma relabelled_not_nullish x l n :
  nullish n = false -> nullish (relabelled x l n) = false.
Proof. intros Hn. unfold relabelled. now destruct (has_id x n). Qed.

Lemma relabelled_label x l n :
  has_id x n = true -> label_of (relabelled x l n) = Some l.
Proof.
  intros H. unfold relabelled, label_of. rewrite H. cbv iota.
  cbn [get_prop]. rewrite lookup_set_prop_eq. cbn [from_option id get_prop].
  now rewrite lookup_set_prop_eq.
Qed.

Lemma relabelled_other x l n : has_id x n = false -> relabelled x l n = n.
Proof. intros H. unfold relabelled. now rewrite H. Qed.

Lemma map_relabelled_absent x l ns :
  (forall n, In n ns -> has_id x n = false) ->
  List.map (relabelled x l) ns = ns.
Proof.
  intros H. induction ns as [|n ns IH]; simpl; [reflexivity|].
  rewrite relabelled_other by (apply H; now left).
  rewrite IH; [reflexivity|]. intros m Hm. apply H. now right.
Qed.

Lemma find_relabelled x l ns :
  List.find (has_id x) (List.map (relabelled x l) ns) =
  option_map (relabelled x l) (List.find (has_id x) ns).
Proof.
  induction ns as [|n ns IH]; simpl; [reflexivity|].
  rewrite relabelled_id. now destruct (has_id x n).
Qed.

Lemma updateNodeLabel_total st x l :
  Forall (fun v => nullish v = false) (nodes st) ->
  updateNodeLabel st (label_payload x l) =
    Some {| nodes := List.map (relabelled x l) (nodes st);
            edges := edges st;
            selectedNode := refreshed x l st |}.
Proof.
  intros Hn. unfold updateNodeLabel, refreshed.
  change (get_prop (label_payload x l) "nodeId") with (Some x).
  change (get_prop (label_payload x l) "newLabel") with (Some l).
  cbv beta iota.
  rewrite (array_map_total _ (relabelled x l)).
  2:{ eapply Forall_impl; [exact Hn|]. intros n. apply relabel_total. }
  destruct (truthy (selectedNode st)) eqn:Ht; [|reflexivity].
  assert (Hs : nullish (selectedNode st) = false)
    by (destruct (selectedNode st); simpl in *; congruence).
  unfold has_id at 1.
  destruct (get_prop_not_nullish _ "id" Hs) as [i ->]. cbn [andb].
  destruct (strict_eq i x); [|reflexivity].
  rewrite (array_find_total _ (has_id x)); [reflexivity|].
  apply Forall_forall. intros n' Hin. apply list_elem_of_In in Hin.
  apply in_map_iff in Hin as (n & <- & Hin).
  apply id_is_total, relabelled_not_nullish.
  rewrite Forall_forall in Hn. apply Hn. now apply list_elem_of_In.
Qed.

(** C4: [updateNodeLabel(x, L2)] maps the node sequence position by
    position: a node whose identifier is [x] keeps its identifier and every
    property but [data], keeps every property of [data] but [label], and has
    label [L2]; every other node is the same value as before. When no node
    has identifier [x] the sequence is unchanged, and the reducer returns
    (no error). *)
Theorem updateNodeLabel_relabels (st : state) (x l : value) :
  records (nodes st) ->
  exists st',
    updateNodeLabel st (label_payload x l) = Some st' /\
    nodes st' = List.map (relabelled x l) (nodes st) /\
    edges st' = edges st /\
    (forall n, In n (nodes st) -> has_id x n = true ->
       has_id x (relabelled x l n) = true /\
       label_of (relabelled x l n) = Some l /\
       (forall k, k <> "data" -> get_prop (relabelled x l n) k = get_prop n k) /\
       (forall k, k <> "label" ->
          exists d d',
            get_prop n "data" = Some d /\
            get_prop (relabelled x l n) "data" = Some (VObj d') /\
            lookup_prop k d' = lookup_prop k (spread d))) /\
    (forall n, In n (nodes st) -> has_id x n = false -> relabelled x l n = n) /\
    ((forall n, In n (nodes st) -> has_id x n = false) ->
       nodes st' = nodes st).
Proof.
  intros Hrec. eexists. split.
  { apply updateNodeLabel_total. now apply records_not_nullish. }
  cbn [nodes edges]. split; [reflexivity|]. split; [reflexivity|].
  split; [|split].
  - intros n Hin Hid.
    assert (Hobj : is_object n = true).
    { unfold records in Hrec. rewrite Forall_forall in Hrec.
      apply Hrec. now apply list_elem_of_In. }
    destruct n as [| | | | | |ps]; try discriminate Hobj.
    split; [now rewrite relabelled_id|].
    split; [now apply relabelled_label|].
    split; [intros k Hk; now apply relabelled_prop_record|].
    intros k Hk. destruct (relabelled_data x l ps k Hid Hk) as (d' & Hd' & Hk').
    exists (default VUndefined (lookup_prop "data" ps)), d'.
    split; [reflexivity|]. split; assumption.
  - intros n _. apply relabelled_other.
  - apply map_relabelled_absent.
Qed.

Lemma updateNodeLabel_relabels_witness :
  records (nodes initialState) /\
  exists st',
    updateNodeLabel initialState
      (label_payload (VStr "1") (VStr "Payment of $999")) = Some st' /\
    nodes st' = [node "1" "payment" "Payment of $999" 250 50;
                 node "2" "location" "America" 250 150;
                 node "3" "gateway" "RazorPay" 250 250].
Proof.
  assert (Hn : records (nodes initialState)) by (repeat constructor).
  split; [exact Hn|].
  destruct (updateNodeLabel_relabels initialState (VStr "1")
              (VStr "Payment of $999") Hn) as (st' & Hrun & Hnodes & _).
  exists st'. split; assumption.
Defined.

(** C5: when a node with identifier [x] is present and the selected node
    has identifier [x], [updateNodeLabel(x, L2)] replaces the selection by
    the relabelled record of the new sequence: it is the updated first node
    with identifier [x], it is an element of the new sequence, and its
    label is [L2]. *)
Theorem updateNodeLabel_refreshes_selection (st : state) (x l : value) :
  records (nodes st) ->
  truthy (selectedNode st) = true ->
  has_id x (selectedNode st) = true ->
  (exists n, In n (nodes st) /\ has_id x n = true) ->
  exists st' n,
    updateNodeLabel st (label_payload x l) = Some st' /\
    List.find (has_id x) (nodes st) = Some n /\
    selectedNode st' = relabelled x l n /\
    In (selectedNode st') (nodes st') /\
    has_id x (selectedNode st') = true /\
    label_of (selectedNode st') = Some l.
Proof.
  intros Hrec Ht Hsel (n0 & Hin0 & Hid0).
  destruct (List.find (has_id x) (nodes st)) as [n|] eqn:Hfind.
  2:{ pose proof (find_none _ _ Hfind n0 Hin0) as Hno. congruence. }
  destruct (find_some _ _ Hfind) as [Hin Hid].
  eexists. exists n. split.
  { apply updateNodeLabel_total. now apply records_not_nullish. }
  cbn [nodes selectedNode]. unfold refreshed.
  rewrite Ht, Hsel, find_relabelled, Hfind. cbn [andb option_map from_option id].
  split; [reflexivity|]. split; [reflexivity|].
  split; [now apply in_map|].
  split; [now rewrite relabelled_id|now apply relabelled_label].
Qed.

Lemma updateNodeLabel_refreshes_selection_witness :
  records (nodes first_selected) /\
  truthy (selectedNode first_selected) = true /\
  has_id (VStr "1") (selectedNode first_selected) = true /\
  exists st',
    updateNodeLabel first_selected
      (label_payload (VStr "1") (VStr "Payment of $999")) = Some st' /\
    selectedNode st' = node "1" "payment" "Payment of $999" 250 50 /\
    label_of (selectedNode st') = Some (VStr "Payment of $999").
Proof.
  assert (Hn : records (nodes first_selected)) by (repeat constructor).
  assert (Hp : exists n, In n (nodes first_selected) /\
                         has_id (VStr "1") n = true).
  { eexists. split; [left; reflexivity|reflexivity]. }
  split; [exact Hn|]. split; [reflexivity|]. split; [reflexivity|].
  destruct (updateNodeLabel_refreshes_selection first_selected (VStr "1")
              (VStr "Payment of $999") Hn eq_refl eq_refl Hp)
    as (st' & n & Hrun & Hfind & Hsel & _ & _ & Hlab).
  exists st'. split; [exact Hrun|]. split; [|exact Hlab].
  injection Hfind as <-. exact Hsel.
Defined.

(** C10: when the selected node has identifier [x] and no node of the
    sequence has it, [updateNodeLabel(x, L2)] leaves the sequences as they
    were and sets the selection to [undefined], the result of the failed
    [find]: nothing is selected any more. *)
Theorem updateNodeLabel_clears_dangling_selection (st : state) (x l : value) :
  records (nodes st) ->
  truthy (selectedNode st) = true ->
  has_id x (selectedNode st) = true ->
  (forall n, In n (nodes st) -> has_id x n = false) ->
  updateNodeLabel st (label_payload x l) =
    Some {| nodes := nodes st; edges := edges st;
            selectedNode := VUndefined |} /\
  truthy VUndefined = false.
Proof.
  intros Hrec Ht Hsel Hno. split; [|reflexivity].
  rewrite updateNodeLabel_total by now apply records_not_nullish.
  unfold refreshed. rewrite Ht, Hsel, find_relabelled.
  rewrite (map_relabelled_absent _ _ _ Hno).
  destruct (List.find (has_id x) (nodes st)) as [n|] eqn:Hfind; [|reflexivity].
  destruct (find_some _ _ Hfind) as [Hin Hid]. rewrite (Hno n Hin) in Hid.
  discriminate.
Qed.

Lemma updateNodeLabel_clears_dangling_selection_witness :
  records (nodes absent_selected) /\
  truthy (selectedNode absent_selected) = true /\
  has_id (VStr "9") (selectedNode absent_selected) = true /\
  (forall n, In n (nodes absent_selected) -> has_id (VStr "9") n = false) /\
  updateNodeLabel absent_selected
    (label_payload (VStr "9") (VStr "Payment of $500")) =
    Some {| nodes := initialNodes; edges := initialEdges;
            selectedNode := VUndefined |}.
Proof.
  assert (Hn : records (nodes absent_selected)) by (repeat constructor).
  assert (Hno : forall n, In n (nodes absent_selected) ->
                          has_id (VStr "9") n = false).
  { intros n [<-|[<-|[<-|[]]]]; reflexivity. }
  split; [exact Hn|]. split; [reflexivity|]. split; [reflexivity|].
  split; [exact Hno|].
  exact (proj1 (updateNodeLabel_clears_dangling_selection absent_selected
                  (VStr "9") (VStr "Payment of $500") Hn eq_refl eq_refl Hno)).
Defined.

(** *** [deleteNode] of an identifier that no node has *)

Lemma refers_true ns k e :
  refers ns k e = true ->
  exists i n, get_prop e k = Some i /\ In n ns /\ has_id i n = true.
Proof.
  unfold refers. destruct (get_prop e k) as [i|]; [|discriminate].
  intros H. apply existsb_exists in H as (n & Hin & Hid). eauto.
Qed.

Lemma has_id_transfer i x n :
  strict_eq i x = true -> has_id i n = has_id x n.
Proof.
  intros H. apply strict_eq_true in H. now subst.
Qed.

(** With every edge on present nodes, an identifier that no node has is
    the end of no edge. *)
Lemma edges_ok_untouched st x :
  edges_ok st = true ->
  (forall n, In n (nodes st) -> has_id x n = false) ->
  forall e, In e (edges st) -> touches x e = false.
Proof.
  intros Hok Hno e Hin. unfold edges_ok in Hok.
  rewrite forallb_forall in Hok. specialize (Hok e Hin).
  apply andb_true_iff in Hok as [Hs Ht].
  apply refers_true in Hs as (i & n & Hi & Hn & Hid).
  apply refers_true in Ht as (j & m & Hj & Hm & Hjd).
  unfold touches, end_is. rewrite Hi, Hj.
  apply orb_false_iff. split.
  - destruct (strict_eq i x) eqn:E; [|reflexivity].
    rewrite (has_id_transfer _ _ _ E), (Hno n Hn) in Hid. discriminate.
  - destruct (strict_eq j x) eqn:E; [|reflexivity].
    rewrite (has_id_transfer _ _ _ E), (Hno m Hm) in Hjd. discriminate.
Qed.

Lemma filter_all (f : value -> bool) l :
  (forall v, In v l -> f v = true) -> List.filter f l = l.
Proof.
  intros H. induction l as [|v l IH]; simpl; [reflexivity|].
  rewrite (H v) by now left. f_equal. apply IH. intros w Hw. apply H.
  now right.
Qed.

(** C9, as the code has it: when no node has identifier [x],
    [deleteNode(x)] leaves the node sequence unchanged, removes the edges
    whose source or target is [x], so that the edge sequence is unchanged
    when no edge has [x] as an end (as in every store whose edges are all on
    present nodes), and leaves nothing selected. *)
Theorem deleteNode_absent (st : state) (x : value) :
  records (nodes st) -> records (edges st) ->
  (forall n, In n (nodes st) -> has_id x n = false) ->
  exists st',
    deleteNode st x = Some st' /\
    nodes st' = nodes st /\
    edges st' = List.filter (fun e => negb (touches x e)) (edges st) /\
    ((forall e, In e (edges st) -> touches x e = false) ->
       edges st' = edges st) /\
    (edges_ok st = true -> edges st' = edges st) /\
    selectedNode st' = VNull.
Proof.
  intros Hn He Hno. eexists. split.
  { apply deleteNode_total; now apply records_not_nullish. }
  cbn [nodes edges selectedNode].
  assert (Hall : (forall e, In e (edges st) -> touches x e = false) ->
                 List.filter (fun e => negb (touches x e)) (edges st)
                 = edges st).
  { intros H. apply filter_all. intros e Hin. now rewrite (H e Hin). }
  split; [|split; [reflexivity|split; [exact Hall|split; [|reflexivity]]]].
  - apply filter_all. intros n Hin. now rewrite (Hno n Hin).
  - intros Hok. apply Hall. now apply edges_ok_untouched.
Qed.

Lemma deleteNode_absent_witness :
  records (nodes initialState) /\ records (edges initialState) /\
  (forall n, In n (nodes initialState) -> has_id (VStr "7") n = false) /\
  exists st',
    deleteNode initialState (VStr "7") = Some st' /\
    nodes st' = initialNodes /\ edges st' = initialEdges /\
    selectedNode st' = VNull.
Proof.
  assert (Hn : records (nodes initialState)) by (repeat constructor).
  assert (He : records (edges initialState)) by (repeat constructor).
  assert (Hno : forall n, In n (nodes initialState) ->
                          has_id (VStr "7") n = false).
  { intros n [<-|[<-|[<-|[]]]]; reflexivity. }
  split; [exact Hn|]. split; [exact He|]. split; [exact Hno|].
  destruct (deleteNode_absent initialState (VStr "7") Hn He Hno)
    as (st' & Hrun & Hnodes & _ & _ & Hok & Hsel).
  exists st'. split; [exact Hrun|]. split; [exact Hnodes|].
  split; [exact (Hok eq_refl)|exact Hsel].
Defined.

(** C9 as stated fails: in the reachable store [nodes_emptied] no node has
    identifier ["1"], yet [deleteNode("1")] removes the edge [e1-2]. *)
Lemma deleteNode_absent_changes_edges :
  reachable nodes_emptied /\
  (forall n, In n (nodes nodes_emptied) -> has_id (VStr "1") n = false) /\
  exists st',
    deleteNode nodes_emptied (VStr "1") = Some st' /\
    edges nodes_emptied = initialEdges /\
    edges st' = [edge "e2-3" "2" "3" "custom"] /\
    edges st' <> edges nodes_emptied.
Proof.
  split; [|split].
  - apply (reachable_step initialState (SetNodes (VArr []))).
    + apply reachable_init.
    + reflexivity.
  - intros n [].
  - eexists. split; [reflexivity|]. split; [reflexivity|].
    split; [reflexivity|]. discriminate.
Qed.

(** *** Inversion of the reducers that may throw *)

Lemma array_map_Some (f : value -> option value) (g : value -> value) l l' :
  (forall v w, f v = Some w -> w = g v) ->
  array_map f l = Some l' -> l' = List.map g l.
Proof.
  intros Hfg. revert l'. induction l as [|v l IH]; simpl; intros l' H.
  - now injection H as <-.
  - destruct (f v) as [w|] eqn:Hv; [|discriminate].
    destruct (array_map f l) as [ws|]; [|discriminate].
    injection H as <-. now rewrite (Hfg v w Hv), (IH ws eq_refl).
Qed.

Lemma array_filter_Some (p : value -> option bool) l l' :
  array_filter p l = Some l' ->
  forall v, In v l' <-> In v l /\ p v = Some true.
Proof.
  revert l'. induction l as [|w l IH]; simpl; intros l' H v.
  - injection H as <-. simpl. tauto.
  - destruct (p w) as [b|] eqn:Hw; [|discriminate].
    destruct (array_filter p l) as [vs|]; [|discriminate].
    injection H as <-. specialize (IH vs eq_refl v).
    destruct b; simpl; rewrite IH; intuition (subst; congruence).
Qed.

Lemma array_find_Some (p : value -> option bool) l v :
  array_find p l = Some v ->
  v = VUndefined \/ (In v l /\ p v = Some true).
Proof.
  induction l as [|w l IH]; simpl; intros H.
  - left. congruence.
  - destruct (p w) as [[|]|] eqn:Hw; [| |discriminate].
    + injection H as <-. right. split; [now left|assumption].
    + destruct (IH H) as [->|[Hin Hp]]; [now left|right].
      split; [now right|assumption].
Qed.

Lemma relabel_Some x l n n' :
  relabel x l n = Some n' -> n' = relabelled x l n.
Proof.
  unfold relabel, relabelled, id_is, has_id.
  destruct (get_prop n "id") as [i|]; [|discriminate].
  destruct (strict_eq i x); [|congruence].
  destruct (get_prop n "data") as [d|]; [|discriminate].
  cbn [from_option id]. congruence.
Qed.

Lemma existsb_relabelled x l i ns :
  existsb (has_id i) (List.map (relabelled x l) ns) = existsb (has_id i) ns.
Proof.
  induction ns as [|n ns IH]; simpl; [reflexivity|].
  now rewrite relabelled_id, IH.
Qed.

Lemma refers_relabelled x l ns k v :
  refers (List.map (relabelled x l) ns) k v = refers ns k v.
Proof.
  unfold refers. destruct (get_prop v k); [|reflexivity].
  apply existsb_relabelled.
Qed.

Lemma refers_app ns p k v :
  refers ns k v = true -> refers (ns ++ [p]) k v = true.
Proof.
  unfold refers. destruct (get_prop v k); [|discriminate].
  rewrite existsb_app. intros ->. reflexivity.
Qed.

(** What a successful [updateNodeLabel] returns. *)
Lemma updateNodeLabel_Some st p st' :
  updateNodeLabel st p = Some st' ->
  exists x l,
    nodes st' = List.map (relabelled x l) (nodes st) /\
    edges st' = edges st /\
    (selectedNode st' = selectedNode st \/
     truthy (selectedNode st') = false \/
     (In (selectedNode st') (nodes st') /\
      id_is x (selectedNode st') = Some true)).
Proof.
  unfold updateNodeLabel.
  destruct (get_prop p "nodeId") as [x|]; [|discriminate].
  destruct (get_prop p "newLabel") as [l|]; [|discriminate].
  destruct (array_map (relabel x l) (nodes st)) as [ns'|] eqn:Hmap;
    [|discriminate].
  apply (array_map_Some _ (relabelled x l)) in Hmap;
    [|apply relabel_Some]. subst ns'.
  intros H. exists x, l.
  destruct (truthy (selectedNode st)).
  2:{ injection H as <-. simpl. auto. }
  destruct (get_prop (selectedNode st) "id") as [i|]; [|discriminate].
  destruct (strict_eq i x).
  2:{ injection H as <-. simpl. auto. }
  destruct (array_find _ _) as [found|] eqn:Hfind; [|discriminate].
  injection H as <-. cbn [nodes edges selectedNode].
  split; [reflexivity|]. split; [reflexivity|]. right.
  apply array_find_Some in Hfind as [->|Hfound]; [now left|now right].
Qed.

(** What a successful [deleteNode] returns. *)
Lemma deleteNode_Some st x st' :
  deleteNode st x = Some st' ->
  (forall n, In n (nodes st') <-> In n (nodes st) /\ keeps_node x n = Some true)
  /\ (forall e, In e (edges st') <->
                In e (edges st) /\ keeps_edge x e = Some true)
  /\ selectedNode st' = VNull.
Proof.
  unfold deleteNode.
  destruct (array_filter (keeps_node x) (nodes st)) as [ns'|] eqn:Hn;
    [|discriminate].
  destruct (array_filter (keeps_edge x) (edges st)) as [es'|] eqn:He;
    [|discriminate].
  intros [= <-]. cbn [nodes edges selectedNode].
  split; [now apply array_filter_Some|].
  split; [now apply array_filter_Some|reflexivity].
Qed.

(** *** The selection invariant *)

Lemma selection_ok_step st a st' :
  selection_ok st = true -> keeps_selection st a = true ->
  reducer st a = Some st' -> selection_ok st' = true.
Proof.
  intros Hok Hguard Hstep. destruct a as [p|p|p|p|p|p]; simpl in Hstep.
  - injection Hstep as <-. exact Hguard.
  - injection Hstep as <-. exact Hok.
  - injection Hstep as <-. exact Hguard.
  - injection Hstep as <-. unfold selection_ok in *. cbn [addNode nodes selectedNode].
    apply orb_true_iff in Hok as [Hf|Hr]; apply orb_true_iff;
      [now left|right]. now apply refers_app.
  - apply updateNodeLabel_Some in Hstep as (x & l & Hn & _ & Hsel).
    unfold selection_ok in *. rewrite Hn.
    destruct Hsel as [Hsame|[Hfalsy|[Hin Hid]]].
    + now rewrite Hsame, refers_relabelled.
    + now rewrite Hfalsy.
    + apply orb_true_iff. right. unfold refers, id_is in *.
      destruct (get_prop (selectedNode st') "id") as [i|] eqn:Hi;
        [|discriminate].
      apply existsb_exists. exists (selectedNode st').
      split; [now rewrite <- Hn|]. unfold has_id. rewrite Hi.
      injection Hid as Hid. exact (strict_eq_join _ _ _ Hid Hid).
  - apply deleteNode_Some in Hstep as (_ & _ & Hsel).
    unfold selection_ok. now rewrite Hsel.
Qed.

(** C2, as the code has it: in every state reached from the initial state
    by actions that leave the selection on a present node ([setSelectedNode]
    of nothing or of a node whose identifier is in the sequence, [setNodes]
    of a sequence that still has the selected identifier, and any [setEdges],
    [addNode], [updateNodeLabel] or [deleteNode]), a selected node has its
    identifier in the node sequence. [deleteNode] always leaves nothing
    selected, and so do the three dispatches of a load; [setNodes] itself
    never touches the selection. *)
Theorem selection_invariant :
  (forall st, reachable_by keeps_selection st -> selection_ok st = true) /\
  (forall st x st', deleteNode st x = Some st' -> selectedNode st' = VNull) /\
  (forall st ns es, selectedNode (loaded st ns es) = VNull) /\
  (forall st p, selectedNode (setNodes st p) = selectedNode st).
Proof.
  split; [|split; [|split]].
  - induction 1 as [|st a st' _ IH Hguard Hstep]; [reflexivity|].
    exact (selection_ok_step st a st' IH Hguard Hstep).
  - intros st x st' H. now apply deleteNode_Some in H as (_ & _ & Hsel).
  - reflexivity.
  - reflexivity.
Qed.

Lemma selection_invariant_witness :
  reachable_by keeps_selection first_selected /\
  selection_ok first_selected = true.
Proof.
  assert (H : reachable_by keeps_selection first_selected).
  { apply (reachable_by_step _ initialState
             (SetSelectedNode (node "1" "payment" "Payment of $300" 250 50)));
      [apply reachable_by_init|reflexivity|reflexivity]. }
  split; [exact H|].
  exact (proj1 selection_invariant first_selected H).
Defined.

(** C2 as stated fails: after selecting the first seed node and replacing
    the node sequence by one without it, the store still holds the old
    selection, whose identifier is no longer in the sequence. *)
Lemma selection_dangles_after_setNodes :
  reachable first_dropped /\
  truthy (selectedNode first_dropped) = true /\
  has_id (VStr "1") (selectedNode first_dropped) = true /\
  existsb (has_id (VStr "1")) (nodes first_dropped) = false /\
  selection_ok first_dropped = false.
Proof.
  split; [|repeat split; reflexivity].
  eapply reachable_step; [eapply reachable_step; [apply reachable_init|]|].
  - exact (eq_refl : reducer initialState
             (SetSelectedNode (node "1" "payment" "Payment of $300" 250 50))
             = Some first_selected).
  - exact (eq_refl : reducer first_selected
             (SetNodes (VArr [node "2" "location" "America" 250 150;
                              node "3" "gateway" "RazorPay" 250 250]))
             = Some first_dropped).
Qed.

(** *** Referential integrity of the edges *)

Lemma refers_kept st x st' k e i :
  (forall n, In n (nodes st') <-> In n (nodes st) /\ keeps_node x n = Some true) ->
  get_prop e k = Some i -> strict_eq i x = false ->
  refers (nodes st) k e = true -> refers (nodes st') k e = true.
Proof.
  intros Hn Hi Hne Href.
  apply refers_true in Href as (i' & n & Hi' & Hin & Hid).
  rewrite Hi in Hi'. injection Hi' as <-.
  unfold refers. rewrite Hi. apply existsb_exists. exists n.
  split; [|exact Hid]. apply Hn. split; [exact Hin|].
  unfold keeps_node. unfold has_id in Hid.
  destruct (get_prop n "id") as [j|]; [|discriminate].
  now rewrite (strict_eq_transfer _ _ x Hid), Hne.
Qed.

Lemma edges_ok_step st a st' :
  edges_ok st = true -> keeps_edges st a = true ->
  reducer st a = Some st' -> edges_ok st' = true.
Proof.
  intros Hok Hguard Hstep. destruct a as [p|p|p|p|p|p]; simpl in Hstep.
  - injection Hstep as <-. exact Hguard.
  - injection Hstep as <-. exact Hguard.
  - injection Hstep as <-. exact Hok.
  - injection Hstep as <-. unfold edges_ok in *. cbn [addNode nodes edges].
    rewrite forallb_forall in *. intros e Hin.
    specialize (Hok e Hin). apply andb_true_iff in Hok as [Hs Ht].
    apply andb_true_iff. split; now apply refers_app.
  - apply updateNodeLabel_Some in Hstep as (x & l & Hn & He & _).
    unfold edges_ok in *. rewrite Hn, He.
    rewrite forallb_forall in *. intros e Hin.
    rewrite !refers_relabelled. now apply Hok.
  - apply deleteNode_Some in Hstep as (Hn & He & _).
    unfold edges_ok in *. rewrite forallb_forall in *. intros e Hin.
    apply He in Hin as [Hin Hkeep]. specialize (Hok e Hin).
    apply andb_true_iff in Hok as [Hs Ht]. unfold keeps_edge in Hkeep.
    destruct (get_prop e "source") as [s|] eqn:Es; [|discriminate].
    destruct (strict_eq s p) eqn:Esp; [discriminate|]. cbn [negb] in Hkeep.
    destruct (get_prop e "target") as [t|] eqn:Et; [|discriminate].
    destruct (strict_eq t p) eqn:Etp; [discriminate|].
    apply andb_true_iff. split.
    + exact (refers_kept st p st' "source" e s Hn Es Esp Hs).
    + exact (refers_kept st p st' "target" e t Hn Et Etp Ht).
Qed.

(** C3, as the code has it: in every state reached from the initial state
    by actions that leave no edge dangling ([setNodes] and [setEdges] of
    sequences in which every edge end is a present node, and any
    [setSelectedNode], [addNode], [updateNodeLabel] or [deleteNode]), every
    edge's source and target are identifiers of present nodes. [deleteNode]
    removes the node and its edges in one step, so it keeps the property;
    [setNodes] leaves the edges as they are and [setEdges] the nodes. *)
Theorem edges_invariant :
  (forall st, reachable_by keeps_edges st -> edges_ok st = true) /\
  (forall st x st',
     edges_ok st = true -> deleteNode st x = Some st' -> edges_ok st' = true) /\
  (forall st p, edges (setNodes st p) = edges st) /\
  (forall st p, nodes (setEdges st p) = nodes st).
Proof.
  split; [|split; [|split]].
  - induction 1 as [|st a st' _ IH Hguard Hstep]; [reflexivity|].
    exact (edges_ok_step st a st' IH Hguard Hstep).
  - intros st x st' Hok H.
    exact (edges_ok_step st (DeleteNode x) st' Hok eq_refl H).
  - reflexivity.
  - reflexivity.
Qed.

Lemma edges_invariant_witness :
  exists st',
    deleteNode initialState (VStr "2") = Some st' /\
    reachable_by keeps_edges st' /\ edges_ok st' = true.
Proof.
  eexists. split; [reflexivity|].
  match goal with |- reachable_by _ ?s /\ _ =>
    assert (H : reachable_by keeps_edges s) end.
  { apply (reachable_by_step _ initialState (DeleteNode (VStr "2")));
      [apply reachable_by_init|reflexivity|reflexivity]. }
  split; [exact H|]. exact (proj1 edges_invariant _ H).
Defined.

(** C3 as stated fails: replacing the node sequence of the seed graph by the
    empty sequence leaves both seed edges in the store, on nodes that are no
    longer there. *)
Lemma edges_dangle_after_setNodes :
  reachable nodes_emptied /\
  nodes nodes_emptied = [] /\
  edges nodes_emptied = initialEdges /\
  edges_ok nodes_emptied = false.
Proof.
  split; [|repeat split; reflexivity].
  apply (reachable_step initialState (SetNodes (VArr [])));
    [apply reachable_init|reflexivity].
Qed.

End StoreFacts.

(** * Properties of the JSON text *)

Module JSONFacts.

Import JSON.

(** ** Numbers *)

Lemma parse_digits_stop c r :
  to_digit c = None -> parse_digits (String c r) = (Nil, String c r).
Proof. intros H. cbn [parse_digits]. now rewrite H. Qed.

Lemma parse_put_uint u k :
  delimited k = true -> parse_digits (put_uint u k) = (u, k).
Proof.
  intros Hk. induction u; cbn [put_uint];
    try (cbn [parse_digits to_digit nat_of_ascii]; rewrite IHu; reflexivity).
  destruct k as [|c r]; [reflexivity|]. apply parse_digits_stop.
  unfold delimited in Hk. now destruct (to_digit c).
Qed.

Lemma nzhead_leading u : nzhead u = Nil \/ leading (nzhead u) = true.
Proof. induction u; simpl; auto. Qed.

(** The decimal digits of a positive number start with a digit from 1
    to 9. *)
Lemma leading_to_uint p : leading (Pos.to_uint p) = true.
Proof.
  pose proof (DecimalPos.Unsigned.to_of (Pos.to_uint p)) as H.
  rewrite DecimalPos.Unsigned.of_to in H.
  change (N.to_uint (N.pos p)) with (Pos.to_uint p) in H.
  unfold unorm in H.
  destruct (nzhead_leading (Pos.to_uint p)) as [Hn|Hl].
  - rewrite Hn in H. now apply DecimalPos.Unsigned.to_uint_nonzero in H.
  - destruct (nzhead (Pos.to_uint p)); try discriminate Hl;
      rewrite H; reflexivity.
Qed.

Lemma delimited_not_fractional k : delimited k = true -> fractional k = false.
Proof.
  destruct k as [|c r]; [reflexivity|]. unfold delimited.
  destruct (to_digit c); [discriminate|]. now destruct (fractional _).
Qed.

Lemma parse_number_unsigned u k :
  leading u = true \/ u = D0 Nil -> delimited k = true ->
  parse_number (put_uint u k) = Some (VNum (Z.of_int (Pos u)), k).
Proof.
  intros Hu Hk. pose proof (parse_put_uint u k Hk) as Hd.
  pose proof (delimited_not_fractional k Hk) as Hf.
  destruct Hu as [Hu| ->].
  - destruct u; try discriminate Hu; cbn [put_uint] in *;
      unfold parse_number; cbn [Ascii.eqb Bool.eqb];
      rewrite Hd, Hf; reflexivity.
  - cbn [put_uint] in *. unfold parse_number. cbn [Ascii.eqb Bool.eqb].
    rewrite Hd, Hf. reflexivity.
Qed.

Lemma parse_number_negative u k :
  leading u = true -> delimited k = true ->
  parse_number (String "-" (put_uint u k)) = Some (VNum (Z.of_int (Neg u)), k).
Proof.
  intros Hu Hk. pose proof (parse_put_uint u k Hk) as Hd.
  pose proof (delimited_not_fractional k Hk) as Hf.
  unfold parse_number. cbn [Ascii.eqb Bool.eqb]. rewrite Hd, Hf.
  destruct u; try discriminate Hu; reflexivity.
Qed.

Lemma parse_put_number z k :
  delimited k = true -> parse_number (put_number z k) = Some (VNum z, k).
Proof.
  intros Hk. rewrite <- (DecimalZ.of_to z) at 2.
  unfold put_number. destruct z as [|p|p]; cbn [Z.to_int].
  - apply parse_number_unsigned; [now right|assumption].
  - apply parse_number_unsigned; [left; apply leading_to_uint|assumption].
  - apply parse_number_negative; [apply leading_to_uint|assumption].
Qed.

End JSONFacts.

(** * Properties of the persistence gateway *)

Module PersistFacts.

Import JSON JSONFacts workFlow.

(** A save writes the key that a load reads. *)
Lemma saved_key_present data ls :
  exists text, fst (apiService.saveWorkflow data ls) !! "savedWorkflow"
               = Some text.
Proof.
  eexists. unfold apiService.saveWorkflow, setItem. cbn [fst].
  apply lookup_insert_eq.
Qed.

(** C7: with nothing saved under the key, the load is rejected with the
    message that no saved workflow was found; the handler shows its status
    message, is no longer loading, and leaves the store's nodes, edges and
    selection as they were. *)
Theorem load_without_save (ls : gmap string string) (c : view) :
  ls !! "savedWorkflow" = None ->
  apiService.loadWorkflow ls =
    Rejected (VObj [("success", VBool false);
                    ("message", VStr "No saved workflow found")]) /\
  loadWorkflow ls c =
    {| flow := flow c; isLoading := false;
       statusMessage := VStr "No saved workflow found." |} /\
  flow (loadWorkflow ls c) = flow c.
Proof.
  intros Hnone.
  assert (Hrej : apiService.loadWorkflow ls =
    Rejected (VObj [("success", VBool false);
                    ("message", VStr "No saved workflow found")])).
  { unfold apiService.loadWorkflow, getItem. now rewrite Hnone. }
  split; [exact Hrej|]. unfold loadWorkflow. rewrite Hrej. split; reflexivity.
Qed.

Lemma load_without_save_witness :
  (∅ : gmap string string) !! "savedWorkflow" = None /\
  loadWorkflow ∅ {| flow := first_selected; isLoading := false;
                    statusMessage := VNull |} =
    {| flow := first_selected; isLoading := false;
       statusMessage := VStr "No saved workflow found." |}.
Proof.
  split; [reflexivity|].
  exact (proj1 (proj2 (load_without_save ∅
    {| flow := first_selected; isLoading := false; statusMessage := VNull |}
    eq_refl))).
Defined.

End PersistFacts.

(** * Further properties of the store *)

Module StoreMore.

Import JSFacts StoreFacts Handlers.

Lemma get_prop_None v k : get_prop v k = None <-> nullish v = true.
Proof. destruct v; simpl; split; congruence. Qed.

Lemma keeps_node_None x n : keeps_node x n = None <-> nullish n = true.
Proof.
  unfold keeps_node. rewrite <- (get_prop_None n "id").
  destruct (get_prop n "id"); split; congruence.
Qed.

Lemma keeps_edge_None x e : keeps_edge x e = None <-> nullish e = true.
Proof.
  destruct (nullish e) eqn:E.
  - destruct e; try discriminate E; simpl; tauto.
  - rewrite (keeps_edge_total x e E). split; discriminate.
Qed.

Lemma relabel_None x l n : relabel x l n = None <-> nullish n = true.
Proof.
  destruct (nullish n) eqn:E.
  - destruct n; try discriminate E; simpl; tauto.
  - rewrite (relabel_total x l n E). split; discriminate.
Qed.

Lemma array_filter_None (p : value -> option bool) l :
  array_filter p l = None <-> exists v, In v l /\ p v = None.
Proof.
  induction l as [|w l IH]; simpl.
  - split; [discriminate|]. now intros (v & [] & _).
  - destruct (p w) as [b|] eqn:Hw.
    + destruct (array_filter p l) as [vs|].
      * split; [discriminate|]. intros (v & [<-|Hin] & Hv); [congruence|].
        assert (H : Some vs = None) by (apply IH; eauto). discriminate H.
      * split; [|reflexivity]. intros _.
        destruct (proj1 IH eq_refl) as (v & Hin & Hv). eauto.
    + split; [|reflexivity]. intros _. exists w. auto.
Qed.

Lemma array_map_None (f : value -> option value) l :
  array_map f l = None <-> exists v, In v l /\ f v = None.
Proof.
  induction l as [|w l IH]; simpl.
  - split; [discriminate|]. now intros (v & [] & _).
  - destruct (f w) as [b|] eqn:Hw.
    + destruct (array_map f l) as [vs|].
      * split; [discriminate|]. intros (v & [<-|Hin] & Hv); [congruence|].
        assert (H : Some vs = None) by (apply IH; eauto). discriminate H.
      * split; [|reflexivity]. intros _.
        destruct (proj1 IH eq_refl) as (v & Hin & Hv). eauto.
    + split; [|reflexivity]. intros _. exists w. auto.
Qed.

Lemma not_has_nullish l :
  ~ has_nullish l <-> Forall (fun v => nullish v = false) l.
Proof.
  rewrite Forall_forall. unfold has_nullish. split.
  - intros H v Hin. destruct (nullish v) eqn:E; [|reflexivity].
    exfalso. apply H. exists v. split; [now apply list_elem_of_In|exact E].
  - intros H (v & Hin & Hv). apply list_elem_of_In in Hin.
    rewrite (H v Hin) in Hv. discriminate.
Qed.

Lemma has_nullish_dec l : has_nullish l \/ ~ has_nullish l.
Proof.
  induction l as [|v l [IH|IH]].
  - right. now intros (v & [] & _).
  - left. destruct IH as (w & Hin & Hw). exists w. split; [now right|exact Hw].
  - destruct (nullish v) eqn:E.
    + left. exists v. split; [now left|exact E].
    + right. intros (w & [<-|Hin] & Hw); [congruence|].
      apply IH. now exists w.
Qed.

Lemma Forall_not_nullish_filter (f : value -> bool) l :
  Forall (fun v => nullish v = false) l ->
  Forall (fun v => nullish v = false) (List.filter f l).
Proof.
  rewrite !Forall_forall. intros H v Hin. apply H.
  apply list_elem_of_In. apply list_elem_of_In in Hin.
  now apply filter_In in Hin as [Hin _].
Qed.

Lemma filter_swap (f g : value -> bool) l :
  List.filter f (List.filter g l) = List.filter g (List.filter f l).
Proof.
  induction l as [|v l IH]; simpl; [reflexivity|].
  destruct (g v) eqn:Hg, (f v) eqn:Hf; simpl; rewrite ?Hg, ?Hf, IH;
    reflexivity.
Qed.

Lemma filter_twice (f : value -> bool) l :
  List.filter f (List.filter f l) = List.filter f l.
Proof.
  induction l as [|v l IH]; simpl; [reflexivity|].
  destruct (f v) eqn:Hf; simpl; rewrite ?Hf, IH; reflexivity.
Qed.

(** A reducer that returned found no [null] or [undefined] entry. *)
Lemma deleteNode_Some_clean st x st' :
  deleteNode st x = Some st' ->
  Forall (fun v => nullish v = false) (nodes st) /\
  Forall (fun v => nullish v = false) (edges st).
Proof.
  unfold deleteNode. intros H.
  destruct (array_filter (keeps_node x) (nodes st)) eqn:Hn; [|discriminate].
  destruct (array_filter (keeps_edge x) (edges st)) eqn:He; [|discriminate].
  split; apply not_has_nullish; intros (v & Hin & Hv).
  - assert (Hno : array_filter (keeps_node x) (nodes st) = None).
    { apply array_filter_None. exists v. split; [exact Hin|].
      now apply keeps_node_None. }
    congruence.
  - assert (Hno : array_filter (keeps_edge x) (edges st) = None).
    { apply array_filter_None. exists v. split; [exact Hin|].
      now apply keeps_edge_None. }
    congruence.
Qed.

Lemma updateNodeLabel_payload st p x l :
  get_prop p "nodeId" = Some x -> get_prop p "newLabel" = Some l ->
  updateNodeLabel st p = updateNodeLabel st (label_payload x l).
Proof. intros Hx Hl. unfold updateNodeLabel. now rewrite Hx, Hl. Qed.

Lemma updateNodeLabel_Some_clean st p st' :
  updateNodeLabel st p = Some st' ->
  nullish p = false /\ Forall (fun v => nullish v = false) (nodes st).
Proof.
  unfold updateNodeLabel. intros H.
  destruct (get_prop p "nodeId") as [x|] eqn:Hx; [|discriminate].
  destruct (get_prop p "newLabel") as [l|] eqn:Hl; [|discriminate].
  split.
  - destruct (nullish p) eqn:E; [|reflexivity].
    apply (get_prop_None p "nodeId") in E. congruence.
  - destruct (array_map (relabel x l) (nodes st)) eqn:Hm; [|discriminate].
    apply not_has_nullish. intros (v & Hin & Hv).
    assert (Hno : array_map (relabel x l) (nodes st) = None).
    { apply array_map_None. exists v. split; [exact Hin|].
      now apply relabel_None. }
    congruence.
Qed.

(** X1: [deleteNode] throws exactly when the node sequence or the edge
    sequence holds a [null] or [undefined] entry, whatever the identifier. *)
Theorem deleteNode_throws_iff (st : state) (x : value) :
  deleteNode st x = None <->
  has_nullish (nodes st) \/ has_nullish (edges st).
Proof.
  split.
  - intros H.
    destruct (has_nullish_dec (nodes st)) as [Hn|Hn]; [now left|].
    destruct (has_nullish_dec (edges st)) as [He|He]; [now right|].
    apply not_has_nullish in Hn, He.
    rewrite (deleteNode_total st x Hn He) in H. discriminate.
  - intros H. destruct (deleteNode st x) as [st'|] eqn:E; [|reflexivity].
    apply deleteNode_Some_clean in E as [Hn He].
    apply not_has_nullish in Hn, He. tauto.
Qed.

Lemma deleteNode_throws_iff_witness :
  deleteNode (addNode initialState VNull) (VStr "1") = None /\
  deleteNode initialState (VStr "1") <> None.
Proof.
  split.
  - apply (proj2 (deleteNode_throws_iff (addNode initialState VNull)
                    (VStr "1"))).
    left. exists VNull. split; [|reflexivity].
    apply in_or_app. right. now left.
  - discriminate.
Defined.

(** X2: [updateNodeLabel] throws exactly when its payload is [null] or
    [undefined] or the node sequence holds a [null] or [undefined] entry;
    the selection and the edges play no part. *)
Theorem updateNodeLabel_throws_iff (st : state) (p : value) :
  updateNodeLabel st p = None <->
  nullish p = true \/ has_nullish (nodes st).
Proof.
  split.
  - intros H. destruct (nullish p) eqn:Ep; [now left|]. right.
    destruct (has_nullish_dec (nodes st)) as [Hn|Hn]; [exact Hn|].
    apply not_has_nullish in Hn.
    destruct (get_prop_not_nullish p "nodeId" Ep) as [x Hx].
    destruct (get_prop_not_nullish p "newLabel" Ep) as [l Hl].
    rewrite (updateNodeLabel_payload st p x l Hx Hl) in H.
    rewrite (updateNodeLabel_total st x l Hn) in H. discriminate.
  - intros H. destruct (updateNodeLabel st p) as [st'|] eqn:E; [|reflexivity].
    apply updateNodeLabel_Some_clean in E as [Hp Hn].
    apply not_has_nullish in Hn. destruct H as [H|H]; [congruence|tauto].
Qed.

Lemma updateNodeLabel_throws_iff_witness :
  updateNodeLabel initialState VUndefined = None /\
  updateNodeLabel (addNode initialState VNull)
    (label_payload (VStr "1") (VStr "x")) = None.
Proof.
  split.
  - apply (proj2 (updateNodeLabel_throws_iff initialState VUndefined)).
    now left.
  - apply (proj2 (updateNodeLabel_throws_iff (addNode initialState VNull)
                    (label_payload (VStr "1") (VStr "x")))).
    right. exists VNull. split; [|reflexivity].
    apply in_or_app. right. now left.
Defined.

(** X3: deleting the same identifier again changes nothing: a second
    [deleteNode(x)] returns the state the first one returned. *)
Theorem deleteNode_idempotent (st : state) (x : value) (st' : state) :
  deleteNode st x = Some st' -> deleteNode st' x = Some st'.
Proof.
  intros H. destruct (deleteNode_Some_clean st x st' H) as [Hn He].
  rewrite (deleteNode_total st x Hn He) in H. injection H as <-.
  rewrite deleteNode_total; cbn [nodes edges];
    try now apply Forall_not_nullish_filter.
  now rewrite !filter_twice.
Qed.

Lemma deleteNode_idempotent_witness :
  exists st',
    deleteNode initialState (VStr "2") = Some st' /\
    deleteNode st' (VStr "2") = Some st'.
Proof.
  eexists. split; [reflexivity|].
  exact (deleteNode_idempotent initialState (VStr "2") _ eq_refl).
Defined.

(** X4: two deletions commute: deleting [x] and then [y] returns the state
    that deleting [y] and then [x] returns. *)
Theorem deleteNode_commutes (st : state) (x y : value) (s1 s2 : state) :
  deleteNode st x = Some s1 -> deleteNode s1 y = Some s2 ->
  exists s1', deleteNode st y = Some s1' /\ deleteNode s1' x = Some s2.
Proof.
  intros H1 H2. destruct (deleteNode_Some_clean st x s1 H1) as [Hn He].
  rewrite (deleteNode_total st x Hn He) in H1. injection H1 as <-.
  rewrite deleteNode_total in H2; cbn [nodes edges];
    try now apply Forall_not_nullish_filter.
  cbn [nodes edges] in H2. injection H2 as <-.
  eexists. split; [apply (deleteNode_total st y Hn He)|].
  rewrite deleteNode_total; cbn [nodes edges];
    try now apply Forall_not_nullish_filter.
  f_equal. f_equal; apply filter_swap.
Qed.

Lemma deleteNode_commutes_witness :
  exists s1 s2 s1',
    deleteNode initialState (VStr "1") = Some s1 /\
    deleteNode s1 (VStr "3") = Some s2 /\
    deleteNode initialState (VStr "3") = Some s1' /\
    deleteNode s1' (VStr "1") = Some s2 /\
    nodes s2 = [node "2" "location" "America" 250 150].
Proof.
  destruct (deleteNode_commutes initialState (VStr "1") (VStr "3") _ _
              eq_refl eq_refl) as (s1' & Ha & Hb).
  eexists _, _, s1'. split; [reflexivity|]. split; [reflexivity|].
  split; [exact Ha|]. split; [exact Hb|reflexivity].
Defined.

Lemma set_prop_twice k v w ps :
  set_prop k v (set_prop k w ps) = set_prop k v ps.
Proof.
  induction ps as [|[k' v'] ps IH]; cbn [set_prop].
  - now rewrite String.eqb_refl.
  - destruct (String.eqb k k') eqn:E; cbn [set_prop].
    + now rewrite String.eqb_refl.
    + now rewrite E, IH.
Qed.

(** [relabelled] in terms of the spread properties alone. *)
Lemma relabelled_spread x l n :
  has_id x n = true ->
  relabelled x l n =
  VObj (set_prop "data"
          (VObj (set_prop "label" l
                   (spread (default VUndefined
                              (lookup_prop "data" (spread n))))))
          (spread n)).
Proof.
  intros H. unfold relabelled. rewrite H.
  destruct n; try discriminate H; cbn [get_prop spread from_option id];
    try reflexivity.
  - now rewrite (lookup_indexed_named "data" _ "d" "ata" eq_refl eq_refl).
  - now rewrite (lookup_indexed_named "data" _ "d" "ata" eq_refl eq_refl).
Qed.

Lemma relabelled_twice x l1 l2 n :
  relabelled x l2 (relabelled x l1 n) = relabelled x l2 n.
Proof.
  destruct (has_id x n) eqn:H.
  - assert (H1 : has_id x (relabelled x l1 n) = true)
      by now rewrite relabelled_id.
    rewrite (relabelled_spread x l2 _ H1), (relabelled_spread x l2 n H).
    rewrite (relabelled_spread x l1 n H). cbn [spread].
    rewrite lookup_set_prop_eq. cbn [from_option id spread].
    now rewrite !set_prop_twice.
  - now rewrite (relabelled_other x l1 n H).
Qed.

Lemma map_relabelled_twice x l1 l2 ns :
  List.map (relabelled x l2) (List.map (relabelled x l1) ns) =
  List.map (relabelled x l2) ns.
Proof.
  rewrite List.map_map. apply List.map_ext. intros n.
  apply relabelled_twice.
Qed.

Lemma relabelled_truthy x l n :
  has_id x n = true -> truthy (relabelled x l n) = true.
Proof. intros H. unfold relabelled. now rewrite H. Qed.

(** X5: the last label wins: relabelling [x] to [l1] and then to [l2]
    returns the state that relabelling [x] to [l2] alone returns, selection
    included. *)
Theorem updateNodeLabel_last_wins (st : state) (x l1 l2 : value) (s1 : state) :
  updateNodeLabel st (label_payload x l1) = Some s1 ->
  updateNodeLabel s1 (label_payload x l2) =
  updateNodeLabel st (label_payload x l2).
Proof.
  intros H1. destruct (updateNodeLabel_Some_clean _ _ _ H1) as [_ Hn].
  rewrite (updateNodeLabel_total st x l1 Hn) in H1. injection H1 as <-.
  rewrite (updateNodeLabel_total st x l2 Hn).
  rewrite updateNodeLabel_total; cbn [nodes].
  2:{ rewrite Forall_forall in *. intros n' Hin.
      apply list_elem_of_In, in_map_iff in Hin as (n & <- & Hin).
      apply relabelled_not_nullish, Hn. now apply list_elem_of_In. }
  cbn [edges]. f_equal. rewrite map_relabelled_twice. f_equal.
  unfold refreshed at 1. cbn [nodes selectedNode].
  rewrite map_relabelled_twice. unfold refreshed.
  destruct (truthy (selectedNode st) && has_id x (selectedNode st)) eqn:E.
  - rewrite !find_relabelled.
    destruct (List.find (has_id x) (nodes st)) as [n0|] eqn:Hfind;
      cbn [option_map from_option id]; [|reflexivity].
    destruct (find_some _ _ Hfind) as [_ Hid].
    now rewrite (relabelled_truthy x l1 n0 Hid), relabelled_id, Hid.
  - now rewrite E.
Qed.

Lemma updateNodeLabel_last_wins_witness :
  exists s1 s2,
    updateNodeLabel first_selected
      (label_payload (VStr "1") (VStr "Payment of $4")) = Some s1 /\
    updateNodeLabel s1
      (label_payload (VStr "1") (VStr "Payment of $40")) = Some s2 /\
    updateNodeLabel first_selected
      (label_payload (VStr "1") (VStr "Payment of $40")) = Some s2 /\
    label_of (selectedNode s2) = Some (VStr "Payment of $40").
Proof.
  eexists _, _. split; [reflexivity|].
  pose proof (updateNodeLabel_last_wins first_selected (VStr "1")
                (VStr "Payment of $4") (VStr "Payment of $40") _ eq_refl) as H.
  split; [exact H|]. split; reflexivity.
Defined.

Lemma map_has_id_relabelled x l y ns :
  List.map (has_id y) (List.map (relabelled x l) ns) = List.map (has_id y) ns.
Proof.
  rewrite List.map_map. apply List.map_ext. intros n. apply relabelled_id.
Qed.

(** X6: whatever its payload, an [updateNodeLabel] that returns keeps the
    number of nodes, the identifier of the node at every position and the
    edge sequence, and it keeps the selection on a present node and the
    edges on present nodes when they were. *)
Theorem updateNodeLabel_keeps_shape (st : state) (p : value) (st' : state) :
  updateNodeLabel st p = Some st' ->
  List.length (nodes st') = List.length (nodes st) /\
  (forall y, List.map (has_id y) (nodes st') = List.map (has_id y) (nodes st))
  /\ edges st' = edges st /\
  (selection_ok st = true -> selection_ok st' = true) /\
  (edges_ok st = true -> edges_ok st' = true).
Proof.
  intros H. pose proof (updateNodeLabel_Some st p st' H)
    as (x & l & Hn & He & _).
  split; [now rewrite Hn, List.length_map|].
  split; [intros y; rewrite Hn; apply map_has_id_relabelled|].
  split; [exact He|]. split.
  - intros Hok. exact (selection_ok_step st (UpdateNodeLabel p) st' Hok
                         eq_refl H).
  - intros Hok. exact (edges_ok_step st (UpdateNodeLabel p) st' Hok eq_refl H).
Qed.

Lemma updateNodeLabel_keeps_shape_witness :
  exists st',
    updateNodeLabel first_selected
      (label_payload (VStr "2") (VStr "Europe")) = Some st' /\
    List.length (nodes st') = 3%nat /\ edges st' = initialEdges /\
    selection_ok st' = true /\ edges_ok st' = true.
Proof.
  eexists. split; [reflexivity|].
  destruct (updateNodeLabel_keeps_shape first_selected
              (label_payload (VStr "2") (VStr "Europe")) _ eq_refl)
    as (Hlen & _ & He & Hs & Hok).
  split; [exact Hlen|]. split; [exact He|].
  split; [exact (Hs eq_refl)|exact (Hok eq_refl)].
Defined.

Lemma array_filter_snoc (p : value -> option bool) l v :
  p v = Some false -> array_filter p (l ++ [v]) = array_filter p l.
Proof.
  intros Hv. induction l as [|w l IH]; simpl.
  - now rewrite Hv.
  - destruct (p w); [|reflexivity]. now rewrite IH.
Qed.

Lemma has_id_not_nullish x n : has_id x n = true -> nullish n = false.
Proof. now destruct n. Qed.

(** X7: the store does not look at identifiers when it adds: after
    [addNode(p)], [deleteNode] of the identifier of [p] returns what it
    returns without the addition, so it removes [p] together with every
    older node that has the same identifier. When the identifier is new and
    no edge is on it, adding and deleting gives back the nodes and edges. *)
Theorem addNode_then_deleteNode (st : state) (p x : value) :
  has_id x p = true ->
  deleteNode (addNode st p) x = deleteNode st x /\
  (records (nodes st) -> records (edges st) ->
   (forall n, In n (nodes st) -> has_id x n = false) ->
   (forall e, In e (edges st) -> touches x e = false) ->
   deleteNode (addNode st p) x =
     Some {| nodes := nodes st; edges := edges st; selectedNode := VNull |}).
Proof.
  intros Hp.
  assert (Heq : deleteNode (addNode st p) x = deleteNode st x).
  { unfold deleteNode, addNode. cbn [nodes edges].
    rewrite array_filter_snoc; [reflexivity|].
    rewrite keeps_node_total by now apply (has_id_not_nullish x).
    now rewrite Hp. }
  split; [exact Heq|]. intros Hn He Hno Hnt. rewrite Heq.
  rewrite deleteNode_total by now apply records_not_nullish.
  f_equal. f_equal; apply filter_all; intros v Hin.
  - now rewrite (Hno v Hin).
  - now rewrite (Hnt v Hin).
Qed.

Lemma addNode_then_deleteNode_witness :
  has_id (VStr "2") (node "2" "gateway" "PayPal" 0 0) = true /\
  deleteNode (addNode initialState (node "2" "gateway" "PayPal" 0 0))
    (VStr "2") =
  Some {| nodes := [node "1" "payment" "Payment of $300" 250 50;
                    node "3" "gateway" "RazorPay" 250 250];
          edges := []; selectedNode := VNull |}.
Proof.
  split; [reflexivity|].
  rewrite (proj1 (addNode_then_deleteNode initialState
                    (node "2" "gateway" "PayPal" 0 0) (VStr "2") eq_refl)).
  reflexivity.
Defined.

Lemma forallb_not_nullish l :
  forallb (fun v => negb (nullish v)) l = true <->
  Forall (fun v => nullish v = false) l.
Proof.
  rewrite forallb_forall, Forall_forall. split; intros H v Hin.
  - apply negb_true_iff. apply H. now apply list_elem_of_In.
  - apply negb_true_iff. apply H. now apply list_elem_of_In.
Qed.

Lemma clean_spec st :
  clean st = true <->
  Forall (fun v => nullish v = false) (nodes st) /\
  Forall (fun v => nullish v = false) (edges st).
Proof.
  unfold clean. now rewrite andb_true_iff, !forallb_not_nullish.
Qed.

Lemma clean_step st a st' :
  clean st = true -> well_formed a = true -> reducer st a = Some st' ->
  clean st' = true.
Proof.
  rewrite !clean_spec. intros [Hn He] Hwf Hstep.
  destruct a as [p|p|p|p|p|p]; cbn [reducer well_formed] in *.
  - injection Hstep as <-. cbn [setNodes nodes edges].
    split; [now apply forallb_not_nullish|exact He].
  - injection Hstep as <-. cbn [setEdges nodes edges].
    split; [exact Hn|now apply forallb_not_nullish].
  - injection Hstep as <-. now split.
  - injection Hstep as <-. cbn [addNode nodes edges]. split; [|exact He].
    apply Forall_app. split; [exact Hn|]. constructor; [|constructor].
    now apply negb_true_iff.
  - apply updateNodeLabel_Some in Hstep as (x & l & Hn' & He' & _).
    rewrite Hn', He'. split; [|exact He].
    rewrite Forall_forall in *. intros n' Hin.
    apply list_elem_of_In, in_map_iff in Hin as (n & <- & Hin).
    apply relabelled_not_nullish, Hn. now apply list_elem_of_In.
  - destruct (deleteNode_Some_clean st p st' Hstep) as [Hn0 He0].
    rewrite (deleteNode_total st p Hn0 He0) in Hstep. injection Hstep as <-.
    cbn [nodes edges]. split; now apply Forall_not_nullish_filter.
Qed.

Lemma clean_defined st a :
  clean st = true -> well_formed a = true -> exists st', reducer st a = Some st'.
Proof.
  rewrite clean_spec. intros [Hn He] Hwf.
  destruct a as [p|p|p|p|p|p]; cbn [reducer well_formed] in *; eauto.
  - apply negb_true_iff in Hwf.
    destruct (get_prop_not_nullish p "nodeId" Hwf) as [x Hx].
    destruct (get_prop_not_nullish p "newLabel" Hwf) as [l Hl].
    rewrite (updateNodeLabel_payload st p x l Hx Hl).
    rewrite (updateNodeLabel_total st x l Hn). eauto.
  - rewrite (deleteNode_total st p Hn He). eauto.
Qed.

(** X17: along every run from the initial state of actions whose payloads
    have no [null] or [undefined] where the reducers read properties, the
    store never holds a [null] or [undefined] node or edge, and no reducer
    throws. *)
Theorem well_formed_runs_never_throw (st : state) (a : action) :
  reachable_by (fun _ b => well_formed b) st ->
  clean st = true /\
  (well_formed a = true -> exists st', reducer st a = Some st').
Proof.
  intros Hreach.
  assert (Hclean : clean st = true).
  { induction Hreach as [|s b s' _ IH Hwf Hstep]; [reflexivity|].
    exact (clean_step s b s' IH Hwf Hstep). }
  split; [exact Hclean|]. now apply clean_defined.
Qed.

Lemma well_formed_runs_never_throw_witness :
  reachable_by (fun _ b => well_formed b)
    (addNode initialState (node "4" "gateway" "PayPal" 0 0)) /\
  exists st',
    reducer (addNode initialState (node "4" "gateway" "PayPal" 0 0))
      (DeleteNode (VStr "4")) = Some st'.
Proof.
  assert (H : reachable_by (fun _ b => well_formed b)
                (addNode initialState (node "4" "gateway" "PayPal" 0 0))).
  { apply (reachable_by_step _ initialState
             (AddNode (node "4" "gateway" "PayPal" 0 0)));
      [apply reachable_by_init|reflexivity|reflexivity]. }
  split; [exact H|].
  exact (proj2 (well_formed_runs_never_throw _ (DeleteNode (VStr "4")) H)
           eq_refl).
Defined.

End StoreMore.

(** * Properties of the event handlers *)

Module HandlerFacts.

Import JSFacts StoreFacts StoreMore Handlers JSON JSONFacts.

Lemma truthy_not_nullish v : truthy v = true -> nullish v = false.
Proof. now destruct v. Qed.

(** The identifier of a selection that is on a present node is identical
    to itself: it is a primitive value. *)
Lemma selected_id st :
  truthy (selectedNode st) = true -> selection_ok st = true ->
  exists i n,
    get_prop (selectedNode st) "id" = Some i /\
    has_id i (selectedNode st) = true /\
    In n (nodes st) /\ has_id i n = true.
Proof.
  intros Ht Hok. unfold selection_ok in Hok. rewrite Ht in Hok.
  cbn [negb orb] in Hok.
  apply refers_true in Hok as (i & n & Hi & Hin & Hid).
  exists i, n. split; [exact Hi|]. split; [|split; assumption].
  unfold has_id in *. rewrite Hi.
  destruct (get_prop n "id") as [j|]; [|discriminate].
  pose proof (strict_eq_true _ _ Hid) as ->. exact Hid.
Qed.

(** X8: [deleteSelectedNode] does nothing when nothing is selected.
    Otherwise it removes every node with the selected identifier and every
    edge on it and leaves nothing selected, so that a second call does
    nothing, and it keeps the edges on present nodes when they were. *)
Theorem deleteSelectedNode_removes (st : state) :
  (truthy (selectedNode st) = false -> deleteSelectedNode st = Some st) /\
  (truthy (selectedNode st) = true ->
   records (nodes st) -> records (edges st) ->
   exists i st',
     get_prop (selectedNode st) "id" = Some i /\
     deleteSelectedNode st = Some st' /\
     nodes st' = List.filter (fun n => negb (has_id i n)) (nodes st) /\
     edges st' = List.filter (fun e => negb (touches i e)) (edges st) /\
     selectedNode st' = VNull /\
     deleteSelectedNode st' = Some st' /\
     (edges_ok st = true -> edges_ok st' = true)).
Proof.
  split.
  - intros Hf. unfold deleteSelectedNode. now rewrite Hf.
  - intros Ht Hn He.
    destruct (get_prop_not_nullish (selectedNode st) "id"
                (truthy_not_nullish _ Ht)) as [i Hi].
    exists i. eexists. split; [exact Hi|].
    assert (Hrun : deleteSelectedNode st = deleteNode st i).
    { unfold deleteSelectedNode. now rewrite Ht, Hi. }
    rewrite Hrun.
    split; [apply deleteNode_total; now apply records_not_nullish|].
    cbn [nodes edges selectedNode].
    split; [reflexivity|]. split; [reflexivity|]. split; [reflexivity|].
    split; [reflexivity|]. intros Hok.
    apply (edges_ok_step st (DeleteNode i) _ Hok eq_refl).
    apply deleteNode_total; now apply records_not_nullish.
Qed.

Lemma deleteSelectedNode_removes_witness :
  truthy (selectedNode first_selected) = true /\
  records (nodes first_selected) /\ records (edges first_selected) /\
  exists st',
    deleteSelectedNode first_selected = Some st' /\
    nodes st' = [node "2" "location" "America" 250 150;
                 node "3" "gateway" "RazorPay" 250 250] /\
    edges st' = [edge "e2-3" "2" "3" "custom"] /\
    deleteSelectedNode st' = Some st'.
Proof.
  assert (Hn : records (nodes first_selected)) by (repeat constructor).
  assert (He : records (edges first_selected)) by (repeat constructor).
  split; [reflexivity|]. split; [exact Hn|]. split; [exact He|].
  destruct (proj2 (deleteSelectedNode_removes first_selected) eq_refl Hn He)
    as (i & st' & Hi & Hrun & Hnodes & Hedges & _ & Htwice & _).
  injection Hi as <-.
  exists st'. split; [exact Hrun|]. split; [exact Hnodes|].
  split; [exact Hedges|exact Htwice].
Defined.

(** X9: [handleUpdateNodeLabel] does nothing when nothing is selected.
    When the selection is on a present node, it returns a store in which
    the selection is a node of the sequence with the same identifier and
    the new label, so that the next edit finds the selection in place. *)
Theorem handleUpdateNodeLabel_keeps_editing (st : state) (l : value) :
  (truthy (selectedNode st) = false ->
   handleUpdateNodeLabel l st = Some st) /\
  (records (nodes st) -> truthy (selectedNode st) = true ->
   selection_ok st = true ->
   exists st',
     handleUpdateNodeLabel l st = Some st' /\
     truthy (selectedNode st') = true /\
     In (selectedNode st') (nodes st') /\
     label_of (selectedNode st') = Some l /\
     get_prop (selectedNode st') "id" = get_prop (selectedNode st) "id" /\
     selection_ok st' = true).
Proof.
  split.
  - intros Hf. unfold handleUpdateNodeLabel. now rewrite Hf.
  - intros Hrec Ht Hok.
    destruct (selected_id st Ht Hok) as (i & n & Hi & Hsel & Hin & Hid).
    assert (Hrun : handleUpdateNodeLabel l st =
                   updateNodeLabel st (label_payload i l)).
    { unfold handleUpdateNodeLabel. now rewrite Ht, Hi. }
    destruct (List.find (has_id i) (nodes st)) as [n0|] eqn:Hfind.
    2:{ pose proof (find_none _ _ Hfind n Hin). congruence. }
    destruct (find_some _ _ Hfind) as [Hin0 Hid0].
    assert (Href : refreshed i l st = relabelled i l n0).
    { unfold refreshed. now rewrite Ht, Hsel, find_relabelled, Hfind. }
    eexists. rewrite Hrun. split.
    { apply updateNodeLabel_total. now apply records_not_nullish. }
    cbn [nodes selectedNode]. rewrite Href.
    assert (Hmem : In (relabelled i l n0)
                      (List.map (relabelled i l) (nodes st)))
      by now apply in_map.
    assert (Hid' : has_id i (relabelled i l n0) = true)
      by now rewrite relabelled_id.
    split; [now apply relabelled_truthy|]. split; [exact Hmem|].
    split; [now apply relabelled_label|]. split.
    + rewrite Hi. unfold has_id in Hid'.
      destruct (get_prop (relabelled i l n0) "id") as [j|]; [|discriminate].
      now rewrite (strict_eq_true _ _ Hid').
    + unfold selection_ok. cbn [nodes selectedNode].
      apply orb_true_iff. right. unfold refers.
      unfold has_id in Hid'.
      destruct (get_prop (relabelled i l n0) "id") as [j|] eqn:Hj;
        [|discriminate].
      apply existsb_exists. exists (relabelled i l n0).
      split; [exact Hmem|]. unfold has_id. rewrite Hj.
      exact (strict_eq_join _ _ _ Hid' Hid').
Qed.

Lemma handleUpdateNodeLabel_keeps_editing_witness :
  records (nodes first_selected) /\
  truthy (selectedNode first_selected) = true /\
  selection_ok first_selected = true /\
  exists st',
    handleUpdateNodeLabel (VStr "Payment of $999") first_selected = Some st' /\
    label_of (selectedNode st') = Some (VStr "Payment of $999") /\
    selection_ok st' = true.
Proof.
  assert (Hn : records (nodes first_selected)) by (repeat constructor).
  split; [exact Hn|]. split; [reflexivity|]. split; [reflexivity|].
  destruct (proj2 (handleUpdateNodeLabel_keeps_editing first_selected
                     (VStr "Payment of $999")) Hn eq_refl eq_refl)
    as (st' & Hrun & _ & _ & Hlab & _ & Hok).
  exists st'. split; [exact Hrun|]. split; [exact Hlab|exact Hok].
Defined.

Lemma number_text_inj a b : number_text a = number_text b -> a = b.
Proof.
  unfold number_text. intros H.
  pose proof (parse_put_number a "" eq_refl) as Ha.
  pose proof (parse_put_number b "" eq_refl) as Hb.
  rewrite H in Ha. rewrite Ha in Hb. now injection Hb.
Qed.

Lemma number_text_eqb a b :
  String.eqb (number_text a) (number_text b) = Z.eqb a b.
Proof.
  destruct (Z.eqb a b) eqn:E.
  - apply Z.eqb_eq in E. subst. apply String.eqb_refl.
  - apply String.eqb_neq. intros H. apply number_text_inj in H.
    apply Z.eqb_neq in E. contradiction.
Qed.

Lemma onDrop_adds ty lb pos t st :
  ty <> "" -> lb <> "" ->
  onDrop true ty lb pos t st = addNode st (newNode t ty lb pos).
Proof.
  intros Hty Hlb. unfold onDrop. cbn [negb truthy].
  apply String.eqb_neq in Hty, Hlb. now rewrite Hty, Hlb.
Qed.

Lemma records_app l l' : records l -> records l' -> records (l ++ l').
Proof. unfold records. intros H H'. apply Forall_app. now split. Qed.

(** X10: two drops append two nodes whose identifiers are the texts of
    their times. Selecting the second one and deleting it removes every
    older node with that identifier; it removes the first dropped node too
    exactly when both were dropped in the same millisecond. *)
Theorem dropped_nodes_identified_by_time (st : state)
    (ty1 lb1 ty2 lb2 : string) (pos1 pos2 : value) (t1 t2 : Z) :
  records (nodes st) -> records (edges st) ->
  ty1 <> "" -> lb1 <> "" -> ty2 <> "" -> lb2 <> "" ->
  nodes (onDrop true ty2 lb2 pos2 t2 (onDrop true ty1 lb1 pos1 t1 st)) =
    nodes st ++ [newNode t1 ty1 lb1 pos1; newNode t2 ty2 lb2 pos2] /\
  exists st',
    deleteSelectedNode
      (onNodeClick (newNode t2 ty2 lb2 pos2)
         (onDrop true ty2 lb2 pos2 t2 (onDrop true ty1 lb1 pos1 t1 st)))
      = Some st' /\
    nodes st' =
      List.filter (fun n => negb (has_id (VStr (number_text t2)) n)) (nodes st)
      ++ (if Z.eqb t1 t2 then [] else [newNode t1 ty1 lb1 pos1]).
Proof.
  intros Hn He Hty1 Hlb1 Hty2 Hlb2.
  rewrite !onDrop_adds by assumption.
  assert (Hnodes : nodes (addNode (addNode st (newNode t1 ty1 lb1 pos1))
                            (newNode t2 ty2 lb2 pos2)) =
                   nodes st ++ [newNode t1 ty1 lb1 pos1;
                                newNode t2 ty2 lb2 pos2]).
  { cbn [addNode nodes]. now rewrite <- app_assoc. }
  split; [exact Hnodes|]. eexists. split.
  - unfold deleteSelectedNode, onNodeClick.
    cbn [setSelectedNode selectedNode truthy newNode get_prop lookup_prop].
    cbn [String.eqb Ascii.eqb Bool.eqb from_option id].
    apply deleteNode_total; cbn [nodes edges addNode].
    + apply records_not_nullish. repeat apply records_app; try assumption;
        repeat constructor.
    + now apply records_not_nullish.
  - unfold onNodeClick. cbn [nodes addNode setSelectedNode].
    rewrite <- app_assoc. cbn [app].
    rewrite List.filter_app. f_equal. cbn [List.filter].
    unfold has_id, newNode.
    cbn [get_prop lookup_prop String.eqb Ascii.eqb Bool.eqb from_option id
         strict_eq].
    rewrite number_text_eqb, String.eqb_refl. cbn [negb].
    now destruct (Z.eqb t1 t2).
Qed.

Lemma dropped_nodes_identified_by_time_witness :
  exists st',
    deleteSelectedNode
      (onNodeClick (newNode 1700000000000 "location" "UK" VNull)
         (onDrop true "location" "UK" VNull 1700000000000
            (onDrop true "payment" "Payment of $400" VNull 1700000000000
               initialState)))
      = Some st' /\
    nodes st' = initialNodes.
Proof.
  assert (Hn : records (nodes initialState)) by (repeat constructor).
  assert (He : records (edges initialState)) by (repeat constructor).
  destruct (dropped_nodes_identified_by_time initialState
              "payment" "Payment of $400" "location" "UK" VNull VNull
              1700000000000 1700000000000 Hn He)
    as (_ & st' & Hrun & Hnodes); try discriminate.
  exists st'. split; [exact Hrun|]. rewrite Hnodes. reflexivity.
Defined.

Lemma getData_onDragStart ty lb dt :
  getData "nodeType" (onDragStart ty lb dt) = ty /\
  getData "nodeLabel" (onDragStart ty lb dt) = lb.
Proof.
  unfold getData, onDragStart, setData. split.
  - rewrite lookup_insert_ne by discriminate. now rewrite lookup_insert_eq.
  - now rewrite lookup_insert_eq.
Qed.

Lemma sidebar_item_named ty title items item :
  In (ty, title, items) sidebarNodeTypes -> In item items ->
  ty <> "" /\ item <> "".
Proof.
  intros Hc Hi. unfold sidebarNodeTypes in Hc.
  repeat (destruct Hc as [[= <- <- <-]|Hc];
          [repeat (destruct Hi as [<-|Hi]; [split; discriminate|]);
           destruct Hi|]).
  destruct Hc.
Qed.

Lemma onDrop_cases ready ty lb position now st :
  onDrop ready ty lb position now st =
  if ready && negb (String.eqb ty "") && negb (String.eqb lb "")
  then addNode st (newNode now ty lb position)
  else st.
Proof.
  unfold onDrop. cbn [truthy]. destruct ready; [|reflexivity].
  cbn [negb andb].
  destruct (String.eqb ty ""); [reflexivity|].
  destruct (String.eqb lb ""); reflexivity.
Qed.

(** X18: dragging any item of the sidebar and dropping it on the ready
    canvas adds one node with the category's type and the item as its
    label, whatever else the drag data holds, and dropping it before the
    canvas is ready adds nothing. For any drag data, whoever set it, a
    drop adds a node exactly when the canvas is ready and the data hold a
    [nodeType] and a [nodeLabel] that are not empty, and the node has these
    two strings for its type and its label; drag data that lack one of the
    two formats add nothing. *)
Theorem sidebar_items_can_be_dropped (ty title item : string)
    (items : list string) (dt other : gmap string string) (ready : bool)
    (position : value) (now : Z) (st : state) :
  In (ty, title, items) sidebarNodeTypes -> In item items ->
  onDropEvent (onDragStart ty item dt) true position now st =
    addNode st (newNode now ty item position) /\
  onDropEvent (onDragStart ty item dt) false position now st = st /\
  onDropEvent other ready position now st =
    (if ready && negb (String.eqb (getData "nodeType" other) "")
              && negb (String.eqb (getData "nodeLabel" other) "")
     then addNode st (newNode now (getData "nodeType" other)
                        (getData "nodeLabel" other) position)
     else st) /\
  (other !! "nodeType" = None \/ other !! "nodeLabel" = None ->
   onDropEvent other ready position now st = st).
Proof.
  intros Hc Hi. destruct (sidebar_item_named _ _ _ _ Hc Hi) as [Hty Hit].
  destruct (getData_onDragStart ty item dt) as [Ht Hl].
  split; [unfold onDropEvent; rewrite Ht, Hl; now apply onDrop_adds|].
  split; [reflexivity|]. split; [apply onDrop_cases|].
  unfold onDropEvent. rewrite onDrop_cases. unfold getData.
  intros [-> | ->]; cbn [from_option id String.eqb negb andb];
    [now rewrite andb_false_r|now rewrite andb_false_r].
Qed.

Lemma sidebar_items_can_be_dropped_witness :
  nodes (onDropEvent (onDragStart "location" "Europe" ∅) true
           (VObj [("x", VNum 10); ("y", VNum 20)]) 1700000000000
           initialState) =
  initialNodes ++
  [VObj [("id", VStr "1700000000000"); ("type", VStr "location");
         ("position", VObj [("x", VNum 10); ("y", VNum 20)]);
         ("data", VObj [("label", VStr "Europe")])]] /\
  nodes (onDropEvent (onDragStart "unknown" "Dropped from elsewhere" ∅) true
           (VObj [("x", VNum 10); ("y", VNum 20)]) 1700000000000
           initialState) =
  initialNodes ++
  [VObj [("id", VStr "1700000000000"); ("type", VStr "unknown");
         ("position", VObj [("x", VNum 10); ("y", VNum 20)]);
         ("data", VObj [("label", VStr "Dropped from elsewhere")])]] /\
  onDropEvent (setData "text/plain" "Europe" ∅) true
    (VObj [("x", VNum 10); ("y", VNum 20)]) 1700000000000 initialState =
  initialState.
Proof.
  destruct (sidebar_items_can_be_dropped "location"
              "Transaction Location" "Europe" ["America"; "Europe"; "UK"]
              ∅ (onDragStart "unknown" "Dropped from elsewhere" ∅) true
              (VObj [("x", VNum 10); ("y", VNum 20)]) 1700000000000
              initialState
              ltac:(right; left; reflexivity)
              ltac:(right; left; reflexivity)) as (Hitem & _ & Hother & _).
  destruct (sidebar_items_can_be_dropped "location"
              "Transaction Location" "Europe" ["America"; "Europe"; "UK"]
              ∅ (setData "text/plain" "Europe" ∅) true
              (VObj [("x", VNum 10); ("y", VNum 20)]) 1700000000000
              initialState
              ltac:(right; left; reflexivity)
              ltac:(right; left; reflexivity)) as (_ & _ & _ & Hnone).
  split; [rewrite Hitem; reflexivity|].
  split; [rewrite Hother; reflexivity|].
  apply Hnone. left. reflexivity.
Defined.

End HandlerFacts.

(** * Properties of the text of numbers *)

Module NumberFacts.

Import Unicode Number.

Lemma digit_cases d :
  0 <= d <= 9 ->
  d = 0 \/ d = 1 \/ d = 2 \/ d = 3 \/ d = 4 \/ d = 5 \/ d = 6 \/ d = 7 \/
  d = 8 \/ d = 9.
Proof. lia. Qed.

Ltac each_digit H :=
  apply digit_cases in H;
  repeat (destruct H as [H|H]; [subst|]); subst.

Lemma to_digit_char d : 0 <= d <= 9 -> to_digit (digit_char d) = Some d.
Proof. intros H. each_digit H; reflexivity. Qed.

Lemma digit_char_not_minus d : 0 <= d <= 9 -> is_ch (digit_char d) "-" = false.
Proof. intros H. each_digit H; reflexivity. Qed.

Lemma put_digits_app a b k :
  put_digits (a ++ b) k = put_digits a (put_digits b k).
Proof. unfold put_digits. now rewrite List.map_app, <- app_assoc. Qed.

Lemma read_digits_put ds k :
  numeral ds -> stops k = true -> read_digits (put_digits ds k) = (ds, k).
Proof.
  intros Hds Hk. induction Hds as [|d ds Hd _ IH].
  - unfold put_digits. cbn [List.map app]. destruct k as [|c r]; [reflexivity|].
    cbn [read_digits]. unfold stops in Hk. now destruct (to_digit c).
  - change (put_digits (d :: ds) k) with (digit_char d :: put_digits ds k).
    cbn [read_digits]. now rewrite to_digit_char, IH.
Qed.

Lemma value_of_snoc l d : value_of (l ++ [d]) = 10 * value_of l + d.
Proof. unfold value_of. now rewrite fold_left_app. Qed.

Lemma value_of_app a b :
  value_of (a ++ b) = value_of a * 10 ^ Z.of_nat (length b) + value_of b.
Proof.
  induction b as [|d b IH] using rev_ind.
  - rewrite app_nil_r. cbn. lia.
  - rewrite app_assoc, !value_of_snoc, IH, length_app. cbn [length].
    replace (Z.of_nat (length b + 1)) with (Z.succ (Z.of_nat (length b))) by lia.
    rewrite Z.pow_succ_r by lia. ring.
Qed.

Lemma value_of_cons d l :
  value_of (d :: l) = d * 10 ^ Z.of_nat (length l) + value_of l.
Proof.
  change (d :: l) with ([d] ++ l). rewrite value_of_app. cbn. lia.
Qed.

Lemma length_zeros j : 0 <= j -> Z.of_nat (length (zeros j)) = j.
Proof. intros H. unfold zeros. rewrite repeat_length. lia. Qed.

Lemma numeral_zeros j : numeral (zeros j).
Proof.
  unfold zeros, numeral. induction (Z.to_nat j); cbn [repeat]; constructor;
    [lia|assumption].
Qed.

Lemma value_of_zeros j : value_of (zeros j) = 0.
Proof.
  unfold zeros. induction (Z.to_nat j) as [|n IH]; [reflexivity|].
  cbn [repeat]. rewrite value_of_cons, IH. lia.
Qed.

(** ** The digits of a natural number *)

Lemma digits_acc_step fuel n acc :
  digits_acc (S fuel) n acc =
  if n / 10 =? 0 then n mod 10 :: acc
  else digits_acc fuel (n / 10) (n mod 10 :: acc).
Proof. reflexivity. Qed.

Lemma digits_acc_spec fuel n acc :
  0 <= n < 10 ^ Z.of_nat (S fuel) ->
  exists l, digits_acc (S fuel) n acc = l ++ acc /\ value_of l = n /\
            numeral l /\ l <> [] /\ (0 < n -> exists d t, l = d :: t /\ d <> 0).
Proof.
  revert n acc. induction fuel as [|fuel IH]; intros n acc Hn.
  - exists [n]. change (10 ^ Z.of_nat 1) with 10 in Hn.
    rewrite digits_acc_step, Z.div_small, Z.mod_small by lia.
    cbn [Z.eqb]. repeat split; try easy.
    + constructor; [lia|constructor].
    + intros Hp. exists n, []. split; [reflexivity|lia].
  - rewrite digits_acc_step.
    destruct (n / 10 =? 0) eqn:E.
    + apply Z.eqb_eq in E. exists [n mod 10].
      assert (n < 10) by (apply Z.div_small_iff in E; lia).
      rewrite Z.mod_small by lia. repeat split; try easy.
      * constructor; [lia|constructor].
      * intros Hp. exists n, []. split; [reflexivity|lia].
    + apply Z.eqb_neq in E.
      assert (Hq : 0 <= n / 10 < 10 ^ Z.of_nat (S fuel)).
      { split; [apply Z.div_pos; lia|].
        apply Z.div_lt_upper_bound; [lia|].
        replace (Z.of_nat (S (S fuel))) with (Z.succ (Z.of_nat (S fuel))) in Hn
          by lia.
        rewrite Z.pow_succ_r in Hn by lia. lia. }
      destruct (IH (n / 10) (n mod 10 :: acc) Hq)
        as (l & El & Hv & Hl & Hne & Hhd).
      exists (l ++ [n mod 10]). split; [rewrite El, <- app_assoc; reflexivity|].
      split; [rewrite value_of_snoc, Hv; pose proof (Z.div_mod n 10); lia|].
      split; [apply Forall_app; split;
               [exact Hl|constructor; [pose proof (Z.mod_pos_bound n 10); lia
                                      |constructor]]|].
      split; [now destruct l|].
      intros _. assert (Hq0 : 0 < n / 10) by lia.
      destruct (Hhd Hq0) as (d & t & -> & Hd). now exists d, (t ++ [n mod 10]).
Qed.

Lemma digits_spec n :
  0 <= n ->
  value_of (digits n) = n /\ numeral (digits n) /\ digits n <> [] /\
  (0 < n -> exists d t, digits n = d :: t /\ d <> 0).
Proof.
  intros Hn. unfold digits.
  destruct (digits_acc_spec (Z.to_nat (Z.log2 n)) n []) as (l & E & H).
  - split; [exact Hn|].
    destruct (Z.eq_dec n 0) as [->|Hne]; [reflexivity|].
    pose proof (Z.log2_spec n ltac:(lia)) as [_ Hlt].
    pose proof (Z.log2_nonneg n).
    replace (Z.of_nat (S (Z.to_nat (Z.log2 n)))) with (Z.succ (Z.log2 n))
      by lia.
    eapply Z.lt_le_trans; [exact Hlt|].
    apply Z.pow_le_mono_l. lia.
  - rewrite E, app_nil_r. exact H.
Qed.

Lemma value_of_bound l : numeral l -> 0 <= value_of l < 10 ^ Z.of_nat (length l).
Proof.
  induction l as [|d l IH] using rev_ind; intros Hl.
  - cbn. lia.
  - apply Forall_app in Hl as [Hl Hd].
    pose proof (List.Forall_inv Hd) as Hd9. cbv beta in Hd9.
    specialize (IH Hl). rewrite value_of_snoc, length_app. cbn [length].
    replace (Z.of_nat (length l + 1)) with (Z.succ (Z.of_nat (length l)))
      by lia.
    rewrite Z.pow_succ_r by lia. lia.
Qed.

(** The number of digits of [n] is the [k] with [10^(k-1) <= n < 10^k]. *)
Lemma digits_bounds n :
  0 < n ->
  10 ^ (Z.of_nat (length (digits n)) - 1) <= n <
  10 ^ Z.of_nat (length (digits n)).
Proof.
  intros Hn. destruct (digits_spec n ltac:(lia)) as (Hv & Hnum & _ & Hhd).
  destruct (Hhd Hn) as (d & t & E & Hd). rewrite E in *.
  split.
  - pose proof (List.Forall_inv Hnum) as Hd9. cbv beta in Hd9.
    pose proof (value_of_bound t (List.Forall_inv_tail Hnum)) as Hb.
    rewrite <- Hv, value_of_cons. cbn [length].
    replace (Z.of_nat (S (length t)) - 1) with (Z.of_nat (length t)) by lia.
    assert (0 < 10 ^ Z.of_nat (length t)) by (apply Z.pow_pos_nonneg; lia).
    nia.
  - rewrite <- Hv at 1. now apply value_of_bound.
Qed.

Lemma digits_length n k :
  0 < n -> 10 ^ (k - 1) <= n < 10 ^ k -> Z.of_nat (length (digits n)) = k.
Proof.
  intros Hn [Hlo Hhi]. pose proof (digits_bounds n Hn) as [Hlo' Hhi'].
  set (len := Z.of_nat (length (digits n))) in *.
  assert (0 <= len) by (unfold len; lia).
  assert (0 <= k).
  { destruct (Z.lt_ge_cases k 0) as [Hk|Hk]; [|exact Hk].
    rewrite (Z.pow_neg_r 10 k) in Hhi by exact Hk. lia. }
  destruct (Z.lt_trichotomy len k) as [Hlt|[Heq|Hgt]]; [|exact Heq|].
  - assert (10 ^ len <= 10 ^ (k - 1)) by (apply Z.pow_le_mono_r; lia). lia.
  - assert (10 ^ k <= 10 ^ (len - 1)) by (apply Z.pow_le_mono_r; lia). lia.
Qed.

Lemma digits_length_shift s p :
  0 < s -> 0 <= p ->
  Z.of_nat (length (digits (s * 10 ^ p))) = Z.of_nat (length (digits s)) + p.
Proof.
  intros Hs Hp. pose proof (digits_bounds s Hs) as [Hlo Hhi].
  assert (H10 : 0 < 10 ^ p) by (apply Z.pow_pos_nonneg; lia).
  assert (Hlen : 1 <= Z.of_nat (length (digits s))).
  { destruct (digits_spec s ltac:(lia)) as (_ & _ & Hne & _).
    destruct (digits s); [congruence|cbn [length]; lia]. }
  apply digits_length; [nia|].
  replace (Z.of_nat (length (digits s)) + p - 1)
    with ((Z.of_nat (length (digits s)) - 1) + p) by lia.
  rewrite !Z.pow_add_r by lia. nia.
Qed.

(** ** Rounding a double gives it back *)

Lemma same_eq x y : same x y = true -> x = y.
Proof.
  destruct x as [|a|a|a m e], y as [|b|b|b m' e']; try discriminate;
    cbn [same]; intros H; try reflexivity.
  - apply eqb_prop in H. now subst.
  - apply eqb_prop in H. now subst.
  - apply andb_true_iff in H as [H He]. apply andb_true_iff in H as [Ha Hm].
    apply eqb_prop in Ha. apply Pos.eqb_eq in Hm. apply Z.eqb_eq in He.
    now subst.
Qed.

Lemma nearest_even_exact m b : 0 < b -> nearest_even (m * b) b = m.
Proof.
  intros Hb. unfold nearest_even.
  rewrite Z.div_mul, Z.mod_mul by lia.
  destruct (Z.ltb_spec (2 * 0) b); [reflexivity|lia].
Qed.

Lemma canonical_cases m e :
  canonical m e = true ->
  (2 ^ 52 <= Zpos m < 2 ^ 53 /\ -1074 <= e <= 971) \/
  (Zpos m < 2 ^ 52 /\ e = -1074).
Proof.
  unfold canonical. intros H. apply orb_true_iff in H as [H|H].
  - left. repeat (apply andb_true_iff in H as [H ?]). lia.
  - right. apply andb_true_iff in H as [? ?]. lia.
Qed.

Lemma log2_product m d :
  0 < m -> 0 < d ->
  Z.log2 m + Z.log2 d <= Z.log2 (m * d) <= Z.log2 m + Z.log2 d + 1.
Proof.
  intros Hm Hd.
  pose proof (Z.log2_spec m Hm) as [Hm1 Hm2].
  pose proof (Z.log2_spec d Hd) as [Hd1 Hd2].
  pose proof (Z.log2_nonneg m). pose proof (Z.log2_nonneg d).
  split.
  - apply Z.log2_le_pow2; [nia|]. rewrite Z.pow_add_r by lia. nia.
  - assert (Z.log2 (m * d) < Z.log2 m + Z.log2 d + 2); [|lia].
    apply Z.log2_lt_pow2; [nia|].
    replace (Z.log2 m + Z.log2 d + 2) with (Z.succ (Z.log2 m) + Z.succ (Z.log2 d))
      by lia.
    rewrite Z.pow_add_r by lia. nia.
Qed.

Lemma round_ratio_exact negative n d m e :
  0 < n -> 0 < d -> canonical m e = true ->
  n * 2 ^ Z.max (- e) 0 = Zpos m * (d * 2 ^ Z.max e 0) ->
  round_ratio negative n d = Finite negative m e.
Proof.
  intros Hn Hd Hc Hrel.
  assert (Hlog : Z.log2 n = Z.log2 (Zpos m * d) + e).
  { assert (Hp : 0 < Zpos m * d) by nia.
    destruct (Z.le_gt_cases 0 e) as [He|He].
    - rewrite Z.max_r, Z.max_l in Hrel by lia.
      change (2 ^ 0) with 1 in Hrel.
      replace n with ((Zpos m * d) * 2 ^ e) by lia.
      rewrite Z.log2_mul_pow2 by lia. lia.
    - rewrite Z.max_l, Z.max_r in Hrel by lia.
      change (2 ^ 0) with 1 in Hrel.
      replace (Zpos m * d) with (n * 2 ^ (- e)) by lia.
      rewrite Z.log2_mul_pow2 by lia. lia. }
  pose proof (log2_product (Zpos m) d ltac:(lia) Hd) as Hprod.
  assert (Hm53 : Zpos m < 2 ^ 53).
  { destruct (canonical_cases m e Hc) as [[? ?]|[? ?]]; lia. }
  assert (He : -1074 <= e <= 971).
  { destruct (canonical_cases m e Hc) as [[? ?]|[? ?]]; lia. }
  assert (He1 : let e1 := Z.max (-1074) (Z.log2 n - Z.log2 d - 53) in
                e1 = e \/ (e1 = e - 1 /\ 2 ^ 52 <= Zpos m)).
  { cbv zeta. destruct (canonical_cases m e Hc) as [[Hm _]|[Hm ->]].
    - assert (Z.log2 (Zpos m) = 52).
      { apply Z.log2_unique; [lia|]. exact Hm. }
      lia.
    - assert (Z.log2 (Zpos m) < 52) by (apply Z.log2_lt_pow2; lia).
      left. lia. }
  unfold round_ratio.
  set (e1 := Z.max (-1074) (Z.log2 n - Z.log2 d - 53)) in *.
  cbv zeta in He1.
  assert (Hscale : forall x y, scale n d e = (x, y) -> x = Zpos m * y /\ 0 < y).
  { unfold scale. intros x y [= <- <-]. split; [exact Hrel|].
    assert (0 < 2 ^ Z.max e 0) by (apply Z.pow_pos_nonneg; lia). nia. }
  assert (Hfinal : (let (a1, b1) := scale n d e1 in
                    if a1 / b1 <? 2 ^ 53 then e1 else e1 + 1) = e).
  { destruct He1 as [->|[-> Hm52]].
    - destruct (scale n d e) as [a1 b1] eqn:Es.
      destruct (Hscale a1 b1 eq_refl) as [-> Hb].
      rewrite Z.div_mul by lia.
      destruct (Z.ltb_spec (Zpos m) (2 ^ 53)); [reflexivity|lia].
    - assert (Hs : forall x y, scale n d (e - 1) = (x, y) ->
                   x = (2 * Zpos m) * y /\ 0 < y).
      { unfold scale. intros x y [= <- <-].
        destruct (Z.le_gt_cases 1 e) as [Hge|Hlt].
        - rewrite Z.max_r, Z.max_l in Hrel by lia.
          rewrite (Z.max_r (- (e - 1))), (Z.max_l (e - 1)) by lia.
          change (2 ^ 0) with 1 in *.
          replace e with (Z.succ (e - 1)) in Hrel at 1 by lia.
          rewrite Z.pow_succ_r in Hrel by lia.
          assert (0 < 2 ^ (e - 1)) by (apply Z.pow_pos_nonneg; lia).
          split; [lia|nia].
        - assert (Hmax : Z.max e 0 = 0) by lia.
          assert (H20 : 2 ^ Z.max e 0 = 1) by (rewrite Hmax; reflexivity).
          rewrite H20 in Hrel.
          rewrite Z.max_l in Hrel by lia.
          rewrite (Z.max_l (- (e - 1))), (Z.max_r (e - 1)) by lia.
          change (2 ^ 0) with 1.
          replace (- (e - 1)) with (Z.succ (- e)) by lia.
          rewrite Z.pow_succ_r by lia.
          split; [lia|lia]. }
      destruct (scale n d (e - 1)) as [a1 b1] eqn:Es.
      destruct (Hs a1 b1 eq_refl) as [-> Hb].
      rewrite Z.div_mul by lia.
      destruct (Z.ltb_spec (2 * Zpos m) (2 ^ 53)); [lia|lia]. }
  destruct (scale n d e1) as [a1 b1].
  rewrite Hfinal.
  destruct (scale n d e) as [a b] eqn:Es.
  destruct (Hscale a b eq_refl) as [-> Hb].
  rewrite nearest_even_exact by exact Hb.
  change (Zpos m =? 0) with false. cbv iota.
  destruct (Z.eqb_spec (Zpos m) (2 ^ 53)); [lia|].
  destruct (Z.ltb_spec 971 e); [lia|]. reflexivity.
Qed.

Lemma round_ratio_sign negative n d :
  round_ratio negative n d = with_sign negative (round_ratio false n d).
Proof.
  unfold round_ratio.
  set (e1 := Z.max (-1074) (Z.log2 n - Z.log2 d - 53)).
  destruct (scale n d e1) as [a1 b1].
  set (e := if a1 / b1 <? 2 ^ 53 then e1 else e1 + 1).
  destruct (scale n d e) as [a b].
  destruct (nearest_even a b =? 0); [reflexivity|].
  destruct (nearest_even a b =? 2 ^ 53); cbv iota;
    match goal with |- context [971 <? ?x] => now destruct (971 <? x) end.
Qed.

Lemma round_decimal_sign negative s p :
  round_decimal negative s p = with_sign negative (round_decimal false s p).
Proof.
  unfold round_decimal. destruct (s =? 0); [reflexivity|]. cbv zeta.
  destruct (310 <=? _); [reflexivity|].
  destruct (_ <=? -324); [reflexivity|].
  apply round_ratio_sign.
Qed.

Lemma largest_double_below : 2 ^ 53 * 2 ^ 971 < 10 ^ 309.
Proof. vm_compute. reflexivity. Qed.

Lemma least_double_above : 2 ^ 1074 < 10 ^ 324.
Proof. vm_compute. reflexivity. Qed.

(** [s * P / Q = M * B / A] is below [c] when [M * B] is. *)
Lemma ratio_below s P Q A B M u v c :
  0 < s -> 0 < P -> 0 < Q -> 1 <= A -> 0 < B -> 0 < M ->
  s * P * A = M * (Q * B) -> M < u -> B <= v -> u * v < c ->
  c * Q <= s * P -> False.
Proof.
  intros Hs HP HQ HA HB HM Hrel Hu Hv Hc Hle.
  assert (H0 : 0 < s * P) by (apply Z.mul_pos_pos; assumption).
  assert (Ha : M * B <= M * v) by (apply Z.mul_le_mono_nonneg_l; lia).
  assert (Hb : M * v < u * v) by (apply Z.mul_lt_mono_pos_r; lia).
  assert (H1 : M * B < c) by lia.
  assert (H2 : M * B * Q < c * Q) by (apply Z.mul_lt_mono_pos_r; assumption).
  assert (H3 : s * P * 1 <= s * P * A)
    by (apply Z.mul_le_mono_nonneg_l; lia).
  replace (M * (Q * B)) with (M * B * Q) in Hrel by ring.
  lia.
Qed.

(** [s * P / Q = M * B / A] is at least [1 / t] when [A <= t]. *)
Lemma ratio_above s P Q A B M t c :
  0 < s -> 0 < P -> 0 < Q -> 1 <= A -> 1 <= B -> 1 <= M ->
  s * P * A = M * (Q * B) -> A <= t -> t < c ->
  s * P * c < Q -> False.
Proof.
  intros Hs HP HQ HA HB HM Hrel Ht Hc Hlt.
  assert (H0 : 0 < s * P) by (apply Z.mul_pos_pos; assumption).
  assert (Ha : Q * 1 <= Q * B) by (apply Z.mul_le_mono_nonneg_l; lia).
  assert (Hb : 1 * (Q * B) <= M * (Q * B))
    by (apply Z.mul_le_mono_nonneg_r; lia).
  assert (H2 : s * P * A <= s * P * t)
    by (apply Z.mul_le_mono_nonneg_l; lia).
  assert (H3 : s * P * t < s * P * c)
    by (apply Z.mul_lt_mono_pos_l; assumption).
  lia.
Qed.

(** A decimal that is a double is within the range that is rounded. *)
Lemma round_decimal_within negative s p m e :
  0 < s -> canonical m e = true ->
  s * 10 ^ Z.max p 0 * 2 ^ Z.max (- e) 0 =
    Zpos m * (10 ^ Z.max (- p) 0 * 2 ^ Z.max e 0) ->
  round_decimal negative s p = Finite negative m e.
Proof.
  intros Hs Hc Hrel.
  assert (Hm53 : Zpos m < 2 ^ 53).
  { destruct (canonical_cases m e Hc) as [[? ?]|[? ?]]; lia. }
  assert (He : -1074 <= e <= 971).
  { destruct (canonical_cases m e Hc) as [[? ?]|[? ?]]; lia. }
  pose proof (digits_bounds s Hs) as [Hlo Hhi].
  set (len := Z.of_nat (length (digits s))) in *.
  assert (Hlen : 1 <= len).
  { unfold len. destruct (digits_spec s ltac:(lia)) as (_ & _ & Hne & _).
    destruct (digits s); [congruence|cbn [length]; lia]. }
  assert (HP : 0 < 10 ^ Z.max p 0) by (apply Z.pow_pos_nonneg; lia).
  assert (HQ : 0 < 10 ^ Z.max (- p) 0) by (apply Z.pow_pos_nonneg; lia).
  assert (HA : 1 <= 2 ^ Z.max (- e) 0).
  { assert (0 < 2 ^ Z.max (- e) 0) by (apply Z.pow_pos_nonneg; lia). lia. }
  assert (HB : 1 <= 2 ^ Z.max e 0).
  { assert (0 < 2 ^ Z.max e 0) by (apply Z.pow_pos_nonneg; lia). lia. }
  assert (HA' : 2 ^ Z.max (- e) 0 <= 2 ^ 1074)
    by (apply Z.pow_le_mono_r; lia).
  assert (HB' : 2 ^ Z.max e 0 <= 2 ^ 971) by (apply Z.pow_le_mono_r; lia).
  unfold round_decimal. destruct (Z.eqb_spec s 0); [lia|]. cbv zeta.
  fold len.
  destruct (Z.leb_spec 310 (p + len)) as [Htop|Htop].
  { exfalso.
    assert (H : 10 ^ 309 * 10 ^ Z.max (- p) 0
                <= 10 ^ (len - 1) * 10 ^ Z.max p 0).
    { rewrite <- !Z.pow_add_r by lia. apply Z.pow_le_mono_r; lia. }
    assert (H1 : 10 ^ (len - 1) * 10 ^ Z.max p 0 <= s * 10 ^ Z.max p 0).
    { apply Z.mul_le_mono_nonneg_r; [lia|exact Hlo]. }
    apply (ratio_below s (10 ^ Z.max p 0) (10 ^ Z.max (- p) 0)
             (2 ^ Z.max (- e) 0) (2 ^ Z.max e 0) (Zpos m)
             (2 ^ 53) (2 ^ 971) (10 ^ 309));
      [exact Hs|exact HP|exact HQ|exact HA
      |eapply Z.lt_le_trans; [|exact HB]; reflexivity
      |reflexivity|exact Hrel|exact Hm53|exact HB'
      |exact largest_double_below
      |eapply Z.le_trans; [exact H|exact H1]]. }
  destruct (Z.leb_spec (p + len) (-324)) as [Hbot|Hbot].
  { exfalso.
    assert (H : 10 ^ len * 10 ^ Z.max p 0 * 10 ^ 324 <= 10 ^ Z.max (- p) 0).
    { rewrite <- !Z.pow_add_r by lia. apply Z.pow_le_mono_r; lia. }
    assert (H1 : s * 10 ^ Z.max p 0 * 10 ^ 324
                 < 10 ^ len * 10 ^ Z.max p 0 * 10 ^ 324).
    { apply Z.mul_lt_mono_pos_r; [apply Z.pow_pos_nonneg; lia|].
      apply Z.mul_lt_mono_pos_r; assumption. }
    apply (ratio_above s (10 ^ Z.max p 0) (10 ^ Z.max (- p) 0)
             (2 ^ Z.max (- e) 0) (2 ^ Z.max e 0) (Zpos m)
             (2 ^ 1074) (10 ^ 324));
      [exact Hs|exact HP|exact HQ|exact HA|exact HB
      |apply (Pos2Z.pos_le_pos 1); apply Pos.le_1_l|exact Hrel|exact HA'
      |exact least_double_above
      |eapply Z.lt_le_trans; [exact H1|exact H]]. }
  assert (Hsp : 0 < s * 10 ^ Z.max p 0) by (apply Z.mul_pos_pos; assumption).
  apply round_ratio_exact; [exact Hsp|exact HQ|exact Hc|exact Hrel].
Qed.

Lemma expansion_reads m e :
  canonical m e = true ->
  0 < fst (expansion m e) /\
  round_decimal false (fst (expansion m e)) (snd (expansion m e)) =
    Finite false m e.
Proof.
  intros Hc. unfold expansion.
  destruct (Z.leb_spec 0 e) as [He|He]; cbn [fst snd].
  - assert (0 < 2 ^ e) by (apply Z.pow_pos_nonneg; lia).
    split; [nia|]. apply round_decimal_within; [nia|exact Hc|].
    rewrite (Z.max_r (- e) 0), (Z.max_l e 0) by lia.
    change (Z.max (- 0) 0) with 0. change (Z.max 0 0) with 0.
    change (10 ^ 0) with 1. change (2 ^ 0) with 1. ring.
  - assert (0 < 5 ^ (- e)) by (apply Z.pow_pos_nonneg; lia).
    split; [nia|]. apply round_decimal_within; [nia|exact Hc|].
    rewrite (Z.max_r e 0), (Z.max_l (- e) 0) by lia.
    change (10 ^ 0) with 1. change (2 ^ 0) with 1.
    change 10 with (5 * 2). rewrite Z.pow_mul_l. ring.
Qed.

(** The decimal that [Number::toString] chooses reads back as the number. *)
Lemma decimal_reads m e :
  canonical m e = true ->
  0 < fst (decimal m e) /\
  round_decimal false (fst (decimal m e)) (snd (decimal m e)) =
    Finite false m e.
Proof.
  intros Hc. unfold decimal.
  destruct (shortest _ _ _ _ _) as [c|]; [|now apply expansion_reads].
  destruct (reads_as m e (fst (reduced c)) (snd (reduced c))) eqn:E;
    [|now apply expansion_reads].
  unfold reads_as in E. apply andb_true_iff in E as [Hs Hr].
  apply Z.ltb_lt in Hs. apply same_eq in Hr. now split.
Qed.

(** ** Reading the text of a decimal *)

Lemma delimited_stops k : delimited k = true -> stops k = true.
Proof.
  destruct k as [|c r]; [reflexivity|]. unfold delimited.
  intros H. now apply andb_true_iff in H as [H _].
Qed.

Lemma read_fraction_delimited k :
  delimited k = true -> read_fraction k = Some ([], k).
Proof.
  destruct k as [|c r]; [reflexivity|]. unfold delimited, read_fraction.
  intros H. apply andb_true_iff in H as [_ H]. apply negb_true_iff in H.
  apply orb_false_iff in H as [H _]. apply orb_false_iff in H as [H _].
  now rewrite H.
Qed.

Lemma read_exponent_delimited k :
  delimited k = true -> read_exponent k = Some (0, k).
Proof.
  destruct k as [|c r]; [reflexivity|]. unfold delimited, read_exponent.
  intros H. apply andb_true_iff in H as [_ H]. apply negb_true_iff in H.
  apply orb_false_iff in H as [H HE]. apply orb_false_iff in H as [_ He].
  now rewrite He, HE.
Qed.

Lemma read_exponent_put x k :
  stops k = true -> read_exponent (put_exponent x k) = Some (x, k).
Proof.
  intros Hk. destruct (digits_spec (Z.abs x) ltac:(lia)) as (Hv & Hn & Hne & _).
  unfold put_exponent, read_exponent.
  change (is_ch (ch "e") "e" || is_ch (ch "e") "E") with true. cbv iota.
  destruct (Z.ltb_spec x 0).
  - change (is_ch (ch "-") "-") with true. cbv iota.
    rewrite read_digits_put by assumption.
    destruct (digits (Z.abs x)); [congruence|]. rewrite Hv. f_equal. f_equal. lia.
  - change (is_ch (ch "+") "-") with false.
    change (is_ch (ch "+") "+") with true. cbv iota.
    rewrite read_digits_put by assumption.
    destruct (digits (Z.abs x)); [congruence|]. rewrite Hv. f_equal. f_equal. lia.
Qed.

Lemma read_fraction_put frac k :
  numeral frac -> frac <> [] -> stops k = true ->
  read_fraction (ch "." :: put_digits frac k) = Some (frac, k).
Proof.
  intros Hn Hne Hk. unfold read_fraction.
  change (is_ch (ch ".") ".") with true. cbv iota.
  rewrite read_digits_put by assumption. now destruct frac.
Qed.

Lemma headed_nonzero d t : d <> 0 -> headed (d :: t).
Proof. intros H. destruct d; [congruence| |]; exact I. Qed.

Lemma number_body_put negative int tail frac s3 x k :
  numeral int -> headed int -> stops tail = true ->
  read_fraction tail = Some (frac, s3) -> read_exponent s3 = Some (x, k) ->
  number_body negative (put_digits int tail) =
    Some (round_decimal negative (value_of (int ++ frac))
            (x - Z.of_nat (length frac)), k).
Proof.
  intros Hn Hh Hs Hf Hx. unfold number_body.
  rewrite read_digits_put by assumption. rewrite Hf, Hx.
  destruct int as [|d t]; [destruct Hh|].
  destruct d; try reflexivity. destruct t; [reflexivity|destruct Hh].
Qed.

Lemma round_decimal_shift negative s p :
  0 < s -> 0 <= p ->
  round_decimal negative (s * 10 ^ p) 0 = round_decimal negative s p.
Proof.
  intros Hs Hp. unfold round_decimal.
  assert (0 < 10 ^ p) by (apply Z.pow_pos_nonneg; lia).
  destruct (Z.eqb_spec (s * 10 ^ p) 0); [nia|].
  destruct (Z.eqb_spec s 0); [lia|]. cbv zeta.
  rewrite digits_length_shift by assumption.
  replace (0 + (Z.of_nat (length (digits s)) + p))
    with (p + Z.of_nat (length (digits s))) by lia.
  change (Z.max (- 0) 0) with 0. change (Z.max 0 0) with 0.
  rewrite (Z.max_l p 0), (Z.max_r (- p) 0) by lia.
  change (10 ^ 0) with 1. now rewrite Z.mul_1_r.
Qed.

Lemma numeral_firstn n ds : numeral ds -> numeral (firstn n ds).
Proof. apply Forall_take. Qed.

Lemma numeral_skipn n ds : numeral ds -> numeral (skipn n ds).
Proof. apply Forall_drop. Qed.

Lemma stops_point r : stops (ch "." :: r) = true.
Proof. reflexivity. Qed.

Lemma stops_exponent x k : stops (put_exponent x k) = true.
Proof. reflexivity. Qed.

(** The text of a decimal reads as the Number value of the decimal. *)
Lemma number_body_put_decimal negative s p k :
  0 < s -> delimited k = true ->
  number_body negative (put_decimal s p k) =
    Some (round_decimal negative s p, k).
Proof.
  intros Hs Hk.
  destruct (digits_spec s ltac:(lia)) as (Hv & Hn & Hne & Hhd).
  destruct (Hhd Hs) as (d & t & Eds & Hd).
  pose proof (delimited_stops k Hk) as Hstop.
  pose proof (read_fraction_delimited k Hk) as Hfrac.
  pose proof (read_exponent_delimited k Hk) as Hexp.
  unfold put_decimal.
  set (ds := digits s) in *.
  set (len := Z.of_nat (length ds)).
  assert (Hlen : 0 < len) by (unfold len; rewrite Eds; cbn [length]; lia).
  assert (Hheaded : headed ds) by (rewrite Eds; now apply headed_nonzero).
  destruct ((len <=? p + len) && (p + len <=? 21)) eqn:C1.
  { apply andb_true_iff in C1 as [C1 _]. apply Z.leb_le in C1.
    rewrite <- put_digits_app.
    rewrite (number_body_put negative _ k [] k 0 k);
      try assumption.
    - rewrite app_nil_r, value_of_app, value_of_zeros, Hv.
      rewrite length_zeros by lia. cbn [length].
      replace (p + len - len) with p by lia.
      rewrite Z.add_0_r. now rewrite round_decimal_shift by lia.
    - apply Forall_app. split; [exact Hn|apply numeral_zeros].
    - rewrite Eds. cbn [app]. now apply headed_nonzero. }
  destruct ((0 <? p + len) && (p + len <=? 21)) eqn:C2.
  { apply andb_true_iff in C2 as [C2 C2']. apply Z.ltb_lt in C2.
    assert (Hlt : p + len < len).
    { apply andb_false_iff in C1 as [C1|C1];
        [apply Z.leb_gt in C1; lia|apply Z.leb_gt in C1; apply Z.leb_le in C2'; lia]. }
    set (n := Z.to_nat (p + len)).
    assert (Hn0 : (0 < n < length ds)%nat) by (unfold n, len in *; lia).
    rewrite (number_body_put negative (firstn n ds) _ (skipn n ds) k 0 k).
    - rewrite firstn_skipn, Hv. f_equal. f_equal. f_equal.
      rewrite length_skipn. unfold n, len in *. lia.
    - now apply numeral_firstn.
    - rewrite Eds. destruct n as [|n']; [lia|]. cbn [firstn].
      now apply headed_nonzero.
    - reflexivity.
    - apply read_fraction_put; [now apply numeral_skipn| |assumption].
      intros E. apply (f_equal (@length Z)) in E. rewrite length_skipn in E.
      cbn [length] in E. lia.
    - assumption. }
  destruct ((-6 <? p + len) && (p + len <=? 0)) eqn:C3.
  { apply andb_true_iff in C3 as [_ C3]. apply Z.leb_le in C3.
    change (ch "0" :: ch "." :: ?r) with (put_digits [0] (ch "." :: r)).
    rewrite <- put_digits_app.
    rewrite (number_body_put negative [0] _ (zeros (- (p + len)) ++ ds) k 0 k).
    - cbn [app]. rewrite value_of_cons, value_of_app, value_of_zeros, Hv.
      rewrite length_app, Nat2Z.inj_add, length_zeros by lia.
      fold len. rewrite !Z.mul_0_l, !Z.add_0_l.
      replace (0 - (- (p + len) + len)) with p by lia. reflexivity.
    - constructor; [lia|constructor].
    - exact I.
    - reflexivity.
    - apply read_fraction_put; [|now destruct (zeros _)|assumption].
      apply Forall_app. split; [apply numeral_zeros|exact Hn].
    - assumption. }
  rewrite Eds. rewrite Eds in Hv, Hn. subst len. rewrite Eds. cbn [length].
  assert (Hd9 : 0 <= d <= 9) by (now inversion Hn).
  destruct t as [|d' t'].
  - change (digit_char d :: ?r) with (put_digits [d] r).
    set (x := p + Z.of_nat (S (@length Z [])) - 1).
    rewrite (number_body_put negative [d] _ [] (put_exponent x k) x k).
    + cbn [app length]. rewrite Hv. f_equal. f_equal. f_equal. unfold x.
      cbn [length]. lia.
    + assumption.
    + now apply headed_nonzero.
    + reflexivity.
    + reflexivity.
    + now apply read_exponent_put.
  - change (digit_char d :: ?r) with (put_digits [d] r).
    set (x := p + Z.of_nat (S (length (d' :: t'))) - 1).
    rewrite (number_body_put negative [d] _ (d' :: t') (put_exponent x k) x k).
    + cbn [app]. rewrite Hv. f_equal. f_equal. f_equal. unfold x.
      cbn [length]. lia.
    + constructor; [lia|constructor].
    + now apply headed_nonzero.
    + reflexivity.
    + apply read_fraction_put; [now inversion Hn|discriminate|reflexivity].
    + now apply read_exponent_put.
Qed.

Lemma put_decimal_head s p k :
  0 < s -> exists d r, 0 <= d <= 9 /\ put_decimal s p k = digit_char d :: r.
Proof.
  intros Hs.
  destruct (digits_spec s ltac:(lia)) as (Hv & Hn & Hne & Hhd).
  destruct (Hhd Hs) as (d & t & Eds & Hd).
  assert (Hd9 : 0 <= d <= 9) by (rewrite Eds in Hn; now inversion Hn).
  unfold put_decimal. rewrite Eds.
  set (len := Z.of_nat (length (d :: t))).
  assert (Hlen : 0 < len) by (unfold len; cbn [length]; lia).
  destruct ((len <=? p + len) && (p + len <=? 21)); [now eexists _, _|].
  destruct ((0 <? p + len) && (p + len <=? 21)) eqn:C2.
  { apply andb_true_iff in C2 as [C2 _]. apply Z.ltb_lt in C2.
    destruct (Z.to_nat (p + len)) eqn:E; [lia|]. now eexists _, _. }
  destruct ((-6 <? p + len) && (p + len <=? 0)).
  { exists 0, (ch "." :: put_digits (zeros (- (p + len)))
                          (put_digits (d :: t) k)).
    split; [lia|reflexivity]. }
  destruct t; now eexists _, _.
Qed.

Lemma parse_number_put_decimal s p k :
  0 < s -> delimited k = true ->
  parse_number (put_decimal s p k) = Some (round_decimal false s p, k).
Proof.
  intros Hs Hk. destruct (put_decimal_head s p k Hs) as (d & r & Hd & E).
  unfold parse_number. rewrite E, digit_char_not_minus, <- E by assumption.
  now apply number_body_put_decimal.
Qed.

(** A finite double is read back from its text; the negative zero as the
    positive one. *)
Lemma parse_toString x k :
  is_double x = true -> is_finite x = true -> delimited k = true ->
  parse_number (toString x k) = Some (settled x, k).
Proof.
  intros Hd Hf Hk. destruct x as [|neg|neg|neg m e]; try discriminate Hf.
  - cbn [toString settled]. unfold parse_number.
    change (is_ch (ch "0") "-") with false. cbv iota.
    change (ch "0" :: k) with (put_digits [0] k).
    rewrite (number_body_put false [0] k [] k 0 k).
    + reflexivity.
    + constructor; [lia|constructor].
    + exact I.
    + now apply delimited_stops.
    + now apply read_fraction_delimited.
    + now apply read_exponent_delimited.
  - cbn [is_double] in Hd. destruct (decimal_reads m e Hd) as [Hs Hr].
    cbn [toString settled]. destruct (decimal m e) as [s p].
    cbn [fst snd] in *. destruct neg.
    + unfold parse_number. change (is_ch (ch "-") "-") with true. cbv iota.
      rewrite number_body_put_decimal, round_decimal_sign, Hr by assumption.
      reflexivity.
    + now rewrite parse_number_put_decimal, Hr.
Qed.

End NumberFacts.

(** * Properties of the JSON text at full width *)

Module FullJSONFacts.

Import Unicode Number Full Full.JSON NumberFacts.

Lemma value_undefined_dec (v : value) : {v = VUndefined} + {v <> VUndefined}.
Proof. destruct v; (now left) || (right; discriminate). Qed.

(** ** Strings *)

Lemma jstring_eqb_eq a b : jstring_eqb a b = true <-> a = b.
Proof.
  revert b. induction a as [|[h l] a IH]; intros [|[h' l'] b];
    cbn [jstring_eqb]; try (split; [discriminate|congruence]);
    [split; reflexivity|].
  unfold code_eqb. cbn [fst snd]. rewrite !andb_true_iff, IH.
  rewrite !Ascii.eqb_eq. split; [intros [[-> ->] ->]; reflexivity|].
  intros [= -> -> ->]. auto.
Qed.

Lemma jstring_eqb_refl a : jstring_eqb a a = true.
Proof. now apply jstring_eqb_eq. Qed.

Lemma jstring_eqb_neq a b : jstring_eqb a b = false <-> a <> b.
Proof.
  rewrite <- jstring_eqb_eq. destruct (jstring_eqb a b); split; congruence.
Qed.

Lemma hex_byte_hex2 b :
  hex_byte (ch (hex_char (Nat.div (nat_of_ascii b) 16)))
           (ch (hex_char (Nat.modulo (nat_of_ascii b) 16))) = Some b.
Proof. destruct b as [[] [] [] [] [] [] [] []]; reflexivity. Qed.

Lemma parse_unicode_escape u r :
  parse_string_body (unicode_escape u ++ r) =
  prepend u (parse_string_body r).
Proof.
  destruct u as [h l]. unfold unicode_escape, hex2. cbn [fst snd app].
  cbn [parse_string_body].
  change (is_ch (ch bslash) dquote) with false.
  change (is_ch (ch bslash) bslash) with true.
  change (is_ch (ch "u") "u") with true. cbv iota.
  now rewrite !hex_byte_hex2.
Qed.

Lemma parse_raw u r :
  Ascii.eqb (fst u) Ascii.zero = false ->
  parse_string_body (u :: r) = prepend u (parse_string_body r).
Proof.
  intros H. cbn [parse_string_body]. unfold is_ch, is_control. now rewrite H.
Qed.

Lemma parse_escape u r :
  parse_string_body (escape u ++ r) = prepend u (parse_string_body r).
Proof.
  destruct u as [h l]. destruct (Ascii.eqb h Ascii.zero) eqn:E.
  - apply Ascii.eqb_eq in E. subst h.
    destruct l as [[] [] [] [] [] [] [] []]; reflexivity.
  - unfold escape. cbn [fst snd]. rewrite E. cbn [negb app].
    now apply parse_raw.
Qed.

Lemma surrogate_high u : is_high u = true -> Ascii.eqb (fst u) Ascii.zero = false.
Proof.
  destruct u as [h l]. cbn [fst].
  destruct h as [[] [] [] [] [] [] [] []]; try discriminate; reflexivity.
Qed.

Lemma surrogate_low u : is_low u = true -> Ascii.eqb (fst u) Ascii.zero = false.
Proof.
  destruct u as [h l]. cbn [fst].
  destruct h as [[] [] [] [] [] [] [] []]; try discriminate; reflexivity.
Qed.

Lemma put_escaped_step u rest k :
  put_escaped (u :: rest) k =
  if is_high u then
    match rest with
    | u' :: rest' =>
        if is_low u' then u :: u' :: put_escaped rest' k
        else unicode_escape u ++ put_escaped rest k
    | [] => unicode_escape u ++ k
    end
  else if is_low u then unicode_escape u ++ put_escaped rest k
  else escape u ++ put_escaped rest k.
Proof. destruct rest; reflexivity. Qed.

Lemma parse_put_escaped_upto n s k :
  (length s <= n)%nat ->
  parse_string_body (put_escaped s (ch dquote :: k)) = Some (s, k).
Proof.
  revert s. induction n as [|n IH]; intros s Hlen.
  - destruct s; [reflexivity|cbn [length] in Hlen; lia].
  - destruct s as [|u rest]; [reflexivity|]. cbn [length] in Hlen.
    rewrite put_escaped_step. destruct (is_high u) eqn:Hh.
    + destruct rest as [|u' rest'].
      * rewrite parse_unicode_escape. reflexivity.
      * destruct (is_low u') eqn:Hl.
        -- rewrite (parse_raw u) by now apply surrogate_high.
           rewrite (parse_raw u') by now apply surrogate_low.
           rewrite IH by (cbn [length] in Hlen; lia). reflexivity.
        -- rewrite parse_unicode_escape, IH by lia. reflexivity.
    + destruct (is_low u) eqn:Hl.
      * rewrite parse_unicode_escape, IH by lia. reflexivity.
      * rewrite parse_escape, IH by lia. reflexivity.
Qed.

Lemma parse_put_escaped s k :
  parse_string_body (put_escaped s (ch dquote :: k)) = Some (s, k).
Proof. now apply (parse_put_escaped_upto (length s)). Qed.

(** ** The first code unit of a value *)

Lemma number_start_digit d : 0 <= d <= 9 -> number_start (digit_char d) = true.
Proof. intros H. unfold number_start. now rewrite to_digit_char. Qed.

Lemma put_number_start x k :
  json_ok (VNum x) = true ->
  exists c r, put_number x k = c :: r /\ number_start c = true.
Proof.
  cbn [json_ok]. intros H. apply andb_true_iff in H as [Hd Hp].
  unfold put_number. destruct x as [|neg|neg|neg m e]; try discriminate Hp.
  - now eexists _, _.
  - cbn [is_finite toString]. cbn [is_double] in Hd.
    destruct (decimal_reads m e Hd) as [Hs _].
    destruct (decimal m e) as [s p]. cbn [fst] in Hs.
    destruct neg; [now eexists _, _|].
    destruct (put_decimal_head s p k Hs) as (d & r & Hd9 & ->).
    exists (digit_char d), r. split; [reflexivity|].
    now apply number_start_digit.
Qed.

Lemma number_start_value c : number_start c = true -> value_start c = true.
Proof.
  unfold number_start, value_start. destruct (to_digit c); [reflexivity|].
  now intros ->.
Qed.

Lemma put_start v k :
  json_ok v = true -> exists c r, put v k = c :: r /\ value_start c = true.
Proof.
  intros Hok. destruct v as [| |[]|x|s|l|ps]; try discriminate Hok;
    try (now eexists _, _).
  destruct (put_number_start x k Hok) as (c & r & E & Hc).
  exists c, r. split; [exact E|]. now apply number_start_value.
Qed.

Lemma value_start_facts c :
  value_start c = true ->
  is_ws c = false /\ is_ch c "]" = false /\ is_ch c "}" = false.
Proof.
  destruct c as [h l]. destruct (Ascii.eqb h Ascii.zero) eqn:E.
  - apply Ascii.eqb_eq in E. subst h.
    destruct l as [[] [] [] [] [] [] [] []]; intros H;
      try discriminate H; repeat split.
  - unfold value_start, to_digit, is_ch, is_ws, is_ch. cbn [fst snd].
    rewrite E. cbn [andb orb]. discriminate.
Qed.

Lemma skip_ws_start c r : is_ws c = false -> skip_ws (c :: r) = c :: r.
Proof. intros H. cbn [skip_ws]. now rewrite H. Qed.

Lemma skip_ws_put v k : json_ok v = true -> skip_ws (put v k) = put v k.
Proof.
  intros Hok. destruct (put_start v k Hok) as (c & r & -> & Hc).
  apply skip_ws_start. now apply value_start_facts.
Qed.

Lemma parse_value_number n c r :
  number_start c = true ->
  parse_value (S n) (c :: r) =
  match parse_number (c :: r) with
  | Some (x, rest) => Some (VNum x, rest)
  | None => None
  end.
Proof.
  destruct c as [h l]. destruct (Ascii.eqb h Ascii.zero) eqn:E.
  - apply Ascii.eqb_eq in E. subst h.
    destruct l as [[] [] [] [] [] [] [] []]; intros H;
      try discriminate H; reflexivity.
  - unfold number_start, to_digit, is_ch. cbn [fst snd].
    rewrite E. cbn [andb]. discriminate.
Qed.

Lemma plain_settled x : plain x = true -> settled x = x.
Proof. destruct x as [| |[]|]; try discriminate; reflexivity. Qed.

Lemma plain_finite x : plain x = true -> is_finite x = true.
Proof. destruct x as [| |[]|]; try discriminate; reflexivity. Qed.

Lemma parse_put_double x k :
  json_ok (VNum x) = true -> delimited k = true ->
  parse_number (put_number x k) = Some (x, k).
Proof.
  cbn [json_ok]. intros H Hk. apply andb_true_iff in H as [Hd Hp].
  unfold put_number. rewrite (plain_finite x Hp).
  rewrite parse_toString by (assumption || now apply plain_finite).
  now rewrite plain_settled.
Qed.

(** ** Parsing the text of a value gives the value back *)

Lemma parse_value_array n r :
  parse_value (S n) (ch "[" :: r) =
  match skip_ws r with
  | [] => None
  | c' :: r' =>
      if is_ch c' "]" then Some (VArr [], r')
      else match parse_elements n r with
           | Some (l, rest) => Some (VArr l, rest)
           | None => None
           end
  end.
Proof. reflexivity. Qed.

Lemma parse_value_object n r :
  parse_value (S n) (ch "{" :: r) =
  match skip_ws r with
  | [] => None
  | c' :: r' =>
      if is_ch c' "}" then Some (VObj [], r')
      else match parse_members n r with
           | Some (ps, rest) => Some (object_of ps, rest)
           | None => None
           end
  end.
Proof. reflexivity. Qed.

Lemma parse_value_string n r :
  parse_value (S n) (ch dquote :: r) =
  match parse_string_body r with
  | Some (str, rest) => Some (VStr str, rest)
  | None => None
  end.
Proof. reflexivity. Qed.

Lemma parse_elements_step n s :
  parse_elements (S n) s =
  match parse_value n s with
  | Some (v, rest) =>
      match skip_ws rest with
      | [] => None
      | c :: r =>
          if is_ch c "," then
            match parse_elements n r with
            | Some (vs, rest') => Some (v :: vs, rest')
            | None => None
            end
          else if is_ch c "]" then Some ([v], r)
          else None
      end
  | None => None
  end.
Proof. reflexivity. Qed.

Lemma parse_members_step n key r :
  parse_members (S n) (put_string key (ch ":" :: r)) =
  match parse_value n r with
  | Some (v, rest1) =>
      match skip_ws rest1 with
      | [] => None
      | c' :: r2 =>
          if is_ch c' "," then
            match parse_members n r2 with
            | Some (ps, rest2) => Some ((key, v) :: ps, rest2)
            | None => None
            end
          else if is_ch c' "}" then Some ([(key, v)], r2)
          else None
      end
  | None => None
  end.
Proof.
  unfold put_string.
  change (parse_members (S n) (ch dquote :: ?x)) with
    (match parse_string_body x with
     | Some (key, rest) =>
         match skip_ws rest with
         | [] => None
         | c :: r1 =>
             if is_ch c ":" then
               match parse_value n r1 with
               | Some (v, rest1) =>
                   match skip_ws rest1 with
                   | [] => None
                   | c' :: r2 =>
                       if is_ch c' "," then
                         match parse_members n r2 with
                         | Some (ps, rest2) => Some ((key, v) :: ps, rest2)
                         | None => None
                         end
                       else if is_ch c' "}" then Some ([(key, v)], r2)
                       else None
                   end
               | None => None
               end
             else None
         end
     | None => None
     end).
  rewrite parse_put_escaped. reflexivity.
Qed.

Lemma put_list_cons v rest k :
  put_list put (v :: rest) k =
  put v (match rest with
         | [] => k
         | _ :: _ => ch "," :: put_list put rest k
         end).
Proof. reflexivity. Qed.

Lemma is_ch_comma : is_ch (ch ",") "," = true.
Proof. reflexivity. Qed.

Lemma elements_roundtrip l :
  Forall roundtrips l -> l <> [] ->
  forall fuel k,
    (list_sum (List.map (fun w => S (size w)) l) <= fuel)%nat ->
    forallb json_ok l = true ->
    parse_elements fuel (put_list put l (ch "]" :: k)) = Some (l, k).
Proof.
  induction 1 as [|v rest Hv Hrest IH]; [congruence|].
  intros _ fuel k Hfuel Hok. unfold list_sum in *.
  cbn [List.map fold_right] in Hfuel.
  cbn [forallb] in Hok. apply andb_true_iff in Hok as [Hokv Hokr].
  destruct fuel as [|n]; [lia|]. rewrite parse_elements_step.
  rewrite put_list_cons. destruct rest as [|v' rest'].
  - rewrite (Hv n); [reflexivity|lia|assumption|reflexivity].
  - rewrite (Hv n); [|lia|assumption|reflexivity].
    rewrite (skip_ws_start (ch ",") _ eq_refl). cbv beta iota.
    rewrite is_ch_comma.
    rewrite IH; [reflexivity|discriminate|lia|assumption].
Qed.

Lemma put_members_cons key v rest first k :
  json_ok v = true ->
  put_members put ((key, v) :: rest) first k =
  let member :=
    put_string key (ch ":" :: put v (put_members put rest false k)) in
  if first then member else ch "," :: member.
Proof. destruct v; try discriminate; reflexivity. Qed.

Lemma put_members_start key v rest k :
  json_ok v = true ->
  exists r, put_members put ((key, v) :: rest) true k = ch dquote :: r.
Proof.
  intros Hv. rewrite put_members_cons by assumption. now eexists.
Qed.

Lemma put_members_later ps k :
  ps <> [] -> forallb (fun kv => json_ok (snd kv)) ps = true ->
  put_members put ps false k = ch "," :: put_members put ps true k.
Proof.
  destruct ps as [|[key v] rest]; [congruence|]. intros _ Hok.
  cbn [forallb snd] in Hok. apply andb_true_iff in Hok as [Hv _].
  now rewrite !put_members_cons.
Qed.

Lemma members_roundtrip ps :
  Forall (fun kv => roundtrips (snd kv)) ps -> ps <> [] ->
  forall fuel k,
    (list_sum (List.map (fun kv => S (size (snd kv))) ps) <= fuel)%nat ->
    forallb (fun kv => json_ok (snd kv)) ps = true ->
    parse_members fuel (put_members put ps true (ch "}" :: k)) = Some (ps, k).
Proof.
  induction 1 as [|[key v] rest Hv Hrest IH]; [congruence|].
  intros _ fuel k Hfuel Hok. unfold list_sum in *.
  cbn [List.map fold_right snd] in Hfuel.
  cbn [forallb snd] in Hok. apply andb_true_iff in Hok as [Hokv Hokr].
  cbn [snd] in Hv.
  destruct fuel as [|n]; [lia|]. rewrite put_members_cons by assumption.
  cbv zeta iota. rewrite parse_members_step.
  destruct rest as [|kv' rest'].
  - cbn [put_members].
    rewrite (Hv n); [reflexivity|lia|assumption|reflexivity].
  - rewrite put_members_later by (assumption || discriminate).
    rewrite (Hv n); [|lia|assumption|reflexivity].
    rewrite (skip_ws_start (ch ",") _ eq_refl). cbv beta iota.
    rewrite is_ch_comma.
    rewrite IH; [reflexivity|discriminate|lia|assumption].
Qed.

(** ** The parsed object has its properties in the order of the text *)

Lemma lookup_prop_fresh key acc :
  ~ In key (List.map fst acc) -> lookup_prop key acc = None.
Proof.
  induction acc as [|[k' v'] acc IH]; intros Hfresh; [reflexivity|].
  cbn [lookup_prop List.map fst In] in *.
  destruct (jstring_eqb key k') eqn:E.
  - apply jstring_eqb_eq in E. subst k'. exfalso. apply Hfresh. now left.
  - apply IH. intros Hin. apply Hfresh. now right.
Qed.

Lemma insert_index_last i key v acc :
  indices_below i acc -> insert_index i key v acc = acc ++ [(key, v)].
Proof.
  induction 1 as [|[k' v'] acc (j & Hj & Hlt) _ IH]; [reflexivity|].
  cbn [insert_index app]. cbn [fst] in Hj. rewrite Hj.
  destruct (Z.ltb_spec j i); [|lia]. now rewrite IH.
Qed.

Lemma enumerated_named b ps : forallb named ps = true -> enumerated b ps = true.
Proof.
  destruct ps as [|[k v] rest]; [reflexivity|]. intros H.
  cbn [enumerated]. pose proof H as H'. cbn [forallb] in H'.
  apply andb_true_iff in H' as [Hk _]. unfold named in Hk. cbn [fst] in Hk.
  destruct (array_index k); [discriminate|exact H].
Qed.

Lemma named_index_false acc key v ps i :
  forallb named (acc ++ (key, v) :: ps) = true ->
  array_index key = Some i -> False.
Proof.
  intros He Hi. rewrite forallb_app in He.
  apply andb_true_iff in He as [_ He]. cbn [forallb] in He.
  apply andb_true_iff in He as [He _]. unfold named in He. cbn [fst] in He.
  now rewrite Hi in He.
Qed.

(** In an enumeration, an array index is above the bound. *)
Lemma enumerated_bound b acc key v ps i :
  enumerated b (acc ++ (key, v) :: ps) = true ->
  array_index key = Some i -> b < i.
Proof.
  revert b. induction acc as [|[k' v'] acc IH]; intros b He Hi.
  - cbn [app enumerated] in He. rewrite Hi in He.
    apply andb_true_iff in He as [He _]. now apply Z.ltb_lt in He.
  - cbn [app enumerated] in He. destruct (array_index k') as [j|] eqn:Ej.
    + apply andb_true_iff in He as [Hlt He]. apply Z.ltb_lt in Hlt.
      specialize (IH j He Hi). lia.
    + cbn [forallb] in He. apply andb_true_iff in He as [_ He].
      destruct (named_index_false acc key v ps i He Hi).
Qed.

(** In an enumeration, what comes before an array index are lower array
    indices. *)
Lemma enumerated_before b acc key v ps i :
  enumerated b (acc ++ (key, v) :: ps) = true ->
  array_index key = Some i -> indices_below i acc.
Proof.
  revert b. induction acc as [|[k' v'] acc IH]; intros b He Hi;
    [constructor|].
  cbn [app enumerated] in He. destruct (array_index k') as [j|] eqn:Ej.
  - apply andb_true_iff in He as [_ He].
    constructor; [|now apply (IH j)]. exists j. split; [exact Ej|].
    now apply (enumerated_bound j acc key v ps i).
  - cbn [forallb] in He. apply andb_true_iff in He as [_ He].
    destruct (named_index_false acc key v ps i He Hi).
Qed.

Lemma define_prop_last b acc key v ps :
  List.NoDup (List.map fst (acc ++ (key, v) :: ps)) ->
  enumerated b (acc ++ (key, v) :: ps) = true ->
  define_prop key v acc = acc ++ [(key, v)].
Proof.
  intros Hnd He. unfold define_prop.
  rewrite lookup_prop_fresh.
  - destruct (array_index key) as [i|] eqn:Ei; [|reflexivity].
    apply insert_index_last. now apply (enumerated_before b acc key v ps).
  - rewrite List.map_app in Hnd. apply NoDup_remove_2 in Hnd.
    intros Hin. apply Hnd. apply in_or_app. now left.
Qed.

Lemma fold_define_prop b ps acc :
  List.NoDup (List.map fst (acc ++ ps)) ->
  enumerated b (acc ++ ps) = true ->
  fold_left (fun a kv => define_prop (fst kv) (snd kv) a) ps acc = acc ++ ps.
Proof.
  revert acc. induction ps as [|[key v] ps IH]; intros acc Hnd He;
    cbn [fold_left fst snd].
  - now rewrite app_nil_r.
  - rewrite (define_prop_last b acc key v ps Hnd He).
    rewrite IH; rewrite <- app_assoc; [reflexivity|exact Hnd|exact He].
Qed.

Lemma object_of_own_keys ps : own_keys ps = true -> object_of ps = VObj ps.
Proof.
  unfold own_keys, distinct_keys, object_of. intros H.
  apply andb_true_iff in H as [Hd He]. apply bool_decide_eq_true in Hd.
  rewrite (fold_define_prop (-1)); [reflexivity| |exact He].
  now apply NoDup_ListNoDup.
Qed.

Lemma put_roundtrips v : roundtrips v.
Proof.
  induction v as [| |b|x|s|l IHl|ps IHps] using value_nested_ind;
    intros fuel k Hfuel Hok Hk; try discriminate Hok;
    (destruct fuel as [|n]; [cbn [size] in Hfuel; lia|]).
  - reflexivity.
  - destruct b; reflexivity.
  - cbn [put]. destruct (put_number_start x k Hok) as (c & r & E & Hc).
    rewrite E, parse_value_number, <- E by assumption.
    now rewrite parse_put_double.
  - cbn [put]. unfold put_string. rewrite parse_value_string.
    now rewrite parse_put_escaped.
  - cbn [put]. rewrite parse_value_array. cbn [json_ok] in Hok.
    cbn [size] in Hfuel. destruct l as [|v rest]; [reflexivity|].
    pose proof (elements_roundtrip (v :: rest) IHl) as Hel.
    assert (Hv : json_ok v = true).
    { cbn [forallb] in Hok. now apply andb_true_iff in Hok as [Hv _]. }
    rewrite put_list_cons, skip_ws_put by assumption.
    destruct (put_start v (match rest with
                           | [] => ch "]" :: k
                           | _ :: _ => ch "," :: put_list put rest (ch "]" :: k)
                           end) Hv) as (c & r & E & Hc).
    rewrite E. destruct (value_start_facts c Hc) as (_ & -> & _).
    rewrite <- E, <- put_list_cons, Hel;
      [reflexivity|discriminate|lia|assumption].
  - cbn [put]. rewrite parse_value_object. cbn [json_ok] in Hok.
    apply andb_true_iff in Hok as [Hkeys Hok].
    cbn [size] in Hfuel. destruct ps as [|[key v] rest]; [reflexivity|].
    pose proof (members_roundtrip ((key, v) :: rest) IHps) as Hmem.
    assert (Hv : json_ok v = true).
    { cbn [forallb snd] in Hok. now apply andb_true_iff in Hok as [Hv _]. }
    destruct (put_members_start key v rest (ch "}" :: k) Hv) as (r & E).
    rewrite E, (skip_ws_start (ch dquote) r eq_refl). cbv beta iota.
    change (is_ch (ch dquote) "}") with false. cbv iota.
    rewrite <- E, Hmem; [|discriminate|lia|assumption].
    now rewrite object_of_own_keys.
Qed.

(** ** The fuel of [parse] is enough for the text of a value *)

Lemma length_put_digits ds k :
  length (put_digits ds k) = (length ds + length k)%nat.
Proof. unfold put_digits. now rewrite length_app, length_map. Qed.

Lemma length_unicode_escape u r :
  (S (length r) <= length (unicode_escape u ++ r))%nat.
Proof. unfold unicode_escape, hex2. cbn [app length]. lia. Qed.

Lemma escape_nonempty u : exists c r, escape u = c :: r.
Proof.
  destruct u as [h l]. destruct (Ascii.eqb h Ascii.zero) eqn:E.
  - apply Ascii.eqb_eq in E. subst h.
    destruct l as [[] [] [] [] [] [] [] []]; now eexists _, _.
  - unfold escape. cbn [fst snd]. rewrite E. now eexists _, _.
Qed.

Lemma length_escape u r : (S (length r) <= length (escape u ++ r))%nat.
Proof.
  destruct (escape_nonempty u) as (c & t & ->). rewrite length_app.
  cbn [length]. lia.
Qed.

Lemma length_put_escaped_upto n s k :
  (length s <= n)%nat -> (length k <= length (put_escaped s k))%nat.
Proof.
  revert s. induction n as [|n IH]; intros s Hlen.
  - destruct s; [cbn; lia|cbn [length] in Hlen; lia].
  - destruct s as [|u rest]; [cbn; lia|]. cbn [length] in Hlen.
    rewrite put_escaped_step. destruct (is_high u).
    + destruct rest as [|u' rest'].
      * pose proof (length_unicode_escape u k). lia.
      * destruct (is_low u').
        -- cbn [length] in *. specialize (IH rest' ltac:(lia)). lia.
        -- pose proof (length_unicode_escape u (put_escaped (u' :: rest') k)).
           specialize (IH (u' :: rest') ltac:(lia)). lia.
    + destruct (is_low u).
      * pose proof (length_unicode_escape u (put_escaped rest k)).
        specialize (IH rest ltac:(lia)). lia.
      * pose proof (length_escape u (put_escaped rest k)).
        specialize (IH rest ltac:(lia)). lia.
Qed.

Lemma length_put_escaped s k : (length k <= length (put_escaped s k))%nat.
Proof. now apply (length_put_escaped_upto (length s)). Qed.

Lemma length_put_decimal s p k :
  0 < s -> (S (length k) <= length (put_decimal s p k))%nat.
Proof.
  intros Hs. destruct (digits_spec s ltac:(lia)) as (_ & _ & _ & Hhd).
  destruct (Hhd Hs) as (d & t & Eds & _).
  unfold put_decimal. rewrite Eds.
  destruct (_ && _).
  { rewrite !length_put_digits. cbn [length]. lia. }
  destruct (_ && _).
  { rewrite length_put_digits. cbn [length]. rewrite length_put_digits. lia. }
  destruct (_ && _).
  { cbn [length]. rewrite !length_put_digits. lia. }
  destruct t.
  - unfold put_exponent. cbn [length]. rewrite length_put_digits. lia.
  - unfold put_exponent. cbn [length]. rewrite !length_put_digits.
    cbn [length]. rewrite length_put_digits. lia.
Qed.

Lemma length_put_number x k :
  json_ok (VNum x) = true -> (S (length k) <= length (put_number x k))%nat.
Proof.
  cbn [json_ok]. intros H. apply andb_true_iff in H as [Hd Hp].
  unfold put_number. destruct x as [|neg|neg|neg m e]; try discriminate Hp.
  - cbn [is_finite toString length]. lia.
  - cbn [is_finite toString]. cbn [is_double] in Hd.
    destruct (decimal_reads m e Hd) as [Hs _].
    destruct (decimal m e) as [s p]. cbn [fst] in Hs.
    pose proof (length_put_decimal s p k Hs).
    destruct neg; cbn [length]; lia.
Qed.

Lemma elements_fit l :
  Forall fits l -> l <> [] -> forallb json_ok l = true ->
  forall k,
    (list_sum (List.map (fun w => S (size w)) l) + length k
     <= S (length (put_list put l k)))%nat.
Proof.
  induction 1 as [|v rest Hv Hrest IH]; [congruence|].
  intros _ Hok k. unfold list_sum in *. cbn [List.map fold_right].
  cbn [forallb] in Hok. apply andb_true_iff in Hok as [Hokv Hokr].
  rewrite put_list_cons. destruct rest as [|v' rest'].
  - specialize (Hv k Hokv). cbn [List.map fold_right]. lia.
  - specialize (Hv (ch "," :: put_list put (v' :: rest') k) Hokv).
    specialize (IH ltac:(discriminate) Hokr k).
    cbn [length] in Hv. lia.
Qed.

Lemma members_fit ps :
  Forall (fun kv => fits (snd kv)) ps -> ps <> [] ->
  forallb (fun kv => json_ok (snd kv)) ps = true ->
  forall k,
    (list_sum (List.map (fun kv => S (size (snd kv))) ps) + length k
     <= S (length (put_members put ps true k)))%nat.
Proof.
  induction 1 as [|[key v] rest Hv Hrest IH]; [congruence|].
  intros _ Hok k. unfold list_sum in *. cbn [List.map fold_right snd].
  cbn [forallb snd] in Hok. apply andb_true_iff in Hok as [Hokv Hokr].
  cbn [snd] in Hv. rewrite put_members_cons by assumption. cbv zeta iota.
  unfold put_string. cbn [length].
  pose proof (length_put_escaped key
    (ch dquote :: ch ":" :: put v (put_members put rest false k))) as Hk.
  cbn [length] in Hk.
  specialize (Hv (put_members put rest false k) Hokv).
  destruct rest as [|kv' rest'].
  - cbn [put_members List.map fold_right] in *. lia.
  - rewrite put_members_later in * by (assumption || discriminate).
    specialize (IH ltac:(discriminate) Hokr k).
    cbn [length] in *. lia.
Qed.

Lemma put_fits v : fits v.
Proof.
  induction v as [| |b|x|s|l IHl|ps IHps] using value_nested_ind;
    intros k Hok; try discriminate Hok.
  - cbn [put size]. rewrite length_app.
    change (length (text "null")) with 4%nat. lia.
  - cbn [size]. destruct b; cbn [put]; rewrite length_app.
    + change (length (text "true")) with 4%nat. lia.
    + change (length (text "false")) with 5%nat. lia.
  - cbn [put size]. pose proof (length_put_number x k Hok). lia.
  - cbn [put size]. unfold put_string. cbn [length].
    pose proof (length_put_escaped s (ch dquote :: k)) as H.
    cbn [length] in H. lia.
  - cbn [put size length]. cbn [json_ok] in Hok.
    destruct l as [|v rest]; [cbn; lia|].
    pose proof (elements_fit (v :: rest) IHl ltac:(discriminate) Hok
                  (ch "]" :: k)) as H.
    cbn [length] in H. lia.
  - cbn [put size length]. cbn [json_ok] in Hok.
    apply andb_true_iff in Hok as [_ Hok].
    destruct ps as [|kv rest]; [cbn; lia|].
    pose proof (members_fit (kv :: rest) IHps ltac:(discriminate) Hok
                  (ch "}" :: k)) as H.
    cbn [length] in H. lia.
Qed.

(** [JSON.parse(JSON.stringify(v))] is [v] for every value that JSON text
    holds as it is, and the text is not the empty string. *)
Lemma parse_stringify v :
  json_ok v = true ->
  exists t, stringify v = Some t /\ parse t = Some v /\ t <> [].
Proof.
  intros Hok. exists (put v []). split; [now destruct v|]. split.
  - unfold parse. rewrite put_roundtrips; [reflexivity| |assumption|reflexivity].
    pose proof (put_fits v [] Hok). cbn [length] in *. lia.
  - destruct (put_start v [] Hok) as (c & r & -> & _). discriminate.
Qed.

(** ** The text of a value and of what it keeps are the same *)

Lemma strip_defined v : strip v <> VUndefined.
Proof. destruct v as [| | |x| | |]; try discriminate. cbn [strip].
  destruct (is_finite x); discriminate. Qed.

Lemma put_list_strip l k :
  Forall (fun v => forall k, put v k = put (strip v) k) l ->
  put_list put l k = put_list put (List.map strip l) k.
Proof.
  induction 1 as [|v rest Hv _ IH]; [reflexivity|].
  cbn [List.map]. rewrite !put_list_cons, <- Hv.
  destruct rest as [|v' rest']; [reflexivity|]. cbn [List.map] in *.
  now rewrite IH.
Qed.

Lemma put_members_keep key v rest first k :
  v <> VUndefined ->
  put_members put ((key, v) :: rest) first k =
  let member :=
    put_string key (ch ":" :: put v (put_members put rest false k)) in
  if first then member else ch "," :: member.
Proof. destruct v; try reflexivity. congruence. Qed.

Lemma strip_members_keep key v rest :
  v <> VUndefined ->
  strip_members strip ((key, v) :: rest) =
  (key, strip v) :: strip_members strip rest.
Proof. destruct v; try reflexivity. congruence. Qed.

Lemma put_members_strip ps first k :
  Forall (fun kv => forall k, put (snd kv) k = put (strip (snd kv)) k) ps ->
  put_members put ps first k = put_members put (strip_members strip ps) first k.
Proof.
  intros H. revert first. induction H as [|[key v] rest Hv _ IH];
    intros first; [reflexivity|].
  cbn [snd] in Hv.
  destruct (value_undefined_dec v) as [->|Hdef].
  - cbn [strip_members put_members]. apply IH.
  - rewrite strip_members_keep, !put_members_keep
      by (assumption || apply strip_defined).
    cbv zeta. now rewrite <- Hv, <- (IH false).
Qed.

Lemma put_number_strip x k :
  put_number x k = put (strip (VNum x)) k.
Proof.
  cbn [strip]. destruct x as [|neg|[]|neg m e]; reflexivity.
Qed.

Lemma put_strip v : forall k, put v k = put (strip v) k.
Proof.
  induction v as [| |b|x|s|l IHl|ps IHps] using value_nested_ind;
    intros k; try reflexivity.
  - apply put_number_strip.
  - cbn [strip put]. now rewrite (put_list_strip l _ IHl).
  - cbn [strip put]. now rewrite (put_members_strip ps true _ IHps).
Qed.

(** ** What a value keeps can be written and read back *)

Lemma strip_members_keys ps key :
  In key (List.map fst (strip_members strip ps)) ->
  In key (List.map fst ps).
Proof.
  induction ps as [|[k' v] ps IH]; [tauto|].
  destruct (value_undefined_dec v) as [->|Hdef].
  - cbn [strip_members List.map fst In]. tauto.
  - rewrite strip_members_keep by assumption.
    cbn [List.map fst In]. tauto.
Qed.

Lemma strip_members_distinct ps :
  distinct_keys ps = true -> distinct_keys (strip_members strip ps) = true.
Proof.
  unfold distinct_keys. rewrite !bool_decide_eq_true.
  rewrite !NoDup_ListNoDup. induction ps as [|[key v] ps IH]; [tauto|].
  intros Hnd. cbn [List.map fst] in Hnd.
  apply List.NoDup_cons_iff in Hnd as [Hfresh Hnd].
  destruct (value_undefined_dec v) as [->|Hdef].
  - cbn [strip_members]. now apply IH.
  - rewrite strip_members_keep by assumption. cbn [List.map fst].
    apply List.NoDup_cons; [|now apply IH].
    intros Hin. apply Hfresh. now apply strip_members_keys.
Qed.

Lemma strip_members_named ps :
  forallb named ps = true -> forallb named (strip_members strip ps) = true.
Proof.
  induction ps as [|[key v] ps IH]; [reflexivity|].
  cbn [forallb]. intros H. apply andb_true_iff in H as [Hk Hps].
  destruct (value_undefined_dec v) as [->|Hdef].
  - cbn [strip_members]. now apply IH.
  - rewrite strip_members_keep by assumption. cbn [forallb].
    apply andb_true_iff. split; [exact Hk|now apply IH].
Qed.

Lemma enumerated_lower b b' ps :
  b' <= b -> enumerated b ps = true -> enumerated b' ps = true.
Proof.
  destruct ps as [|[key v] ps]; [reflexivity|]. cbn [enumerated].
  intros Hle. destruct (array_index key); [|tauto].
  intros H. apply andb_true_iff in H as [Hlt He]. apply Z.ltb_lt in Hlt.
  apply andb_true_iff. split; [apply Z.ltb_lt; lia|exact He].
Qed.

Lemma strip_members_enumerated b ps :
  enumerated b ps = true -> enumerated b (strip_members strip ps) = true.
Proof.
  revert b. induction ps as [|[key v] ps IH]; intros b He; [reflexivity|].
  cbn [enumerated] in He. destruct (array_index key) as [i|] eqn:Ei.
  - apply andb_true_iff in He as [Hlt He]. apply Z.ltb_lt in Hlt.
    destruct (value_undefined_dec v) as [->|Hdef].
    + cbn [strip_members]. apply (enumerated_lower i); [lia|now apply IH].
    + rewrite strip_members_keep by assumption. cbn [enumerated].
      rewrite Ei. apply andb_true_iff. split; [now apply Z.ltb_lt|].
      now apply IH.
  - apply enumerated_named. now apply strip_members_named.
Qed.

Lemma strip_members_own_keys ps :
  own_keys ps = true -> own_keys (strip_members strip ps) = true.
Proof.
  unfold own_keys. intros H. apply andb_true_iff in H as [Hd He].
  apply andb_true_iff. split;
    [now apply strip_members_distinct|now apply strip_members_enumerated].
Qed.

Lemma json_ok_strip_members ps :
  Forall (fun kv => proper (snd kv) = true ->
                    json_ok (strip (snd kv)) = true) ps ->
  forallb (fun kv => proper (snd kv)) ps = true ->
  forallb (fun kv => json_ok (snd kv)) (strip_members strip ps) = true.
Proof.
  induction 1 as [|[key v] rest Hv _ IH]; [reflexivity|].
  cbn [forallb snd]. intros Hok. apply andb_true_iff in Hok as [Hokv Hokr].
  cbn [snd] in Hv. specialize (Hv Hokv). specialize (IH Hokr).
  destruct (value_undefined_dec v) as [->|Hdef].
  - cbn [strip_members]. exact IH.
  - rewrite strip_members_keep by assumption. cbn [forallb snd].
    apply andb_true_iff. split; assumption.
Qed.

Lemma json_ok_strip_number x :
  is_double x = true -> json_ok (strip (VNum x)) = true.
Proof.
  cbn [strip]. destruct x as [|neg|neg|neg m e]; try reflexivity.
  cbn [is_finite settled json_ok plain is_double]. intros ->. reflexivity.
Qed.

Lemma json_ok_strip v : proper v = true -> json_ok (strip v) = true.
Proof.
  induction v as [| |b|x|s|l IHl|ps IHps] using value_nested_ind;
    try reflexivity.
  - apply json_ok_strip_number.
  - cbn [proper strip json_ok]. intros Hok.
    induction IHl as [|v rest Hv _ IH]; [reflexivity|].
    cbn [forallb List.map] in *.
    apply andb_true_iff in Hok as [Hokv Hokr].
    apply andb_true_iff. split; [now apply Hv|now apply IH].
  - cbn [proper strip json_ok]. intros Hok.
    apply andb_true_iff in Hok as [Hkeys Hok].
    apply andb_true_iff. split; [now apply strip_members_own_keys|].
    now apply json_ok_strip_members.
Qed.

Lemma strip_members_id ps :
  Forall (fun kv => json_ok (snd kv) = true -> strip (snd kv) = snd kv) ps ->
  forallb (fun kv => json_ok (snd kv)) ps = true ->
  strip_members strip ps = ps.
Proof.
  induction 1 as [|[key v] rest Hv _ IH]; [reflexivity|].
  cbn [forallb snd]. intros Hok. apply andb_true_iff in Hok as [Hokv Hokr].
  cbn [snd] in Hv. specialize (Hv Hokv). specialize (IH Hokr).
  rewrite strip_members_keep by (intros ->; discriminate Hokv).
  now rewrite Hv, IH.
Qed.

(** A value that JSON text holds as it is keeps everything. *)
Lemma strip_id v : json_ok v = true -> strip v = v.
Proof.
  induction v as [| |b|x|s|l IHl|ps IHps] using value_nested_ind;
    try reflexivity; try discriminate.
  - cbn [json_ok strip]. intros H. apply andb_true_iff in H as [_ Hp].
    now rewrite (plain_finite x Hp), (plain_settled x Hp).
  - cbn [json_ok strip]. intros Hok. f_equal.
    induction IHl as [|v rest Hv _ IH]; [reflexivity|].
    cbn [forallb List.map] in *.
    apply andb_true_iff in Hok as [Hokv Hokr].
    now rewrite Hv, IH.
  - cbn [json_ok strip]. intros Hok.
    apply andb_true_iff in Hok as [_ Hok]. f_equal.
    now apply strip_members_id.
Qed.

Lemma map_strip_id l : forallb json_ok l = true -> List.map strip l = l.
Proof.
  induction l as [|v l IH]; [reflexivity|]. cbn [forallb List.map].
  intros H. apply andb_true_iff in H as [Hv Hl].
  now rewrite (strip_id v Hv), IH.
Qed.

Lemma stringify_defined v : v <> VUndefined -> stringify v = Some (put v []).
Proof. destruct v; try reflexivity. congruence. Qed.

(** [JSON.parse(JSON.stringify(v))] is what [v] keeps, for every value but
    [undefined]. *)
Lemma parse_stringify_any v :
  v <> VUndefined -> proper v = true ->
  exists t, stringify v = Some t /\ parse t = Some (strip v) /\ t <> [].
Proof.
  intros Hdef Hwf.
  destruct (parse_stringify (strip v) (json_ok_strip v Hwf))
    as (t & Hs & Hp & Hne).
  exists t. split; [|now split].
  rewrite <- Hs, !stringify_defined by (assumption || apply strip_defined).
  now rewrite <- put_strip.
Qed.

End FullJSONFacts.

(** * Properties of the persistence gateway at full width *)

Module FullPersistFacts.

Import Unicode Number Full Full.JSON NumberFacts FullJSONFacts.

(** Loading after saving any value but [undefined]: the load resolves
    with what the value keeps. *)
Lemma load_after_save_any ls data :
  data <> VUndefined -> proper data = true ->
  apiService.loadWorkflow (fst (apiService.saveWorkflow data ls)) =
  Resolved (VObj [(text "success", VBool true); (text "data", strip data)]).
Proof.
  intros Hdef Hwf.
  destruct (parse_stringify_any data Hdef Hwf) as (t & Hs & Hp & Hne).
  unfold apiService.saveWorkflow, apiService.loadWorkflow, setItem, getItem.
  cbn [fst]. rewrite Hs. cbn [from_option id].
  rewrite lookup_insert_eq. cbn [parse_item]. rewrite Hp.
  destruct t; [congruence|reflexivity].
Qed.

Lemma real_parts x : real x = true -> is_finite x = true /\ is_double x = true.
Proof. unfold real. intros H. now apply andb_true_iff in H. Qed.

Lemma proper_node n : positioned n = true -> proper (node_value n) = true.
Proof.
  unfold positioned. intros H. apply andb_true_iff in H as [Hx Hy].
  apply real_parts in Hx as [_ Hx]. apply real_parts in Hy as [_ Hy].
  unfold node_value.
  change (proper (VObj ?ps)) with
    (own_keys ps && forallb (fun kv => proper (snd kv)) ps).
  apply andb_true_iff. split; [reflexivity|].
  cbn [forallb snd proper]. rewrite Hx, Hy. reflexivity.
Qed.

Lemma proper_edge e : proper (edge_value e) = true.
Proof. reflexivity. Qed.

Lemma proper_workflowData ns es :
  forallb proper ns = true -> forallb proper es = true ->
  proper (workflowData ns es) = true.
Proof.
  intros Hn He. unfold workflowData.
  change (proper (VObj ?ps)) with
    (own_keys ps && forallb (fun kv => proper (snd kv)) ps).
  apply andb_true_iff. split; [reflexivity|].
  cbn [forallb snd proper]. rewrite Hn, He. reflexivity.
Qed.

Lemma proper_snapshot ns es :
  forallb positioned ns = true -> proper (snapshot ns es) = true.
Proof.
  intros Hp. apply proper_workflowData.
  - induction ns as [|n ns IH]; [reflexivity|].
    cbn [forallb] in Hp. apply andb_true_iff in Hp as [Hn Hns].
    cbn [List.map forallb]. now rewrite proper_node, IH.
  - induction es as [|e es IH]; [reflexivity|].
    cbn [List.map forallb]. now rewrite proper_edge, IH.
Qed.

Lemma strip_workflowData ns es :
  strip (workflowData ns es) =
  workflowData (List.map strip ns) (List.map strip es).
Proof. reflexivity. Qed.

Lemma strip_node_value n :
  positioned n = true -> strip (node_value n) = node_value (reloaded n).
Proof.
  unfold positioned. intros H. apply andb_true_iff in H as [Hx Hy].
  apply real_parts in Hx as [Hx _]. apply real_parts in Hy as [Hy _].
  unfold node_value, reloaded.
  cbn [strip strip_members node_id node_type node_label node_x node_y].
  now rewrite Hx, Hy.
Qed.

Lemma strip_edge_value e : strip (edge_value e) = edge_value e.
Proof. reflexivity. Qed.

Lemma strip_snapshot ns es :
  forallb positioned ns = true ->
  strip (snapshot ns es) = snapshot (List.map reloaded ns) es.
Proof.
  intros Hp. unfold snapshot. rewrite strip_workflowData. f_equal.
  - induction ns as [|n ns IH]; [reflexivity|].
    cbn [forallb] in Hp. apply andb_true_iff in Hp as [Hn Hns].
    cbn [List.map]. now rewrite strip_node_value, IH.
  - induction es as [|e es IH]; [reflexivity|].
    cbn [List.map]. now rewrite strip_edge_value, IH.
Qed.

Lemma same_refl x : same x x = true.
Proof.
  destruct x as [|a|a|a m e]; cbn [same]; try reflexivity;
    try apply eqb_reflx.
  now rewrite eqb_reflx, Pos.eqb_refl, Z.eqb_refl.
Qed.

Lemma equal_settled x : is_finite x = true -> equal x (settled x) = true.
Proof.
  destruct x as [|a|a|a m e]; try discriminate; intros _; [reflexivity|].
  cbn [settled equal]. apply same_refl.
Qed.

Lemma same_node_reloaded n :
  positioned n = true -> same_node n (reloaded n) = true.
Proof.
  unfold positioned. intros H. apply andb_true_iff in H as [Hx Hy].
  apply real_parts in Hx as [Hx _]. apply real_parts in Hy as [Hy _].
  unfold same_node, reloaded.
  cbn [node_id node_type node_label node_x node_y].
  now rewrite !jstring_eqb_refl, !equal_settled.
Qed.

Lemma reloaded_plain n :
  plain (node_x n) = true -> plain (node_y n) = true -> reloaded n = n.
Proof.
  intros Hx Hy. destruct n as [i t l x y]. unfold reloaded.
  cbn [node_id node_type node_label node_x node_y] in *.
  now rewrite !plain_settled.
Qed.

Lemma text_inj a b : text a = text b -> a = b.
Proof.
  unfold text. intros H.
  rewrite <- (string_of_list_ascii_of_string a),
          <- (string_of_list_ascii_of_string b).
  f_equal. revert H.
  generalize (list_ascii_of_string a), (list_ascii_of_string b).
  intros l. induction l as [|c l IH]; intros [|d l'] H; try discriminate H;
    [reflexivity|].
  cbn [List.map] in H. injection H as -> H. f_equal. now apply IH.
Qed.

Lemma node_value_inj a b : node_value a = node_value b -> a = b.
Proof. destruct a, b. unfold node_value. cbn. congruence. Qed.

Lemma edge_value_inj a b : edge_value a = edge_value b -> a = b.
Proof. destruct a, b. unfold edge_value. cbn. congruence. Qed.

Lemma map_inj {A} (f : A -> value) (l l' : list A) :
  (forall a b, f a = f b -> a = b) ->
  List.map f l = List.map f l' -> l = l'.
Proof.
  intros Hf. revert l'. induction l as [|a l IH]; intros [|b l'] H;
    try discriminate H; [reflexivity|].
  injection H as Hab H. f_equal; [now apply Hf|now apply IH].
Qed.

Lemma snapshot_inj ns es ns' es' :
  snapshot ns' es' = snapshot ns es -> ns' = ns /\ es' = es.
Proof.
  unfold snapshot, workflowData. intros [= Hn He]. split.
  - exact (map_inj node_value ns' ns node_value_inj Hn).
  - exact (map_inj edge_value es' es edge_value_inj He).
Qed.

(** C6: saving a snapshot whose positions are real numbers and then
    loading succeeds: the save resolves; the load resolves with the
    snapshot of the same edges and of nodes that are equal by value to the
    saved ones, with the same identifier, kind and label, code unit for
    code unit, and coordinates that [===] holds equal to the saved ones
    (they are the saved coordinates themselves, except that a negative
    zero comes back as the positive zero); the handler puts these node and
    edge sequences in the store with nothing selected; and the loaded
    value stands for these records and no others. *)
Theorem save_load_roundtrip (ls : gmap string jstring) (ns : list Node)
    (es : list Edge) (c : view) :
  forallb positioned ns = true ->
  snd (apiService.saveWorkflow (snapshot ns es) ls) =
    Resolved (VObj [(text "success", VBool true);
                    (text "message",
                     VStr (text "Workflow saved successfully"))]) /\
  apiService.loadWorkflow (fst (apiService.saveWorkflow (snapshot ns es) ls)) =
    Resolved (VObj [(text "success", VBool true);
                    (text "data", snapshot (List.map reloaded ns) es)]) /\
  Forall2 (fun saved loaded => same_node saved loaded = true)
    ns (List.map reloaded ns) /\
  (forall n, In n ns ->
     plain (node_x n) = true -> plain (node_y n) = true -> reloaded n = n) /\
  loadWorkflow (fst (apiService.saveWorkflow (snapshot ns es) ls)) c =
    {| flow := {| nodes := List.map node_value (List.map reloaded ns);
                  edges := List.map edge_value es;
                  selectedNode := VNull |};
       isLoading := false;
       statusMessage := VStr (text "Workflow loaded successfully.") |} /\
  (forall ns' es',
     snapshot ns' es' = snapshot (List.map reloaded ns) es ->
     ns' = List.map reloaded ns /\ es' = es).
Proof.
  intros Hp.
  assert (Hload :
    apiService.loadWorkflow (fst (apiService.saveWorkflow (snapshot ns es) ls)) =
    Resolved (VObj [(text "success", VBool true);
                    (text "data", snapshot (List.map reloaded ns) es)])).
  { rewrite load_after_save_any;
      [|discriminate|now apply proper_snapshot].
    now rewrite strip_snapshot. }
  split; [reflexivity|]. split; [exact Hload|]. split; [|split; [|split]].
  - clear Hload. induction ns as [|n ns IH]; [constructor|].
    cbn [forallb] in Hp. apply andb_true_iff in Hp as [Hn Hns].
    cbn [List.map]. constructor; [now apply same_node_reloaded|now apply IH].
  - intros n _. apply reloaded_plain.
  - unfold loadWorkflow. rewrite Hload. reflexivity.
  - intros ns' es'. apply snapshot_inj.
Qed.

Lemma save_load_roundtrip_witness :
  forallb positioned (seed_nodes ++ [dropped_node]) = true /\
  apiService.loadWorkflow
    (fst (apiService.saveWorkflow
            (snapshot (seed_nodes ++ [dropped_node]) seed_edges) ∅)) =
    Resolved
      (VObj [(text "success", VBool true);
             (text "data",
              snapshot (List.map reloaded (seed_nodes ++ [dropped_node]))
                seed_edges)]).
Proof.
  split; [reflexivity|].
  exact (proj1 (proj2 (save_load_roundtrip ∅ (seed_nodes ++ [dropped_node])
    seed_edges
    {| flow := {| nodes := []; edges := []; selectedNode := VNull |};
       isLoading := false; statusMessage := VNull |} eq_refl))).
Defined.

Lemma saveWorkflow_storage ls c :
  fst (saveWorkflow ls c) =
  fst (apiService.saveWorkflow
         (workflowData (nodes (flow c)) (edges (flow c))) ls).
Proof. reflexivity. Qed.

(** X11: the [saveWorkflow] handler followed, from any later state of the
    component, by the [loadWorkflow] handler puts back the nodes and edges
    that the store had when it was saved, as JSON text keeps them: without
    their [undefined] properties, with [null] for [undefined] array
    elements and for the numbers that are not finite, with the positive
    zero for the negative one, and with nothing selected. Sequences free
    of these come back as they were. *)
Theorem save_then_load_restores (ls : gmap string jstring) (c c' : view) :
  forallb proper (nodes (flow c)) = true ->
  forallb proper (edges (flow c)) = true ->
  loadWorkflow (fst (saveWorkflow ls c)) c' =
    {| flow := {| nodes := List.map strip (nodes (flow c));
                  edges := List.map strip (edges (flow c));
                  selectedNode := VNull |};
       isLoading := false;
       statusMessage := VStr (text "Workflow loaded successfully.") |} /\
  (forallb json_ok (nodes (flow c)) = true ->
   List.map strip (nodes (flow c)) = nodes (flow c)) /\
  (forallb json_ok (edges (flow c)) = true ->
   List.map strip (edges (flow c)) = edges (flow c)).
Proof.
  intros Hn He. split; [|split; apply map_strip_id].
  rewrite saveWorkflow_storage. unfold loadWorkflow.
  rewrite load_after_save_any;
    [|discriminate|now apply proper_workflowData].
  rewrite strip_workflowData. reflexivity.
Qed.

Lemma save_then_load_restores_witness :
  loadWorkflow
    (fst (saveWorkflow ∅
            {| flow := odd_store; isLoading := false;
               statusMessage := VNull |}))
    {| flow := {| nodes := []; edges := []; selectedNode := VNull |};
       isLoading := false; statusMessage := VNull |} =
  {| flow := {| nodes := List.map node_value seed_nodes ++
                  [VObj [(text "id", VStr (text "4"));
                         (text "position",
                          VObj [(text "x",
                                 VNum (round_decimal false 105 (-1)));
                                (text "y", VNull)])]];
                edges := List.map edge_value seed_edges;
                selectedNode := VNull |};
     isLoading := false;
     statusMessage := VStr (text "Workflow loaded successfully.") |}.
Proof.
  exact (proj1 (save_then_load_restores ∅
    {| flow := odd_store; isLoading := false; statusMessage := VNull |}
    {| flow := {| nodes := []; edges := []; selectedNode := VNull |};
       isLoading := false; statusMessage := VNull |}
    eq_refl eq_refl)).
Defined.

(** X12: when the stored text is not JSON text, [JSON.parse] throws in the
    timer's callback, the promise is never settled and the handler never
    reaches its [finally] block: the store is left as it was and the
    component stays in its loading state. *)
Theorem load_of_corrupt_text_never_ends (ls : gmap string jstring)
    (t : jstring) (c : view) :
  ls !! "savedWorkflow" = Some t -> t <> [] ->
  JSON.parse t = None ->
  apiService.loadWorkflow ls = Unsettled /\
  loadWorkflow ls c =
    {| flow := flow c; isLoading := true;
       statusMessage := VStr (text "Loading workflow...") |}.
Proof.
  intros Hget Hne Hparse.
  assert (H : apiService.loadWorkflow ls = Unsettled).
  { unfold apiService.loadWorkflow, getItem. rewrite Hget.
    cbn [parse_item]. rewrite Hparse. now destruct t. }
  split; [exact H|]. unfold loadWorkflow. now rewrite H.
Qed.

Lemma load_of_corrupt_text_never_ends_witness :
  JSON.parse (text "{") = None /\
  loadWorkflow (setItem "savedWorkflow" (text "{") ∅)
    {| flow := odd_store; isLoading := false; statusMessage := VNull |} =
  {| flow := odd_store; isLoading := true;
     statusMessage := VStr (text "Loading workflow...") |}.
Proof.
  split; [reflexivity|].
  refine (proj2 (load_of_corrupt_text_never_ends
                   (setItem "savedWorkflow" (text "{") ∅) (text "{")
                   _ _ _ eq_refl)).
  - apply lookup_insert_eq.
  - discriminate.
Defined.

(** X13: a stored text that is empty is treated as no saved workflow, and
    a stored text whose value is falsy ([null], [false], a zero, the empty
    string) resolves the load without any dispatch and without a new status
    message; in both cases the store is left as it was. *)
Theorem load_of_falsy_data_changes_nothing (ls : gmap string jstring)
    (c : view) :
  (ls !! "savedWorkflow" = Some (text "") ->
   loadWorkflow ls c =
     {| flow := flow c; isLoading := false;
        statusMessage := VStr (text "No saved workflow found.") |}) /\
  (forall (t : jstring) (data : value),
     ls !! "savedWorkflow" = Some t -> t <> [] ->
     JSON.parse t = Some data -> truthy data = false ->
     loadWorkflow ls c =
       {| flow := flow c; isLoading := false;
          statusMessage := VStr (text "Loading workflow...") |}).
Proof.
  split.
  - intros Hget. unfold loadWorkflow, apiService.loadWorkflow, getItem.
    now rewrite Hget.
  - intros t data Hget Hne Hparse Hfalsy.
    unfold loadWorkflow, apiService.loadWorkflow, getItem. rewrite Hget.
    cbn [parse_item]. rewrite Hparse.
    replace (truthy (VStr t)) with true by now destruct t.
    change (get_prop (VObj ?ps) (text "success"))
      with (Some (VBool true)).
    change (get_prop (VObj [(text "success", VBool true); (text "data", data)])
              (text "data")) with (Some data).
    cbn [truthy andb]. now rewrite Hfalsy.
Qed.

Lemma load_of_falsy_data_changes_nothing_witness :
  JSON.parse (text "0.0") = Some (VNum (Zero false)) /\
  loadWorkflow (setItem "savedWorkflow" (text "0.0") ∅)
    {| flow := odd_store; isLoading := false; statusMessage := VNull |} =
  {| flow := odd_store; isLoading := false;
     statusMessage := VStr (text "Loading workflow...") |}.
Proof.
  split; [reflexivity|].
  refine (proj2 (load_of_falsy_data_changes_nothing
                   (setItem "savedWorkflow" (text "0.0") ∅) _)
            (text "0.0") (VNum (Zero false)) _ _ eq_refl eq_refl).
  - apply lookup_insert_eq.
  - discriminate.
Defined.

Lemma get_prop_truthy data k :
  truthy data = true -> exists v, get_prop data k = Some v.
Proof. destruct data; try discriminate; intros _; now eexists. Qed.

(** X14: any stored text whose value is truthy is loaded as a workflow:
    the store's nodes and edges become the [nodes] and [edges] properties
    of the value where these are arrays and the empty sequence where they
    are not, nothing is selected, and success is reported. *)
Theorem load_accepts_any_truthy_data (ls : gmap string jstring)
    (t : jstring) (data : value) (c : view) :
  ls !! "savedWorkflow" = Some t -> t <> [] ->
  JSON.parse t = Some data -> truthy data = true ->
  exists ns es,
    get_prop data (text "nodes") = Some ns /\
    get_prop data (text "edges") = Some es /\
    loadWorkflow ls c =
      {| flow := {| nodes := stored ns; edges := stored es;
                    selectedNode := VNull |};
         isLoading := false;
         statusMessage := VStr (text "Workflow loaded successfully.") |} /\
    (isArray ns = false -> stored ns = []) /\
    (isArray es = false -> stored es = []).
Proof.
  intros Hget Hne Hparse Htruthy.
  destruct (get_prop_truthy data (text "nodes") Htruthy) as [ns Hns].
  destruct (get_prop_truthy data (text "edges") Htruthy) as [es Hes].
  exists ns, es. split; [exact Hns|]. split; [exact Hes|]. split.
  - unfold loadWorkflow, apiService.loadWorkflow, getItem. rewrite Hget.
    cbn [parse_item]. rewrite Hparse.
    replace (truthy (VStr t)) with true by now destruct t.
    change (get_prop (VObj ?ps) (text "success"))
      with (Some (VBool true)).
    change (get_prop (VObj [(text "success", VBool true); (text "data", data)])
              (text "data")) with (Some data).
    cbn [truthy andb]. now rewrite Htruthy, Hns, Hes.
  - split; [now destruct ns|now destruct es].
Qed.

Lemma load_accepts_any_truthy_data_witness :
  JSON.parse zoomed =
    Some (VObj [(text "nodes", VArr []); (text "edges", VArr []);
                (text "zoom", VNum (round_decimal false 15 (-1)))]) /\
  loadWorkflow (setItem "savedWorkflow" zoomed ∅)
    {| flow := odd_store; isLoading := false; statusMessage := VNull |} =
  {| flow := {| nodes := []; edges := []; selectedNode := VNull |};
     isLoading := false;
     statusMessage := VStr (text "Workflow loaded successfully.") |}.
Proof.
  split; [reflexivity|].
  destruct (load_accepts_any_truthy_data (setItem "savedWorkflow" zoomed ∅)
              zoomed
              (VObj [(text "nodes", VArr []); (text "edges", VArr []);
                     (text "zoom", VNum (round_decimal false 15 (-1)))])
              {| flow := odd_store; isLoading := false;
                 statusMessage := VNull |})
    as (ns & es & Hns & Hes & Hrun & _);
    [apply lookup_insert_eq|discriminate|reflexivity|reflexivity|].
  injection Hns as <-. injection Hes as <-. exact Hrun.
Defined.

End FullPersistFacts.

(** * Properties of the responsive sidebars *)

Module ResponsiveFacts.

Import Responsive.

(** Case analysis on the comparisons of a width with the two
    breakpoints. *)
Ltac breakpoints w :=
  destruct (Z.ltb_spec w 768), (Z.ltb_spec w 1024), (Z.leb_spec 1024 w);
  try lia.

Lemma fits_window_mounted w : fits_window (mounted w) = true.
Proof.
  unfold mounted, handleResize, handleResize_closure, fits_window.
  breakpoints w; cbn; breakpoints w; reflexivity.
Qed.

Lemma fits_window_handle e s :
  fits_window s = true -> fits_window (handle e s) = true.
Proof.
  unfold fits_window. intros H. apply andb_true_iff in H as [Hm Hs].
  apply Bool.eqb_prop in Hm.
  destruct e as [w| | |v| |]; cbn [handle].
  - unfold handleResize, handleResize_closure.
    breakpoints w; cbn; breakpoints w; cbn;
      rewrite ?andb_false_r; reflexivity.
  - unfold toggleLeftSidebar. cbn. rewrite Hm, Bool.eqb_reflx.
    revert Hs. breakpoints (windowWidth s); cbn; try reflexivity;
      destruct (leftSidebarOpen s), (rightSidebarOpen s); cbn; congruence.
  - unfold toggleRightSidebar. cbn. rewrite Hm, Bool.eqb_reflx.
    revert Hs. breakpoints (windowWidth s); cbn; try reflexivity;
      destruct (leftSidebarOpen s), (rightSidebarOpen s); cbn; congruence.
  - unfold onSelection.
    destruct (JS.truthy v && isMobile s); cbn;
      rewrite Hm, Bool.eqb_reflx; cbn; [now rewrite orb_true_r|exact Hs].
  - unfold afterDrop. destruct (isMobile s) eqn:E; cbn;
      rewrite ?E, <- Hm; cbn; [now rewrite orb_true_r|exact Hs].
  - unfold afterDelete. destruct (isMobile s) eqn:E; cbn;
      rewrite ?E, <- Hm; cbn;
      [now rewrite andb_false_r, orb_true_r|exact Hs].
Qed.

Lemma fits_window_run es s :
  fits_window s = true -> fits_window (run es s) = true.
Proof.
  unfold run. revert s. induction es as [|e es IH]; intros s H; [exact H|].
  cbn [fold_left]. apply IH. now apply fits_window_handle.
Qed.

(** X15: after the component is mounted, whatever the sequence of resizes,
    sidebar toggles, selection changes, drops and deletions, [isMobile]
    says whether the
    window is narrower than 768, and on a window narrower than 1024 the two
    sidebars are never both open. *)
Theorem sidebars_fit_window (w0 : Z) (es : list event) :
  fits_window (run es (mounted w0)) = true /\
  isMobile (run es (mounted w0)) = (windowWidth (run es (mounted w0)) <? 768)
  /\
  (windowWidth (run es (mounted w0)) < 1024 ->
   leftSidebarOpen (run es (mounted w0)) &&
   rightSidebarOpen (run es (mounted w0)) = false).
Proof.
  pose proof (fits_window_run es (mounted w0) (fits_window_mounted w0)) as H.
  split; [exact H|]. unfold fits_window in H.
  apply andb_true_iff in H as [Hm Hs]. apply Bool.eqb_prop in Hm.
  split; [exact Hm|]. intros Hw. apply orb_true_iff in Hs as [Hs|Hs].
  - apply Z.leb_le in Hs. lia.
  - now apply negb_true_iff in Hs.
Qed.

Lemma sidebars_fit_window_witness :
  windowWidth (run [Resize 900; ToggleRight; ToggleLeft] (mounted 1440)) < 1024
  /\
  leftSidebarOpen (run [Resize 900; ToggleRight; ToggleLeft] (mounted 1440))
  && rightSidebarOpen (run [Resize 900; ToggleRight; ToggleLeft]
                         (mounted 1440)) = false.
Proof.
  assert (Hw : windowWidth (run [Resize 900; ToggleRight; ToggleLeft]
                              (mounted 1440)) < 1024) by reflexivity.
  split; [exact Hw|].
  exact (proj2 (proj2 (sidebars_fit_window 1440
                         [Resize 900; ToggleRight; ToggleLeft])) Hw).
Defined.

(** X16: on a window narrower than 768, a selection change with a node
    selected shows the right sidebar alone, whatever happened before. *)
Theorem phone_selection_shows_properties (w0 : Z) (es : list event)
    (selected : JS.value) :
  windowWidth (run es (mounted w0)) < 768 ->
  JS.truthy selected = true ->
  rightSidebarOpen (onSelection selected (run es (mounted w0))) = true /\
  leftSidebarOpen (onSelection selected (run es (mounted w0))) = false.
Proof.
  intros Hw Ht.
  pose proof (fits_window_run es (mounted w0) (fits_window_mounted w0)) as H.
  unfold fits_window in H. apply andb_true_iff in H as [Hm _].
  apply Bool.eqb_prop in Hm. apply Z.ltb_lt in Hw. rewrite Hw in Hm.
  unfold onSelection. rewrite Ht, Hm. split; reflexivity.
Qed.

Lemma phone_selection_shows_properties_witness :
  windowWidth (run [ToggleLeft] (mounted 400)) < 768 /\
  rightSidebarOpen
    (onSelection (JS.VStr "node") (run [ToggleLeft] (mounted 400))) = true /\
  leftSidebarOpen
    (onSelection (JS.VStr "node") (run [ToggleLeft] (mounted 400))) = false.
Proof.
  assert (Hw : windowWidth (run [ToggleLeft] (mounted 400)) < 768)
    by reflexivity.
  split; [exact Hw|].
  exact (phone_selection_shows_properties 400 [ToggleLeft] (JS.VStr "node")
           Hw eq_refl).
Defined.

End ResponsiveFacts.
